(** * halotools.halo_occupation: a shallow embedding and its verification

    The module [halo_occupation.py] models the galaxy-halo connection with
    HOD-style models.  This development embeds

    - the numpy array idioms the module is written with (boolean masks,
      index arrays, [np.where], [np.argsort], [np.linspace], [np.digitize]);
    - [Zheng07_HOD_Model]: constructor, [published_parameters] and
      [require_correct_keys], as a state-and-exception monad over the instance,
      and its occupation functions;
    - [Assembly_Biased_HOD_Model]: the type-fraction, ceiling, floor and
      destruction functions for centrals and satellites, the conditioned
      occupations, and [halo_type_calculator];
    - the constructors of [Satcen_Correlation_Polynomial_HOD_Model],
      [Polynomial_Assembly_Biased_HOD_Model] and [vdB03_Quenching_Model];
    - [solve_for_polynomial_coefficients] and the polynomial models built on
      it, over an arbitrary field;
    - [anatoly_concentration] and [cumulative_NFW_PDF], over the real
      numbers.

    Floating-point numbers are read as rationals ([Q]), and as real numbers
    where the code takes powers and logarithms; Python exceptions are the
    constructors of [exn]; a call either returns ([Ok]) or raises ([Raise]).
    The definitions come first, the proofs after them. *)

From Stdlib Require Import String QArith Qround Qminmax Lia Lqa ZArith Bool List.
From Stdlib Require Import Sorting.Permutation Sorting.Sorted.
From Stdlib Require Reals Lra Qreals.
From mathcomp Require boot order algebra.
Import ListNotations.

Set Warnings "-notation-overridden,-ambiguous-paths,-deprecated".

Open Scope Q_scope.

(** ** Python exceptions and results *)

Inductive exn : Type :=
| TypeError (msg : string)
| AttributeError
| IndexError
| ValueError
| OverflowError
| LinAlgError.

Inductive result (A : Type) : Type :=
| Ok (a : A)
| Raise (e : exn).
Arguments Ok {A} a.
Arguments Raise {A} e.

Definition bind {A B : Type} (r : result A) (k : A -> result B) : result B :=
  match r with
  | Ok a => k a
  | Raise e => Raise e
  end.

Notation "x <- c ;; k" := (bind c (fun x => k))
  (at level 61, c at next level, right associativity).

Definition raises {A : Type} (r : result A) : Prop :=
  exists e, r = Raise e.

(** ** numpy arrays

    A one-dimensional float array is a list of rationals.  Comparisons give
    boolean masks; [a[mask]] is [compress]; [a[mask] = v] is [putmask];
    [np.where(mask)[0]] is [np_where]; [a[idx]] with an integer index array is
    [take] and [a[idx] = v] is [put], both raising [IndexError] out of
    range. *)

Definition array := list Q.

Definition zeros (n : nat) : array := repeat 0 n.
Definition ones (n : nat) : array := repeat 1 n.

Definition map2 {A B C : Type} (f : A -> B -> C) (a : list A) (b : list B)
  : list C :=
  map (fun xy => f (fst xy) (snd xy)) (combine a b).

Definition Qlt_bool (x y : Q) : bool := negb (Qle_bool y x).

(** [a > c], [a < c], [a == c] against a scalar; [a < b], [a > b] between
    arrays. *)
Definition gt_scalar (a : array) (c : Q) : list bool :=
  map (fun x => Qlt_bool c x) a.
Definition lt_scalar (a : array) (c : Q) : list bool :=
  map (fun x => Qlt_bool x c) a.
Definition eq_scalar (a : array) (c : Q) : list bool :=
  map (fun x => Qeq_bool x c) a.
Definition lt_arrays (a b : array) : list bool := map2 Qlt_bool a b.
Definition gt_arrays (a b : array) : list bool :=
  map2 (fun x y => Qlt_bool y x) a b.

(** [1.0 - a] and [1./a].  The source only divides under a mask that keeps the
    divisor positive, so the value of [/ 0] is never used. *)
Definition one_minus (a : array) : array := map (fun x => 1 - x) a.
Definition reciprocal (a : array) : array := map (fun x => 1 / x) a.

(** [a[mask]]. *)
Fixpoint compress {A : Type} (m : list bool) (a : list A) : list A :=
  match m, a with
  | b :: m', x :: a' => if b then x :: compress m' a' else compress m' a'
  | _, _ => []
  end.

(** [a[mask] = v]: the masked positions receive the elements of [v] in
    order. *)
Fixpoint putmask {A : Type} (a : list A) (m : list bool) (v : list A)
  : list A :=
  match a, m with
  | x :: a', b :: m' =>
      if b then
        match v with
        | y :: v' => y :: putmask a' m' v'
        | [] => x :: putmask a' m' []
        end
      else x :: putmask a' m' v
  | _, _ => a
  end.

(** [a[mask] = c] for a scalar [c]. *)
Fixpoint putmask_scalar {A : Type} (a : list A) (m : list bool) (c : A)
  : list A :=
  match a, m with
  | x :: a', b :: m' => (if b then c else x) :: putmask_scalar a' m' c
  | _, _ => a
  end.

(** [np.where(mask)[0]]: the indices at which the mask holds, ascending. *)
Fixpoint where_from (i : nat) (m : list bool) : list nat :=
  match m with
  | [] => []
  | b :: m' => if b then i :: where_from (S i) m' else where_from (S i) m'
  end.
Definition np_where (m : list bool) : list nat := where_from 0 m.

(** [a[idx]] for an index array. *)
Fixpoint take {A : Type} (a : list A) (idx : list nat) : result (list A) :=
  match idx with
  | [] => Ok []
  | i :: idx' =>
      match nth_error a i with
      | Some x => xs <- take a idx' ;; Ok (x :: xs)
      | None => Raise IndexError
      end
  end.

(** [a[i] = x] for one in-range index. *)
Fixpoint set_item {A : Type} (a : list A) (i : nat) (x : A) : list A :=
  match a, i with
  | [], _ => []
  | _ :: a', O => x :: a'
  | y :: a', S i' => y :: set_item a' i' x
  end.

(** [a[idx] = v] for an index array and an array of values of the same
    length. *)
Fixpoint put {A : Type} (a : list A) (idx : list nat) (v : list A)
  : result (list A) :=
  match idx, v with
  | [], [] => Ok a
  | i :: idx', x :: v' =>
      if (i <? length a)%nat then put (set_item a i x) idx' v'
      else Raise IndexError
  | _, _ => Raise ValueError
  end.

(** ** Assembly_Biased_HOD_Model

    The abstract class leaves six functions to its concrete subclasses: the
    baseline model's mean occupations, the unconstrained type-1 destruction
    functions and the type-1 fraction functions.  Every one acts on each halo
    on its own, so a model instance carries them as functions of one halo's
    primary property (and, for the baseline model, of its halo type, which
    the Zheng07 baseline ignores).  As in the polynomial models of the module,
    a call returns a new array, so that the updates in place below do not
    reach the arrays of the caller. *)

Record Assembly_Biased_HOD_Model : Type := {
  baseline_mean_ncen : Q -> Q -> Q;
  baseline_mean_nsat : Q -> Q -> Q;
  unconstrained_central_destruction_halo_type1 : Q -> Q;
  unconstrained_satellite_destruction_halo_type1 : Q -> Q;
  halo_type1_fraction_centrals : Q -> Q;
  halo_type1_fraction_satellites : Q -> Q
}.

Section Assembly_Biased_HOD_Model_methods.

Variable self : Assembly_Biased_HOD_Model.

Definition halo_type_fraction_centrals
  (primary_halo_property halo_type : array) : result array :=
  let output_halo_type_fraction :=
    map (halo_type1_fraction_centrals self) primary_halo_property in
  let idx0 := np_where (eq_scalar halo_type 0) in
  at_idx0 <- take output_halo_type_fraction idx0 ;;
  put output_halo_type_fraction idx0 (one_minus at_idx0).

Definition halo_type_fraction_satellites
  (primary_halo_property halo_type : array) : result array :=
  let output_halo_type_fraction :=
    map (halo_type1_fraction_satellites self) primary_halo_property in
  let idx0 := np_where (eq_scalar halo_type 0) in
  at_idx0 <- take output_halo_type_fraction idx0 ;;
  put output_halo_type_fraction idx0 (one_minus at_idx0).

Definition maximum_destruction_centrals
  (primary_halo_property halo_type : array) : result array :=
  let output_maximum_destruction_case1 :=
    zeros (length primary_halo_property) in
  halo_type_fraction <-
    halo_type_fraction_centrals primary_halo_property halo_type ;;
  let idx_positive := gt_scalar halo_type_fraction 0 in
  let output_maximum_destruction_case1 :=
    putmask output_maximum_destruction_case1 idx_positive
      (reciprocal (compress idx_positive halo_type_fraction)) in
  let output_maximum_destruction_case2 :=
    zeros (length primary_halo_property) in
  let mean_baseline_ncen :=
    map2 (baseline_mean_ncen self) primary_halo_property halo_type in
  let idx_nonzero_centrals := gt_scalar mean_baseline_ncen 0 in
  let output_maximum_destruction_case2 :=
    putmask output_maximum_destruction_case2 idx_nonzero_centrals
      (reciprocal (compress idx_nonzero_centrals mean_baseline_ncen)) in
  let output_maximum_destruction := output_maximum_destruction_case1 in
  let idx_case2_supercedes_case1 :=
    lt_arrays output_maximum_destruction_case2
      output_maximum_destruction_case1 in
  Ok (putmask output_maximum_destruction idx_case2_supercedes_case1
        (compress idx_case2_supercedes_case1
           output_maximum_destruction_case2)).

Definition maximum_destruction_satellites
  (primary_halo_property halo_type : array) : result array :=
  let output_maximum_destruction := zeros (length primary_halo_property) in
  halo_type_fraction <-
    halo_type_fraction_satellites primary_halo_property halo_type ;;
  let idx_positive := gt_scalar halo_type_fraction 0 in
  Ok (putmask output_maximum_destruction idx_positive
        (reciprocal (compress idx_positive halo_type_fraction))).

(** The part the two destruction functions share once the clamped type-1
    array [output_destruction_allhalos] and [probability_type1] are known: the
    type-0 branch, computed on the halos of [idx0] and written back. *)
Definition destruction_type0_branch
  (primary_halo_property output_destruction_allhalos probability_type1 : array)
  (idx0 : list nat) : result array :=
  output_destruction_input_halo_type0 <-
    take output_destruction_allhalos idx0 ;;
  primary_halo_property_input_halo_type0 <-
    take primary_halo_property idx0 ;;
  probability_type1_input_halo_type0 <- take probability_type1 idx0 ;;
  let probability_type0_input_halo_type0 :=
    one_minus probability_type1_input_halo_type0 in
  let test_positive := gt_scalar probability_type0_input_halo_type0 0 in
  let output_destruction_input_halo_type0 :=
    putmask output_destruction_input_halo_type0 test_positive
      (map2 Qdiv
         (one_minus
            (map2 Qmult
               (compress test_positive output_destruction_input_halo_type0)
               (compress test_positive probability_type1_input_halo_type0)))
         (compress test_positive probability_type0_input_halo_type0)) in
  let test_zero := eq_scalar probability_type0_input_halo_type0 0 in
  let output_destruction_input_halo_type0 :=
    putmask_scalar output_destruction_input_halo_type0 test_zero 0 in
  put output_destruction_allhalos idx0 output_destruction_input_halo_type0.

Definition destruction_satellites
  (primary_halo_property halo_type : array) : result array :=
  let idx0 := np_where (eq_scalar halo_type 0) in
  let idx1 := np_where (eq_scalar halo_type 1) in
  let output_destruction_allhalos := zeros (length primary_halo_property) in
  let all_ones := ones (length primary_halo_property) in
  let output_destruction_allhalos :=
    map (unconstrained_satellite_destruction_halo_type1 self)
      primary_halo_property in
  let test_negative := lt_scalar output_destruction_allhalos 0 in
  let output_destruction_allhalos :=
    putmask_scalar output_destruction_allhalos test_negative 0 in
  maximum <- maximum_destruction_satellites primary_halo_property all_ones ;;
  let test_exceeds_maximum := gt_arrays output_destruction_allhalos maximum in
  let output_destruction_allhalos :=
    putmask output_destruction_allhalos test_exceeds_maximum
      (compress test_exceeds_maximum maximum) in
  probability_type1 <-
    halo_type_fraction_satellites primary_halo_property all_ones ;;
  let test_unit_probability := eq_scalar probability_type1 1 in
  let output_destruction_allhalos :=
    putmask_scalar output_destruction_allhalos test_unit_probability 1 in
  destruction_type0_branch primary_halo_property output_destruction_allhalos
    probability_type1 idx0.

Definition destruction_centrals
  (primary_halo_property halo_type : array) : result array :=
  let idx0 := np_where (eq_scalar halo_type 0) in
  let idx1 := np_where (eq_scalar halo_type 1) in
  let output_destruction_allhalos := zeros (length primary_halo_property) in
  let all_ones := ones (length primary_halo_property) in
  let output_destruction_allhalos :=
    map (unconstrained_central_destruction_halo_type1 self)
      primary_halo_property in
  let test_negative := lt_scalar output_destruction_allhalos 0 in
  let output_destruction_allhalos :=
    putmask_scalar output_destruction_allhalos test_negative 0 in
  maximum <- maximum_destruction_centrals primary_halo_property all_ones ;;
  let test_exceeds_maximum := gt_arrays output_destruction_allhalos maximum in
  let output_destruction_allhalos :=
    putmask output_destruction_allhalos test_exceeds_maximum
      (compress test_exceeds_maximum maximum) in
  probability_type1 <-
    halo_type_fraction_centrals primary_halo_property all_ones ;;
  let test_unit_probability := eq_scalar probability_type1 1 in
  let output_destruction_allhalos :=
    putmask_scalar output_destruction_allhalos test_unit_probability 1 in
  destruction_type0_branch primary_halo_property output_destruction_allhalos
    probability_type1 idx0.

(** [mean_ncen] and [mean_nsat] of the assembly-biased model. *)
Definition mean_ncen (primary_halo_property halo_type : array)
  : result array :=
  d <- destruction_centrals primary_halo_property halo_type ;;
  Ok (map2 Qmult d
        (map2 (baseline_mean_ncen self) primary_halo_property halo_type)).

Definition mean_nsat (primary_halo_property halo_type : array)
  : result array :=
  d <- destruction_satellites primary_halo_property halo_type ;;
  Ok (map2 Qmult d
        (map2 (baseline_mean_nsat self) primary_halo_property halo_type)).

End Assembly_Biased_HOD_Model_methods.

(** ** Zheng07_HOD_Model

    An instance holds the three attributes that [HOD_Model.__init__] binds.
    A method is a function of the instance and of the warnings issued so far
    that either raises or returns a value with the updated state. *)

Definition dict := list (string * Q).

Record HOD_Model : Type := {
  publication : list string;
  parameter_dict : option dict;
  threshold : option Q
}.

Record state : Type := {
  instance : HOD_Model;
  warnings : list string
}.

Definition method (A : Type) : Type := state -> result (A * state).

Definition ret {A : Type} (a : A) : method A := fun s => Ok (a, s).

Definition raise {A : Type} (e : exn) : method A := fun _ => Raise e.

Definition bindM {A B : Type} (m : method A) (k : A -> method B) : method B :=
  fun s =>
    match m s with
    | Ok (a, s') => k a s'
    | Raise e => Raise e
    end.

Notation "x <~ c ;; k" := (bindM c (fun x => k))
  (at level 61, c at next level, right associativity).
Notation "c ;;; k" := (bindM c (fun _ => k))
  (at level 61, right associativity).

Definition lift {A : Type} (r : result A) : method A :=
  fun s => match r with Ok a => Ok (a, s) | Raise e => Raise e end.

Definition get_parameter_dict : method (option dict) :=
  fun s => Ok (parameter_dict (instance s), s).
Definition get_threshold : method (option Q) :=
  fun s => Ok (threshold (instance s), s).

Definition set_publication (p : list string) : method unit :=
  fun s =>
    Ok (tt, {| instance := {| publication := p;
                              parameter_dict := parameter_dict (instance s);
                              threshold := threshold (instance s) |};
               warnings := warnings s |}).
Definition set_parameter_dict (d : option dict) : method unit :=
  fun s =>
    Ok (tt, {| instance := {| publication := publication (instance s);
                              parameter_dict := d;
                              threshold := threshold (instance s) |};
               warnings := warnings s |}).
Definition set_threshold (t : option Q) : method unit :=
  fun s =>
    Ok (tt, {| instance := {| publication := publication (instance s);
                              parameter_dict := parameter_dict (instance s);
                              threshold := t |};
               warnings := warnings s |}).
Definition publication_extend (l : list string) : method unit :=
  fun s => set_publication (publication (instance s) ++ l) s.

(** [warnings.warn(msg)]. *)
Definition warn (msg : string) : method unit :=
  fun s => Ok (tt, {| instance := instance s;
                      warnings := warnings s ++ [msg] |}).

(** The [threshold] argument as Python passes it: [None], an [int] or a
    [float], or an object of another type. *)
Inductive threshold_arg : Type :=
| PyNone
| PyNumber (q : Q)
| PyOther.

(** [np.arange(start, stop, step)] for a positive step. *)
Definition np_arange (start stop step : Q) : array :=
  map (fun i => start + inject_Z (Z.of_nat i) * step)
    (seq 0 (Z.to_nat (Qceiling ((stop - start) / step)))).

(** [l[i]] on a Python list. *)
Definition list_item {A : Type} (l : list A) (i : nat) : result A :=
  match nth_error l i with
  | Some x => Ok x
  | None => Raise IndexError
  end.

Definition HOD_Model_init (parameter_dict : option dict) (threshold : option Q)
  : method unit :=
  set_publication [] ;;;
  set_parameter_dict parameter_dict ;;;
  set_threshold threshold.

Definition logMmin_cen_array : list Q :=
  [11.35; 11.46; 11.6; 11.75; 12.02; 12.3; 12.79; 13.38; 14.22].
Definition sigma_logM_array : list Q :=
  [0.25; 0.24; 0.26; 0.28; 0.26; 0.21; 0.39; 0.51; 0.77].
Definition logM0_array : list Q :=
  [11.2; 10.59; 11.49; 11.69; 11.38; 11.84; 11.92; 13.94; 14.0].
Definition logM1_array : list Q :=
  [12.4; 12.68; 12.83; 13.01; 13.31; 13.58; 13.94; 13.91; 14.69].
Definition alpha_sat_array : list Q :=
  [0.83; 0.97; 1.02; 1.06; 1.06; 1.12; 1.15; 1.04; 0.87].

Definition published_parameters (threshold : threshold_arg) : method dict :=
  match threshold with
  | PyNone =>
      warn "HOD threshold unspecified: setting to -19.5" ;;;
      set_threshold (Some (-19.5))
  | PyNumber q => set_threshold (Some q)
  | PyOther => raise (TypeError "Input luminosity threshold must be a scalar")
  end ;;;
  let threshold_array := np_arange (-22) (-17.5) 0.5 in
  let threshold_array := rev threshold_array in
  self_threshold <~ get_threshold ;;
  match self_threshold with
  | None =>
      (* not reached: [self.threshold] has just been set *)
      raise (TypeError
        "Input luminosity threshold does not match any of the Table 1 values of Zheng et al. 2007.")
  | Some t =>
      let threshold_index := np_where (eq_scalar threshold_array t) in
      if (length threshold_index =? 1)%nat then
        i <~ lift (list_item threshold_index 0) ;;
        logMmin_cen <~ lift (list_item logMmin_cen_array i) ;;
        sigma_logM <~ lift (list_item sigma_logM_array i) ;;
        logM0_sat <~ lift (list_item logM0_array i) ;;
        logM1_sat <~ lift (list_item logM1_array i) ;;
        alpha_sat <~ lift (list_item alpha_sat_array i) ;;
        ret [("logMmin_cen", logMmin_cen);
             ("sigma_logM", sigma_logM);
             ("logM0_sat", logM0_sat);
             ("logM1_sat", logM1_sat);
             ("alpha_sat", alpha_sat);
             ("fconc", 1.0)]%string
      else
        raise (TypeError
          "Input luminosity threshold does not match any of the Table 1 values of Zheng et al. 2007.")
  end.

(** [d.keys()], and the comparison of two key sets. *)
Definition keys (d : dict) : list string := map fst d.

Definition subset_keys (a b : list string) : bool :=
  forallb (fun k => existsb (String.eqb k) b) a.
Definition set_eqb (a b : list string) : bool :=
  subset_keys a b && subset_keys b a.

Definition require_correct_keys : method unit :=
  published <~ published_parameters (PyNumber (-20)) ;;
  let correct_set_of_keys := keys published in
  d <~ get_parameter_dict ;;
  match d with
  | None => raise AttributeError
  | Some d =>
      if negb (set_eqb (keys d) correct_set_of_keys) then
        raise (TypeError
          "Set of keys of input parameter_dict do not match the set of keys required by the model")
      else ret tt
  end.

Definition Zheng07_HOD_Model_init (parameter_dict : option dict)
  (threshold : threshold_arg) : method unit :=
  HOD_Model_init None None ;;;
  publication_extend ["arXiv:0703457"%string] ;;;
  match parameter_dict with
  | None =>
      d <~ published_parameters threshold ;;
      set_parameter_dict (Some d)
  | Some _ => ret tt
  end ;;;
  require_correct_keys.

(** An object before its [__init__] has run, and the call
    [Zheng07_HOD_Model(parameter_dict, threshold)]. *)
Definition blank : state :=
  {| instance := {| publication := []; parameter_dict := None;
                    threshold := None |};
     warnings := [] |}.

Definition Zheng07_HOD_Model (parameter_dict : option dict)
  (threshold : threshold_arg) : result state :=
  match Zheng07_HOD_Model_init parameter_dict threshold blank with
  | Ok (_, s) => Ok s
  | Raise e => Raise e
  end.

(** ** halo_type_calculator

    More numpy and Python built-ins.  The module is Python 2 code, whose
    [round] rounds a half away from zero and whose [int] then only changes the
    type. *)

Definition py_round (x : Q) : Z :=
  if Qle_bool 0 x then Qfloor (x + (1#2)) else (- Qfloor (- x + (1#2)))%Z.

(** [a.min()] and [a.max()], which raise [ValueError] on an empty array. *)
Definition array_min (a : array) : result Q :=
  match a with
  | [] => Raise ValueError
  | x :: a' => Ok (fold_left (fun m y => if Qlt_bool y m then y else m) a' x)
  end.
Definition array_max (a : array) : result Q :=
  match a with
  | [] => Raise ValueError
  | x :: a' => Ok (fold_left (fun m y => if Qlt_bool m y then y else m) a' x)
  end.

(** [np.linspace(start, stop, num)]: [num] evenly spaced samples, both end
    points included. *)
Definition np_linspace (start stop : Q) (num : Z) : result array :=
  if (num <? 0)%Z then Raise ValueError
  else if (num =? 1)%Z then Ok [start]
  else
    let step := (stop - start) / inject_Z (num - 1) in
    Ok (map (fun i => start + inject_Z (Z.of_nat i) * step)
          (seq 0 (Z.to_nat num))).

(** [np.diff(a)] and the slice [a[0:-1]]. *)
Definition np_diff (a : array) : array :=
  map2 (fun x y => y - x) a (tl a).
Definition all_but_last (a : array) : array := removelast a.

(** [np.digitize(x, bins)] for increasing [bins]: the index [i] with
    [bins[i-1] <= x < bins[i]], which is the number of edges at or below
    [x].  Without any edge the index is 0 (numpy releases that refuse empty
    [bins] raise there instead; the caller below raises in either case). *)
Definition digitize1 (bins : array) (x : Q) : Z :=
  Z.of_nat (length (filter (fun b => Qle_bool b x) bins)).
Definition np_digitize (xs bins : array) : list Z := map (digitize1 bins) xs.

(** [np.argsort(a)]: the indices that sort [a] in ascending order.  numpy's
    default sort leaves the order of equal keys open; the model keeps equal
    keys in index order. *)
Fixpoint insert_by (key : nat -> Q) (i : nat) (l : list nat) : list nat :=
  match l with
  | [] => [i]
  | j :: l' =>
      if Qle_bool (key i) (key j) then i :: l else j :: insert_by key i l'
  end.
Definition np_argsort (a : array) : list nat :=
  fold_right (insert_by (fun i => nth i a 0)) [] (seq 0 (length a)).

(** [a[i]] with Python's negative indices, and the slice [l[0:k]]. *)
Definition py_item {A : Type} (a : list A) (i : Z) : result A :=
  let n := Z.of_nat (length a) in
  let j := if (i <? 0)%Z then (i + n)%Z else i in
  if ((0 <=? j) && (j <? n))%Z then list_item a (Z.to_nat j)
  else Raise IndexError.
Definition py_slice_to {A : Type} (l : list A) (k : Z) : list A :=
  let n := Z.of_nat (length l) in
  firstn (Z.to_nat (if (k <? 0)%Z then Z.max 0 (n + k) else k)) l.

(** [a[mask]] for a mask that is not built from [a]: numpy refuses a mask of
    another length. *)
Definition compress_checked {A : Type} (m : list bool) (a : list A)
  : result (list A) :=
  if (length m =? length a)%nat then Ok (compress m a) else Raise IndexError.

(** [a[idx] = c] for an index array and a scalar. *)
Fixpoint put_scalar {A : Type} (a : list A) (idx : list nat) (c : A)
  : result (list A) :=
  match idx with
  | [] => Ok a
  | i :: idx' =>
      if (i <? length a)%nat then put_scalar (set_item a i c) idx' c
      else Raise IndexError
  end.

(** A [for] loop over a list whose body may raise. *)
Fixpoint for_each {A S : Type} (body : S -> A -> result S) (l : list A)
  (s : S) : result S :=
  match l with
  | [] => Ok s
  | x :: l' => s' <- body s x ;; for_each body l' s'
  end.

(** [set(l)] for a list of integers, iterated in order of first occurrence.
    The bins are disjoint, so the order of the iteration does not change the
    result. *)
Definition py_set (l : list Z) : list Z := nodup Z.eq_dec l.

Section halo_type_calculator.

(** [defaults.default_bin_max_epsilon]: the module [defaults] is not part of
    the sources, so its constant is a parameter of the development. *)
Variable default_bin_max_epsilon : Q.

(** The body of the loop over the occupied bins. *)
Definition split_bin (secondary_halo_property bin_splitting_fraction : array)
  (array_of_bin_indices : list Z) (halo_types : array) (bin_index_i : Z)
  : result array :=
  let in_bin_i := map (Z.eqb bin_index_i) array_of_bin_indices in
  secondary_property_of_halos_with_bin_index_i <-
    compress_checked in_bin_i secondary_halo_property ;;
  let halo_types_with_bin_index_i := compress in_bin_i halo_types in
  let array_of_indices_that_would_sort_bin_i :=
    np_argsort secondary_property_of_halos_with_bin_index_i in
  fraction <- py_item bin_splitting_fraction bin_index_i ;;
  let bin_splitting_index :=
    py_round
      (inject_Z (Z.of_nat (length array_of_indices_that_would_sort_bin_i))
       * fraction) in
  halo_types_with_bin_index_i <-
    put_scalar halo_types_with_bin_index_i
      (py_slice_to array_of_indices_that_would_sort_bin_i bin_splitting_index)
      0 ;;
  Ok (putmask halo_types in_bin_i halo_types_with_bin_index_i).

Definition halo_type_calculator
  (primary_halo_property secondary_halo_property : array)
  (halo_type_fraction_function : Q -> Q) (bin_spacing : Q) : result array :=
  let halo_types := ones (length primary_halo_property) in
  minimum <- array_min primary_halo_property ;;
  maximum0 <- array_max primary_halo_property ;;
  let maximum := maximum0 + default_bin_max_epsilon in
  if Qeq_bool bin_spacing 0 then Raise OverflowError else
  let Nbins := py_round ((maximum - minimum) / bin_spacing) in
  primary_halo_property_bins <- np_linspace minimum maximum Nbins ;;
  let bin_midpoints :=
    map2 Qplus (all_but_last primary_halo_property_bins)
      (map (fun d => d / 2) (np_diff primary_halo_property_bins)) in
  let bin_splitting_fraction :=
    map2 Qminus (ones (length bin_midpoints))
      (map halo_type_fraction_function bin_midpoints) in
  let array_of_bin_indices :=
    map (fun i => (i - 1)%Z)
      (np_digitize primary_halo_property primary_halo_property_bins) in
  for_each
    (split_bin secondary_halo_property bin_splitting_fraction
       array_of_bin_indices)
    (py_set array_of_bin_indices) halo_types.

End halo_type_calculator.

(** ** Assembly_Biased_HOD_Model: the floor of the central destruction

    [minimum_destruction_centrals] is a method of the class that no other
    method calls.  The mask [(a > 0) & (b > 0)] is the conjunction of the two
    masks, element by element. *)

Section Assembly_Biased_HOD_Model_floor.

Variable self : Assembly_Biased_HOD_Model.

Definition minimum_destruction_centrals
  (primary_halo_property halo_type : array) : result array :=
  let minimum_destruction_centrals := zeros (length primary_halo_property) in
  let mean_ncen :=
    map2 (baseline_mean_ncen self) primary_halo_property halo_type in
  halo_type_fraction <-
    halo_type_fraction_centrals self primary_halo_property halo_type ;;
  let complementary_halo_type_fraction := one_minus halo_type_fraction in
  let idx_both_positive :=
    map2 andb (gt_scalar halo_type_fraction 0) (gt_scalar mean_ncen 0) in
  let minimum_destruction_centrals :=
    putmask minimum_destruction_centrals idx_both_positive
      (map2 Qdiv
         (one_minus
            (map2 Qdiv
               (compress idx_both_positive complementary_halo_type_fraction)
               (compress idx_both_positive mean_ncen)))
         (compress idx_both_positive halo_type_fraction)) in
  let idx_negative := lt_scalar minimum_destruction_centrals 0 in
  Ok (putmask_scalar minimum_destruction_centrals idx_negative 0).

End Assembly_Biased_HOD_Model_floor.

(** ** Satcen_Correlation_Polynomial_HOD_Model

    The subclass in which the halo type records whether the halo hosts a
    central galaxy.  Its type-1 fraction for centrals is the array
    [np.zeros(len(p)) + 1]; its type-1 fraction for satellites is the central
    occupation of the baseline model, called with halo types all equal to 1.
    Its unconstrained destruction functions are polynomials in the primary
    property (see [unconstrained_polynomial_model] below); the properties
    proved of this class hold whatever these two functions are, and the
    instance takes them as arguments. *)

Definition Satcen_Correlation_Polynomial_HOD_Model
  (baseline_hod_model_mean_ncen baseline_hod_model_mean_nsat : Q -> Q -> Q)
  (unconstrained_central_destruction unconstrained_satellite_destruction
     : Q -> Q)
  : Assembly_Biased_HOD_Model :=
  {| baseline_mean_ncen := baseline_hod_model_mean_ncen;
     baseline_mean_nsat := baseline_hod_model_mean_nsat;
     unconstrained_central_destruction_halo_type1 :=
       unconstrained_central_destruction;
     unconstrained_satellite_destruction_halo_type1 :=
       unconstrained_satellite_destruction;
     halo_type1_fraction_centrals := fun _ => 0 + 1;
     halo_type1_fraction_satellites :=
       fun p => baseline_hod_model_mean_ncen p 1 |}.

(** ** The models built on a baseline model: constructors

    [Satcen_Correlation_Polynomial_HOD_Model],
    [Polynomial_Assembly_Biased_HOD_Model] and [vdB03_Quenching_Model] build
    an instance of their baseline model, which is [Zheng07_HOD_Model] unless
    the caller names another class, and join its parameter dictionary with a
    second dictionary whose values are arrays.  The embedding takes the
    baseline class to be [Zheng07_HOD_Model], so that the [isinstance] test of
    the constructors holds.

    The dictionaries [default_satcen_parameters],
    [default_assembias_parameters] and [default_quenching_parameters] of the
    module [defaults], which is not part of the sources, are parameters. *)

Inductive value : Type :=
| Float (q : Q)
| Array (a : list Q).

Definition dictionary := list (string * value).

(** [d.items()] of a baseline dictionary; [dict(items)], in which a later
    item replaces an earlier one with the same key; and [d.get(k)]. *)
Definition items (d : dict) : list (string * value) :=
  map (fun kv => (fst kv, Float (snd kv))) d.

Fixpoint setitem (d : dictionary) (k : string) (v : value) : dictionary :=
  match d with
  | [] => [(k, v)]
  | (k', v') :: d' =>
      if String.eqb k' k then (k', v) :: d' else (k', v') :: setitem d' k v
  end.

Definition py_dict (its : list (string * value)) : dictionary :=
  fold_left (fun d kv => setitem d (fst kv) (snd kv)) its [].

Fixpoint get (d : dictionary) (k : string) : option value :=
  match d with
  | [] => None
  | (k', v) :: d' => if String.eqb k' k then Some v else get d' k
  end.

(** The attributes of an instance of one of the three classes:
    [self._baseline_hod_model], [self.publication], [self.parameter_dict],
    [self.threshold], [self.baseline_hod_parameter_dict] and
    [self.assembias_parameter_dict] (in [vdB03_Quenching_Model],
    [self.quenching_parameter_dict]). *)
Record Derived_Model : Type := {
  _baseline_hod_model : HOD_Model;
  self_publication : list string;
  self_parameter_dict : option dictionary;
  self_threshold : threshold_arg;
  baseline_hod_parameter_dict : option dict;
  model_parameter_dict : option dictionary
}.

Section Constructors.

Variable default_satcen_parameters : dictionary.
Variable default_assembias_parameters : dictionary.
Variable default_quenching_parameters : dictionary.

(** [require_correct_keys] of [Satcen_Correlation_Polynomial_HOD_Model] and
    of [Polynomial_Assembly_Biased_HOD_Model], which both compare with the
    keys of [default_satcen_parameters]. *)
Definition assembias_require_correct_keys
  (assembias_parameter_dict : dictionary) : result unit :=
  let correct_set_of_satcen_keys := map fst default_satcen_parameters in
  if negb (set_eqb (map fst assembias_parameter_dict)
             correct_set_of_satcen_keys)
  then Raise (TypeError
    "Set of keys of input assembias_parameter_dict does not match the set of keys required by the model. Correct set of keys is {'assembias_abcissa','satellite_assembias_ordinates', 'central_assembias_ordinates'}. ")
  else Ok tt.

Definition quenching_require_correct_keys
  (quenching_parameter_dict : dictionary) : result unit :=
  let correct_set_of_quenching_keys :=
    map fst default_quenching_parameters in
  if negb (set_eqb (map fst quenching_parameter_dict)
             correct_set_of_quenching_keys)
  then Raise (TypeError
    "Set of keys of input quenching_parameter_dict does not match the set of keys required by the model. Correct set of keys is {'quenching_abcissa','central_quenching_ordinates', 'satellite_quenching_ordinates'}. ")
  else Ok tt.

(** The last statement of the three constructors:
    [dict(self.baseline_hod_parameter_dict.items() + d.items())], which needs
    the baseline dictionary to be bound. *)
Definition join_parameters (baseline_hod_parameter_dict : option dict)
  (d : dictionary) : result dictionary :=
  match baseline_hod_parameter_dict with
  | None => Raise AttributeError
  | Some b => Ok (py_dict (items b ++ d))
  end.

(** [Satcen_Correlation_Polynomial_HOD_Model.__init__].  The result holds
    the instance and the warnings issued on the way. *)
Definition Satcen_Correlation_Polynomial_HOD_Model_init
  (baseline_hod_parameter_dict_arg : option dict) (threshold : threshold_arg)
  (assembias_parameter_dict : option dictionary)
  : result (Derived_Model * list string) :=
  baseline <- Zheng07_HOD_Model None threshold ;;
  let baseline_hod_model_instance := instance baseline in
  (* Assembly_Biased_HOD_Model.__init__ runs HOD_Model.__init__ *)
  let publication0 : list string := [] in
  let parameter_dict0 : option dictionary := None in
  let threshold0 := PyNone in
  let threshold0 := threshold in
  let publication0 :=
    publication0 ++ publication baseline_hod_model_instance in
  let baseline_dict := parameter_dict baseline_hod_model_instance in
  bound <-
    match assembias_parameter_dict with
    | None => Ok default_satcen_parameters
    | Some d => _ <- assembias_require_correct_keys d ;; Ok d
    end ;;
  joined <- join_parameters baseline_dict bound ;;
  Ok ({| _baseline_hod_model := baseline_hod_model_instance;
         self_publication := publication0;
         self_parameter_dict := Some joined;
         self_threshold := threshold0;
         baseline_hod_parameter_dict := baseline_dict;
         model_parameter_dict := Some bound |},
      warnings baseline).

(** [Polynomial_Assembly_Biased_HOD_Model.__init__], which also keeps the two
    keys of the secondary halo property. *)
Definition Polynomial_Assembly_Biased_HOD_Model_init
  (baseline_hod_parameter_dict_arg : option dict) (threshold : threshold_arg)
  (assembias_parameter_dict : option dictionary)
  (secondary_halo_property_centrals_key
     secondary_halo_property_satellites_key : string)
  : result (Derived_Model * (string * string) * list string) :=
  baseline <- Zheng07_HOD_Model None threshold ;;
  let baseline_hod_model_instance := instance baseline in
  let _secondary_halo_property_centrals_key :=
    secondary_halo_property_centrals_key in
  let _secondary_halo_property_satellites_key :=
    secondary_halo_property_satellites_key in
  (* Assembly_Biased_HOD_Model.__init__ runs HOD_Model.__init__ *)
  let publication0 : list string := [] in
  let parameter_dict0 : option dictionary := None in
  let threshold0 := PyNone in
  let threshold0 := threshold in
  let publication0 :=
    publication0 ++ publication baseline_hod_model_instance in
  let baseline_dict := parameter_dict baseline_hod_model_instance in
  bound <-
    match assembias_parameter_dict with
    | None => Ok default_assembias_parameters
    | Some d => _ <- assembias_require_correct_keys d ;; Ok d
    end ;;
  joined <- join_parameters baseline_dict bound ;;
  Ok ({| _baseline_hod_model := baseline_hod_model_instance;
         self_publication := publication0;
         self_parameter_dict := Some joined;
         self_threshold := threshold0;
         baseline_hod_parameter_dict := baseline_dict;
         model_parameter_dict := Some bound |},
      (_secondary_halo_property_centrals_key,
       _secondary_halo_property_satellites_key),
      warnings baseline).

(** [vdB03_Quenching_Model.__init__]: here [self.threshold] is bound before
    [HOD_Quenching_Model.__init__] runs [HOD_Model.__init__]. *)
Definition vdB03_Quenching_Model_init
  (baseline_hod_parameter_dict_arg : option dict) (threshold : threshold_arg)
  (quenching_parameter_dict : option dictionary)
  : result (Derived_Model * list string) :=
  baseline <- Zheng07_HOD_Model None threshold ;;
  let baseline_hod_model_instance := instance baseline in
  let baseline_dict := parameter_dict baseline_hod_model_instance in
  let threshold0 := threshold in
  (* HOD_Quenching_Model.__init__ runs HOD_Model.__init__ *)
  let publication0 : list string := [] in
  let parameter_dict0 : option dictionary := None in
  let threshold0 := PyNone in
  let publication0 :=
    publication0 ++ publication baseline_hod_model_instance in
  let publication0 := publication0 ++ ["arXiv:0210495v3"%string] in
  bound <-
    match quenching_parameter_dict with
    | None => Ok default_quenching_parameters
    | Some d => _ <- quenching_require_correct_keys d ;; Ok d
    end ;;
  joined <- join_parameters baseline_dict bound ;;
  Ok ({| _baseline_hod_model := baseline_hod_model_instance;
         self_publication := publication0;
         self_parameter_dict := Some joined;
         self_threshold := threshold0;
         baseline_hod_parameter_dict := baseline_dict;
         model_parameter_dict := Some bound |},
      warnings baseline).

End Constructors.

(** ** Definitions used by the statements

    What follows is not part of the module: closed forms, intermediate values
    of the functions above under a name, and the concrete inputs on which the
    theorems are instantiated. *)

(** [p[idx]] when every index is in range. *)
Definition gather {A : Type} (d : A) (p : list A) (idx : list nat) : list A :=
  map (fun i => nth i p d) idx.

(** The ceiling of [maximum_destruction_centrals] for a halo with type
    fraction [F] and baseline occupation [N]; that of
    [maximum_destruction_satellites]; the clamp of an unconstrained value [u]
    under a ceiling [mx]; and the type-0 value derived from a type-1 value
    [d1]. *)
Definition ceiling_centrals (F N : Q) : Q :=
  let case1 := if Qlt_bool 0 F then 1 / F else 0 in
  let case2 := if Qlt_bool 0 N then 1 / N else 0 in
  if Qlt_bool case2 case1 then case2 else case1.

Definition ceiling_satellites (F : Q) : Q :=
  if Qlt_bool 0 F then 1 / F else 0.

Definition clamp_type1 (u mx F : Q) : Q :=
  let d := if Qlt_bool u 0 then 0 else u in
  let d := if Qlt_bool mx d then mx else d in
  if Qeq_bool F 1 then 1 else d.

Definition type0_value (d1 F : Q) : Q :=
  let d := if Qlt_bool 0 (1 - F) then (1 - d1 * F) / (1 - F) else d1 in
  if Qeq_bool (1 - F) 0 then 0 else d.

(** The type-1 destruction value of one halo with primary property [x]. *)
Definition D1_centrals (self : Assembly_Biased_HOD_Model) (x : Q) : Q :=
  clamp_type1 (unconstrained_central_destruction_halo_type1 self x)
    (ceiling_centrals (halo_type1_fraction_centrals self x)
       (baseline_mean_ncen self x 1))
    (halo_type1_fraction_centrals self x).
Definition D1_satellites (self : Assembly_Biased_HOD_Model) (x : Q) : Q :=
  clamp_type1 (unconstrained_satellite_destruction_halo_type1 self x)
    (ceiling_satellites (halo_type1_fraction_satellites self x))
    (halo_type1_fraction_satellites self x).

(** A concrete assembly-biased model, on which the theorems below are
    instantiated: type fractions [p / 2] on primary properties in [[0, 2]],
    a baseline central occupation [p / 4] and satellite occupation [p]. *)
Definition example_model : Assembly_Biased_HOD_Model :=
  {| baseline_mean_ncen := fun p _ => p / 4;
     baseline_mean_nsat := fun p _ => p;
     unconstrained_central_destruction_halo_type1 := fun p => 5 - p;
     unconstrained_satellite_destruction_halo_type1 := fun p => p - 1;
     halo_type1_fraction_centrals := fun p => p / 2;
     halo_type1_fraction_satellites := fun p => p / 2 |}.

(** The thresholds of Table 1, in the order of the parameter arrays, and the
    dictionary built from row [k] of the table. *)
Definition published_thresholds : list Q :=
  [-18; -18.5; -19; -19.5; -20; -20.5; -21; -21.5; -22].

Definition table_row (k : nat) : dict :=
  [("logMmin_cen", nth k logMmin_cen_array 0);
   ("sigma_logM", nth k sigma_logM_array 0);
   ("logM0_sat", nth k logM0_array 0);
   ("logM1_sat", nth k logM1_array 0);
   ("alpha_sat", nth k alpha_sat_array 0);
   ("fconc", 1.0)]%string.

Definition with_threshold (s : state) (t : Q) : state :=
  {| instance := {| publication := publication (instance s);
                    parameter_dict := parameter_dict (instance s);
                    threshold := Some t |};
     warnings := warnings s |}.

Definition with_warning (s : state) (msg : string) : state :=
  {| instance := instance s; warnings := warnings s ++ [msg] |}.

(** The instance as [Zheng07_HOD_Model.__init__] leaves it on entry to
    [require_correct_keys] when a dictionary was supplied: the dictionary is
    not among its attributes. *)
Definition before_key_check (s : state) : state :=
  {| instance := {| publication := ["arXiv:0703457"%string];
                    parameter_dict := None;
                    threshold := None |};
     warnings := warnings s |}.

(** The row of the table a construction without dictionary asks for: row 3
    (threshold -19.5) when no threshold is given, the row of the threshold
    otherwise. *)
Definition requested_row (thr : threshold_arg) (k : nat) : Prop :=
  (thr = PyNone /\ k = 3%nat) \/
  (exists q, thr = PyNumber q /\ (k < 9)%nat /\
             q == nth k published_thresholds 0).

(** The midpoint of bin [b]: its left edge plus half its width. *)
Definition bin_midpoint (bins : array) (b : nat) : Q :=
  nth b bins 0 + (nth (S b) bins 0 - nth b bins 0) / 2.

Section Bins.

Variable secondary_halo_property : array.
Variable bin_splitting_fraction : array.
Variable array_of_bin_indices : list Z.

(** The halos of bin [b], by position in the catalog; the order in which
    [np_argsort] ranks them by secondary property; the number of them that
    the bin assigns to type 0; and the ranked members it picks. *)
Definition members (b : Z) : list nat :=
  np_where (map (Z.eqb b) array_of_bin_indices).

Definition bin_order (b : Z) : list nat :=
  np_argsort (gather 0 secondary_halo_property (members b)).

Definition bin_splitting_index (b : Z) : Z :=
  py_round (inject_Z (Z.of_nat (length (bin_order b)))
            * nth (Z.to_nat b) bin_splitting_fraction 0).

Definition bin_type0 (b : Z) : list nat :=
  py_slice_to (bin_order b) (bin_splitting_index b).

(** The halo types [T] follow the split of bin [b]. *)
Definition bin_is_split (T : array) (b : Z) : Prop :=
  forall r, (r < length (members b))%nat ->
    nth (nth r (members b) 0%nat) T 0
    = if existsb (Nat.eqb r) (bin_type0 b) then 0 else 1.

End Bins.

(** The bin edges [primary_halo_property_bins] that [halo_type_calculator]
    computes from the catalog. *)
Definition bin_edges (default_bin_max_epsilon : Q)
  (primary_halo_property : array) (bin_spacing : Q) : result array :=
  minimum <- array_min primary_halo_property ;;
  maximum0 <- array_max primary_halo_property ;;
  let maximum := maximum0 + default_bin_max_epsilon in
  np_linspace minimum maximum (py_round ((maximum - minimum) / bin_spacing)).

(** A concrete catalog: eight halos in two bins of edges 10, 10.5005 and
    11.001. *)
Definition example_primary : array :=
  [10; 10.6; 11; 10.2; 10.7; 10.9; 10.1; 10.3].
Definition example_secondary : array := [5; 4; 3; 2; 1; 0; 7; 8].
Definition example_bins : array :=
  [20000 # 2000; 21001 # 2000; 22002 # 2000].
Definition example_fraction (_ : Q) : Q := 0.3.

(** The type fraction of a halo with primary property [x] and label [t],
    given the type-1 fraction function [F]; and the floor of
    [minimum_destruction_centrals] for a halo with type fraction [F] and
    baseline occupation [N]. *)
Definition labelled_fraction (F : Q -> Q) (x t : Q) : Q :=
  if Qeq_bool t 0 then 1 - F x else F x.

Definition floor_centrals (F N : Q) : Q :=
  let v :=
    if Qlt_bool 0 F && Qlt_bool 0 N then (1 - (1 - F) / N) / F else 0 in
  if Qlt_bool v 0 then 0 else v.

(** The halo types as the destruction functions read them on a catalog of
    [n] halos: the labels of the halos, with type 1 for the halos that the
    label array does not reach. *)
Definition pad_labels (n : nat) (halo_type : array) : array :=
  firstn n halo_type ++ ones (n - length halo_type).

(** A second concrete model: half of the halos of type 1, every halo with a
    central galaxy in the baseline, and an unconstrained destruction of 0. *)
Definition example_model_no_floor : Assembly_Biased_HOD_Model :=
  {| baseline_mean_ncen := fun _ _ => 1;
     baseline_mean_nsat := fun p _ => p;
     unconstrained_central_destruction_halo_type1 := fun _ => 0;
     unconstrained_satellite_destruction_halo_type1 := fun _ => 0;
     halo_type1_fraction_centrals := fun _ => 1 # 2;
     halo_type1_fraction_satellites := fun _ => 1 # 2 |}.

(** A baseline with central occupation [p / 4] and satellite occupation [p],
    under [Satcen_Correlation_Polynomial_HOD_Model]. *)
Definition example_satcen_model : Assembly_Biased_HOD_Model :=
  Satcen_Correlation_Polynomial_HOD_Model
    (fun p _ => p / 4) (fun p _ => p) (fun p => 5 - p) (fun p => p - 1).

(** The warnings that the construction of the baseline model issues: one when
    no threshold is given. *)
Definition construction_warnings (thr : threshold_arg) : list string :=
  match thr with
  | PyNone => ["HOD threshold unspecified: setting to -19.5"%string]
  | _ => []
  end.

(** A supplied dictionary [d] passes the key check against the dictionary
    [correct]; no dictionary is supplied, or the supplied one passes; and the
    dictionary that the constructor binds. *)
Definition same_keys (d correct : dictionary) : bool :=
  set_eqb (map fst d) (map fst correct).

Definition accepted (supplied : option dictionary) (correct : dictionary)
  : Prop :=
  match supplied with
  | None => True
  | Some d => same_keys d correct = true
  end.

Definition bound_dictionary (supplied : option dictionary)
  (default : dictionary) : dictionary :=
  match supplied with
  | None => default
  | Some d => d
  end.

(** The parameter dictionary of the instance [m] joins row [k] of the table
    with the dictionary [bound], whose entries come first. *)
Definition joins (m : Derived_Model) (k : nat) (bound : dictionary) : Prop :=
  exists joined,
    self_parameter_dict m = Some joined /\
    forall key,
      get joined key =
        match get bound key with
        | Some v => Some v
        | None => get (items (table_row k)) key
        end.

(** Dictionaries for the examples. *)
Definition example_quenching_parameters : dictionary :=
  [("quenching_abcissa", Array [12; 15]);
   ("central_quenching_ordinates", Array [0.25; 0.9]);
   ("satellite_quenching_ordinates", Array [0.5; 0.9])]%string.

Definition example_satcen_parameters : dictionary :=
  [("assembias_abcissa", Array [12; 15]);
   ("satellite_assembias_ordinates", Array [1.5; 1.25]);
   ("central_assembias_ordinates", Array [1; 1])]%string.

Definition example_supplied_parameters : dictionary :=
  [("central_assembias_ordinates", Array [2; 2]);
   ("assembias_abcissa", Array [12; 14]);
   ("satellite_assembias_ordinates", Array [0.5; 1])]%string.

(** A third concrete model, whose unconstrained destruction functions are
    identically 1. *)
Definition example_model_unit : Assembly_Biased_HOD_Model :=
  {| baseline_mean_ncen := fun p _ => p / 4;
     baseline_mean_nsat := fun p _ => p;
     unconstrained_central_destruction_halo_type1 := fun _ => 1;
     unconstrained_satellite_destruction_halo_type1 := fun _ => 1;
     halo_type1_fraction_centrals := fun p => p / 2;
     halo_type1_fraction_satellites := fun p => p / 2 |}.

(** A catalog of two halos with the same primary property. *)
Definition example_two_halos : array := [1; 1].

(** ** solve_for_polynomial_coefficients

    The solver is stated over an arbitrary field [F], with MathComp's
    matrices.  [numpy.linalg.solve(a, b)] is LAPACK's [gesv]: it returns the
    solution of [a x = b] and raises [LinAlgError] when [a] is singular; it
    raises [ValueError] when [b] has not as many entries as [a] has rows. *)

Module PolynomialFit.

Import mathcomp.boot.boot mathcomp.algebra.algebra.
Import GRing.Theory.
Local Open Scope ring_scope.

Section Solver.

Variable F : fieldType.

(** [columns.reshape(n, n)]: the flat array read row by row. *)
Definition reshape (n : nat) (columns : seq F) : 'M[F]_n :=
  \matrix_(r < n, c < n) nth 0 columns (r * n + c).

(** [np.linalg.solve(a, b)]. *)
Definition linalg_solve {n : nat} (a : 'M[F]_n) (b : seq F)
  : result (seq F) :=
  if size b != n then Raise ValueError
  else if a \in unitmx then
    let x := invmx a *m (\col_(j < n) nth 0 b j) in
    Ok [seq x j 0 | j <- enum 'I_n]
  else Raise LinAlgError.

Definition solve_for_polynomial_coefficients (abcissa ordinates : seq F)
  : result (seq F) :=
  let ones := nseq (size abcissa) 1 in
  let columns :=
    foldl (fun columns i => columns ++ [seq x ^+ (i + 1) | x <- abcissa])
      ones (iota 0 (size abcissa - 1)) in
  let quenching_model_matrix :=
    (reshape (size abcissa) columns)^T in
  linalg_solve quenching_model_matrix ordinates.

End Solver.

Arguments reshape {F} n columns.
Arguments linalg_solve {F n} a b.
Arguments solve_for_polynomial_coefficients {F} abcissa ordinates.

(** The line through (12, 1/4) and (15, 9/10), the example of the
    docstring, over the rationals. *)
Definition example_abcissa : seq rat := [:: 12%:Q; 15%:Q].
Definition example_ordinates : seq rat := [:: 1%:Q / 4%:Q; 9%:Q / 10%:Q].

End PolynomialFit.

Module PolynomialModels.

Import mathcomp.boot.boot mathcomp.order.order mathcomp.algebra.algebra.
Import GRing.Theory Num.Theory Order.TTheory.
Import PolynomialFit.
Local Open Scope ring_scope.

(** ** The polynomial models

    [Satcen_Correlation_Polynomial_HOD_Model] and
    [Polynomial_Assembly_Biased_HOD_Model] share the text of
    [unconstrained_polynomial_model]: the polynomial through the given points,
    evaluated at every halo.  The loop over [enumerate(coefficient_array)]
    adds [coeff * primary_halo_property ** n] to the output array, element by
    element. *)

Section PolynomialModel.

Variable F : fieldType.

Definition add_term (output primary_halo_property : seq F) (n : nat)
  (coeff : F) : seq F :=
  [seq ox.1 + coeff * ox.2 ^+ n | ox <- zip output primary_halo_property].

Definition unconstrained_polynomial_model
  (abcissa ordinates primary_halo_property : seq F) : result (seq F) :=
  match solve_for_polynomial_coefficients abcissa ordinates with
  | Ok coefficient_array =>
      let output_unconstrained_destruction_function :=
        nseq (size primary_halo_property) 0 in
      Ok (foldl
            (fun output n_coeff =>
               add_term output primary_halo_property n_coeff.1 n_coeff.2)
            output_unconstrained_destruction_function
            (zip (iota 0 (size coefficient_array)) coefficient_array))
  | Raise e => Raise e
  end.

End PolynomialModel.

Arguments add_term {F} output primary_halo_property n coeff.
Arguments unconstrained_polynomial_model {F} abcissa ordinates
  primary_halo_property.

(** [vdB03_Quenching_Model.quenching_polynomial_model] evaluates the same
    polynomial and then sets the negative values to 0 and the values above 1
    to 1, with two boolean masks.  The comparisons ask for an ordered
    field. *)

Section Clipped.

Variable F : realFieldType.

Definition quenching_polynomial_model
  (abcissa ordinates primary_halo_property : seq F) : result (seq F) :=
  match solve_for_polynomial_coefficients abcissa ordinates with
  | Ok coefficient_array =>
      let output_quenched_fractions :=
        nseq (size primary_halo_property) 0 in
      let output_quenched_fractions :=
        foldl
          (fun output n_coeff =>
             add_term output primary_halo_property n_coeff.1 n_coeff.2)
          output_quenched_fractions
          (zip (iota 0 (size coefficient_array)) coefficient_array) in
      let test_negative := [seq y < 0 | y <- output_quenched_fractions] in
      let output_quenched_fractions :=
        putmask_scalar output_quenched_fractions test_negative 0 in
      let test_exceeds_unity :=
        [seq y > 1 | y <- output_quenched_fractions] in
      let output_quenched_fractions :=
        putmask_scalar output_quenched_fractions test_exceeds_unity 1 in
      Ok output_quenched_fractions
  | Raise e => Raise e
  end.

End Clipped.

Arguments quenching_polynomial_model {F} abcissa ordinates
  primary_halo_property.

(** [Polynomial_Assembly_Biased_HOD_Model]: the type-1 fractions of centrals
    and of satellites are the polynomial through the points of
    [defaults.default_halo_type_split], clipped to [[0, 1]].  The module
    [defaults] is not part of the sources: the two arrays of its dictionary
    are parameters. *)

Module Polynomial_Assembly_Biased_HOD_Model.

Section Fractions.

Variable F : realFieldType.
Variable halo_type_split_abcissa halo_type_split_ordinates : seq F.

Definition halo_type1_fraction_centrals (primary_halo_property : seq F)
  : result (seq F) :=
  let abcissa := halo_type_split_abcissa in
  let ordinates := halo_type_split_ordinates in
  match unconstrained_polynomial_model abcissa ordinates
          primary_halo_property with
  | Ok output_fraction =>
      let test_negative := [seq y < 0 | y <- output_fraction] in
      let output_fraction := putmask_scalar output_fraction test_negative 0 in
      let test_exceeds_unity := [seq y > 1 | y <- output_fraction] in
      let output_fraction :=
        putmask_scalar output_fraction test_exceeds_unity 1 in
      Ok output_fraction
  | Raise e => Raise e
  end.

Definition halo_type1_fraction_satellites (primary_halo_property : seq F)
  : result (seq F) :=
  let abcissa := halo_type_split_abcissa in
  let ordinates := halo_type_split_ordinates in
  match unconstrained_polynomial_model abcissa ordinates
          primary_halo_property with
  | Ok output_fraction =>
      let test_negative := [seq y < 0 | y <- output_fraction] in
      let output_fraction := putmask_scalar output_fraction test_negative 0 in
      let test_exceeds_unity := [seq y > 1 | y <- output_fraction] in
      let output_fraction :=
        putmask_scalar output_fraction test_exceeds_unity 1 in
      Ok output_fraction
  | Raise e => Raise e
  end.

End Fractions.

Arguments halo_type1_fraction_centrals {F} halo_type_split_abcissa
  halo_type_split_ordinates primary_halo_property.
Arguments halo_type1_fraction_satellites {F} halo_type_split_abcissa
  halo_type_split_ordinates primary_halo_property.

End Polynomial_Assembly_Biased_HOD_Model.

(** A catalog on which the models are evaluated, and the clip of a value to
    [[0, 1]] that the two masks compute. *)
Definition example_catalog : seq rat := [:: 11%:Q; 12%:Q; 15%:Q; 16%:Q].

(** The line through the two points of [example_abcissa] and
    [example_ordinates]: [13/60 * x - 47/20]. *)
Definition example_line : {poly rat} :=
  Poly [:: - (47%:Q / 20%:Q); 13%:Q / 60%:Q].

(** Two points with the same abcissa. *)
Definition repeated_abcissa : seq rat := [:: 12%:Q; 12%:Q].

Definition clip {F : realFieldType} (y : F) : F :=
  let y := if y < 0 then 0 else y in
  if y > 1 then 1 else y.

End PolynomialModels.

(** ** Functions of real numbers

    [anatoly_concentration], [cumulative_NFW_PDF] and the occupation
    functions of [Zheng07_HOD_Model] take powers and logarithms.  For them
    floating-point numbers are read as real numbers: [10.**x] and [x**a] on a
    positive base are [Rpower], [np.log] is [ln].  numpy returns [nan] or an
    infinity, with a warning, where the real function is not defined ([np.log]
    of a number that is not positive, a division by zero); the statements
    below keep away from these arguments by their hypotheses.

    [scipy.special.erf] is a function of the library, not of the module: the
    occupation functions take it as a parameter. *)

Module RealValued.

Import Reals Lra Qreals.
Local Open Scope R_scope.

(** A comparison of two floats as a boolean of a mask. *)
Definition Rlt_bool (x y : R) : bool :=
  if Rlt_dec x y then true else false.

(** An arithmetic operation between two arrays: element by element when the
    lengths agree; an array of one element is stretched to the length of the
    other; any other pair of lengths raises [ValueError]. *)
Definition broadcast (f : R -> R -> R) (a b : list R) : result (list R) :=
  if (length a =? length b)%nat then Ok (map2 f a b)
  else if (length b =? 1)%nat then Ok (map (fun x => f x (hd 0 b)) a)
  else if (length a =? 1)%nat then Ok (map (fun y => f (hd 0 a) y) b)
  else Raise ValueError.

Definition anatoly_concentration (logM : list R) : list R :=
  let masses :=
    map2 Rplus (repeat 0 (length logM)) (map (Rpower 10) logM) in
  let c0 := 9.6 in
  let Mpiv := 1e12 in
  let a := -0.075 in
  let concentrations := map (fun m => c0 * Rpower (m / Mpiv) a) masses in
  concentrations.

Definition cumulative_NFW_PDF (x c : list R) : result (list R) :=
  let norm :=
    map2 Rminus (map ln (map (Rplus 1) c)) (map2 Rdiv c (map (Rplus 1) c)) in
  xc <- broadcast Rmult x c ;;
  let F_numerator :=
    map2 Rminus (map ln (map (Rplus 1) xc))
      (map2 Rdiv xc (map (Rplus 1) xc)) in
  broadcast Rdiv F_numerator norm.

(** *** The occupation functions of Zheng07_HOD_Model

    A subscript [self.parameter_dict[k]] raises [KeyError] when the key is
    missing, an exception that the constructors never raise and that [exn]
    does not list; on [None] it raises [TypeError]. *)

Inductive exception : Type :=
| Builtin (e : exn)
| KeyError (k : string).

Inductive outcome (A : Type) : Type :=
| Return (a : A)
| Throw (e : exception).
Arguments Return {A} a.
Arguments Throw {A} e.

Definition and_then {A B : Type} (r : outcome A) (k : A -> outcome B)
  : outcome B :=
  match r with
  | Return a => k a
  | Throw e => Throw e
  end.

Notation "x <== c ;; k" := (and_then c (fun x => k))
  (at level 61, c at next level, right associativity).

Definition getitem (parameter_dict : option dict) (k : string) : outcome R :=
  match parameter_dict with
  | None =>
      Throw (Builtin
        (TypeError "'NoneType' object has no attribute '__getitem__'"))
  | Some d =>
      match find (fun kv => String.eqb (fst kv) k) d with
      | Some kv => Return (Q2R (snd kv))
      | None => Throw (KeyError k)
      end
  end.

(** [a[mask]] for a mask computed from another array. *)
Definition masked {A : Type} (m : list bool) (a : list A)
  : outcome (list A) :=
  match compress_checked m a with
  | Ok r => Return r
  | Raise e => Throw (Builtin e)
  end.

Section Zheng07_occupation.

Variable erf : R -> R.
Variable self : HOD_Model.

Definition mean_ncen (logM halo_type : list R) : outcome (list R) :=
  logMmin_cen <== getitem (parameter_dict self) "logMmin_cen" ;;
  sigma_logM <== getitem (parameter_dict self) "sigma_logM" ;;
  let mean_ncen :=
    map (fun x => 0.5 * (1.0 + erf ((x - logMmin_cen) / sigma_logM)))
      logM in
  Return mean_ncen.

Definition mean_nsat (logM halo_type : list R) : outcome (list R) :=
  let halo_mass := map (Rpower 10) logM in
  logM0_sat <== getitem (parameter_dict self) "logM0_sat" ;;
  let M0 := Rpower 10 logM0_sat in
  logM1_sat <== getitem (parameter_dict self) "logM1_sat" ;;
  let M1 := Rpower 10 logM1_sat in
  let mean_nsat := repeat 0 (length logM) in
  let idx_nonzero_satellites :=
    map (fun m => Rlt_bool 0 (m - M0)) halo_mass in
  halo_type_nonzero <== masked idx_nonzero_satellites halo_type ;;
  ncen <== mean_ncen (compress idx_nonzero_satellites logM)
             halo_type_nonzero ;;
  alpha_sat <== getitem (parameter_dict self) "alpha_sat" ;;
  Return
    (putmask mean_nsat idx_nonzero_satellites
       (map2 Rmult ncen
          (map (fun m => Rpower ((m - M0) / M1) alpha_sat)
             (compress idx_nonzero_satellites halo_mass)))).

Definition mean_concentration (logM halo_type : list R) : list R :=
  let concentrations := anatoly_concentration logM in
  concentrations.

End Zheng07_occupation.

(** *** Definitions used by the statements *)

(** The profile integral [ln (1 + t) - t / (1 + t)], of which
    [cumulative_NFW_PDF] returns the ratio at [x * c] and at [c]. *)
Definition nfw_mass (t : R) : R := ln (1 + t) - t / (1 + t).

(** The concentration that goes with radius [i]: the only one when the array
    has one element, the one at the same position otherwise. *)
Definition concentration_of (c : list R) (i : nat) : R :=
  if (length c =? 1)%nat then hd 0 c else nth i c 0.

(** An instance with the parameters of row [k] of the table, as the
    constructor leaves it. *)
Definition published_instance (k : nat) : HOD_Model :=
  {| publication := ["arXiv:0703457"%string];
     parameter_dict := Some (table_row k);
     threshold := Some (-20)%Q |}.

(** Radii on which the profile is evaluated. *)
Definition example_radii : list R := [0; 0.5; 1].

(** A stand-in for the error function on which the statements about the
    occupation functions are instantiated: odd, increasing, with values in
    (-1, 1). *)
Definition example_erf (x : R) : R := x / (1 + Rabs x).

End RealValued.


(** * Proofs *)

(** ** Comparisons *)

Lemma Qlt_bool_iff (x y : Q) : Qlt_bool x y = true <-> x < y.
Proof.
  unfold Qlt_bool. rewrite negb_true_iff. split.
  - intros H. apply Qnot_le_lt. intros L.
    apply Qle_bool_iff in L. congruence.
  - intros H. destruct (Qle_bool y x) eqn:E; [|reflexivity].
    apply Qle_bool_iff in E. lra.
Qed.

Lemma Qlt_bool_false_iff (x y : Q) : Qlt_bool x y = false <-> y <= x.
Proof.
  unfold Qlt_bool. rewrite negb_false_iff. apply Qle_bool_iff.
Qed.

Lemma Qeq_bool_false_iff (x y : Q) : Qeq_bool x y = false <-> ~ x == y.
Proof.
  split.
  - apply Qeq_bool_neq.
  - intros H. destruct (Qeq_bool x y) eqn:E; [|reflexivity].
    apply Qeq_bool_iff in E. contradiction.
Qed.

(** Case analysis on the tests of the code, leaving the facts they decide. *)
Ltac no_test t :=
  lazymatch t with
  | context [Qlt_bool _ _] => fail
  | context [Qeq_bool _ _] => fail
  | _ => idtac
  end.

Ltac case_tests :=
  repeat match goal with
  | |- context [Qlt_bool ?x ?y] =>
      no_test x; no_test y;
      let E := fresh "E" in
      destruct (Qlt_bool x y) eqn:E;
      [apply Qlt_bool_iff in E | apply Qlt_bool_false_iff in E]
  | |- context [Qeq_bool ?x ?y] =>
      no_test x; no_test y;
      let E := fresh "E" in
      destruct (Qeq_bool x y) eqn:E;
      [apply Qeq_bool_iff in E | apply Qeq_bool_false_iff in E]
  end.

(** ** Arrays computed from one array, element by element *)

Lemma zeros_map {A : Type} (p : list A) : zeros (length p) = map (fun _ => 0) p.
Proof.
  unfold zeros. induction p; simpl; [reflexivity | f_equal; exact IHp].
Qed.

Lemma ones_map {A : Type} (p : list A) : ones (length p) = map (fun _ => 1) p.
Proof. unfold ones. induction p; simpl; [reflexivity | f_equal; exact IHp]. Qed.

Lemma map2_map {A B C D : Type} (f : B -> C -> D) (a : A -> B) (b : A -> C)
  (p : list A) :
  map2 f (map a p) (map b p) = map (fun x => f (a x) (b x)) p.
Proof.
  unfold map2. induction p; simpl; [reflexivity | f_equal; exact IHp].
Qed.

Lemma map2_map_l {A B C : Type} (f : A -> B -> C) (b : A -> B) (p : list A) :
  map2 f p (map b p) = map (fun x => f x (b x)) p.
Proof.
  unfold map2. induction p; simpl; [reflexivity | f_equal; exact IHp].
Qed.

Lemma compress_map {A B : Type} (m : A -> bool) (a : A -> B) (p : list A) :
  compress (map m p) (map a p) = map a (filter m p).
Proof.
  induction p as [|x p IH]; simpl; [reflexivity|].
  destruct (m x); simpl; rewrite IH; reflexivity.
Qed.

Lemma putmask_map {A B : Type} (m : A -> bool) (a h : A -> B) (p : list A) :
  putmask (map a p) (map m p) (map h (filter m p))
  = map (fun x => if m x then h x else a x) p.
Proof.
  induction p as [|x p IH]; simpl; [reflexivity|].
  destruct (m x); simpl; rewrite IH; reflexivity.
Qed.

Lemma putmask_scalar_map {A B : Type} (m : A -> bool) (a : A -> B) (c : B)
  (p : list A) :
  putmask_scalar (map a p) (map m p) c
  = map (fun x => if m x then c else a x) p.
Proof.
  induction p as [|x p IH]; simpl; [reflexivity | rewrite IH; reflexivity].
Qed.

(** Every array operation of the destruction functions, pushed down to one
    [map] over the primary property. *)
Ltac to_map :=
  unfold gt_scalar, lt_scalar, eq_scalar, gt_arrays, lt_arrays, one_minus,
    reciprocal;
  repeat first
    [ rewrite zeros_map
    | rewrite ones_map
    | rewrite map_map
    | rewrite map2_map
    | rewrite map2_map_l
    | rewrite compress_map
    | rewrite putmask_map
    | rewrite putmask_scalar_map ].

(** ** Index arrays *)

Lemma where_from_none (k : nat) (m : list bool) :
  Forall (fun b => b = false) m -> where_from k m = [].
Proof.
  intros H. revert k. induction H as [|b m Hb _ IH]; intros k; simpl.
  - reflexivity.
  - subst b. apply IH.
Qed.

Lemma np_where_all_ones (n : nat) : np_where (eq_scalar (ones n) 0) = [].
Proof.
  apply where_from_none. unfold eq_scalar, ones.
  apply Forall_forall. intros b Hb. apply in_map_iff in Hb.
  destruct Hb as [x [<- Hx]]. apply repeat_spec in Hx. subst x. reflexivity.
Qed.

Lemma where_from_In (k i : nat) (m : list bool) :
  In i (where_from k m) <-> (k <= i)%nat /\ nth (i - k) m false = true.
Proof.
  revert k. induction m as [|b m IH]; intros k; simpl.
  - split; [tauto|]. intros [_ H]. destruct (i - k)%nat; discriminate.
  - assert (Hs : In i (where_from (S k) m) <->
                 (k <= i)%nat /\ i <> k /\ nth (i - S k) m false = true).
    { rewrite IH. split; intros H; repeat split; try lia; apply H. }
    destruct b; simpl; rewrite Hs; clear Hs IH.
    + split.
      * intros [<- | [H1 [H2 H3]]].
        -- split; [lia|]. replace (k - k)%nat with 0%nat by lia. reflexivity.
        -- split; [assumption|].
           replace (i - k)%nat with (S (i - S k)) by lia. exact H3.
      * intros [H1 H2]. destruct (Nat.eq_dec k i) as [->|Hne]; [now left|].
        right. repeat split; try lia.
        replace (i - k)%nat with (S (i - S k)) in H2 by lia. exact H2.
    + split.
      * intros [H1 [H2 H3]]. split; [assumption|].
        replace (i - k)%nat with (S (i - S k)) by lia. exact H3.
      * intros [H1 H2].
        assert (i <> k).
        { intros ->. replace (k - k)%nat with 0%nat in H2 by lia.
          discriminate. }
        repeat split; try lia.
        replace (i - k)%nat with (S (i - S k)) in H2 by lia. exact H2.
Qed.

Lemma np_where_In (i : nat) (m : list bool) :
  In i (np_where m) <-> nth i m false = true.
Proof.
  unfold np_where. rewrite where_from_In, Nat.sub_0_r.
  split; [tauto | intros H; split; [lia | exact H]].
Qed.

Lemma np_where_bound (m : list bool) :
  Forall (fun i => (i < length m)%nat) (np_where m).
Proof.
  apply Forall_forall. intros i Hi. apply np_where_In in Hi.
  destruct (Nat.lt_ge_cases i (length m)) as [H|H]; [exact H|].
  rewrite nth_overflow in Hi by exact H. discriminate.
Qed.

Lemma take_map {A B : Type} (d : A) (g : A -> B) (p : list A)
  (idx : list nat) :
  Forall (fun i => (i < length p)%nat) idx ->
  take (map g p) idx = Ok (map g (gather d p idx)).
Proof.
  induction 1 as [|i idx Hi _ IH]; simpl; [reflexivity|].
  rewrite IH. rewrite nth_error_map.
  rewrite (nth_error_nth' p d Hi). reflexivity.
Qed.

Lemma take_gather {A : Type} (d : A) (p : list A) (idx : list nat) :
  Forall (fun i => (i < length p)%nat) idx ->
  take p idx = Ok (gather d p idx).
Proof.
  intros H. rewrite <- (map_id p) at 1. rewrite (take_map d) by exact H.
  rewrite map_id. reflexivity.
Qed.

Lemma length_set_item {A : Type} (a : list A) (i : nat) (x : A) :
  length (set_item a i x) = length a.
Proof.
  revert i. induction a as [|y a IH]; intros [|i]; simpl; auto.
Qed.

Lemma nth_set_item {A : Type} (a : list A) (i j : nat) (x d : A) :
  (i < length a)%nat ->
  nth j (set_item a i x) d = if (j =? i)%nat then x else nth j a d.
Proof.
  revert i j. induction a as [|y a IH]; intros i j Hi; simpl in Hi; [lia|].
  destruct i as [|i], j as [|j]; simpl; try reflexivity.
  apply IH. lia.
Qed.

(** [a[idx] = v] when the value written at an index depends on the index
    alone. *)
Lemma put_map_idx {A : Type} (h : nat -> A) (idx : list nat) (a : list A) :
  Forall (fun i => (i < length a)%nat) idx ->
  exists r, put a idx (map h idx) = Ok r /\ length r = length a /\
    forall i d, nth i r d = if existsb (Nat.eqb i) idx then h i else nth i a d.
Proof.
  intros H. revert a H. induction idx as [|i0 idx IH]; intros a H; simpl.
  - exists a. auto.
  - inversion H as [|? ? Hi0 Hidx]; subst.
    apply Nat.ltb_lt in Hi0 as Hb. rewrite Hb.
    destruct (IH (set_item a i0 (h i0))) as [r [Hr [Hlen Hnth]]].
    { rewrite length_set_item. exact Hidx. }
    exists r. split; [exact Hr|]. split.
    { rewrite Hlen. apply length_set_item. }
    intros i d. rewrite Hnth. rewrite nth_set_item by exact Hi0.
    destruct (existsb (Nat.eqb i) idx); [rewrite orb_true_r; reflexivity|].
    rewrite orb_false_r.
    destruct (Nat.eqb_spec i i0) as [->|]; reflexivity.
Qed.

Lemma existsb_np_where (i : nat) (m : list bool) :
  existsb (Nat.eqb i) (np_where m) = nth i m false.
Proof.
  destruct (nth i m false) eqn:E.
  - apply existsb_exists. exists i. split; [|apply Nat.eqb_refl].
    apply np_where_In. exact E.
  - destruct (existsb (Nat.eqb i) (np_where m)) eqn:E'; [|reflexivity].
    apply existsb_exists in E'. destruct E' as [j [Hj Hij]].
    apply Nat.eqb_eq in Hij. subst j. apply np_where_In in Hj. congruence.
Qed.

Lemma nth_map_in_range {A B : Type} (f : A -> B) (l : list A) (i : nat)
  (d : A) (d' : B) :
  (i < length l)%nat -> nth i (map f l) d' = f (nth i l d).
Proof.
  intros H. rewrite (nth_indep _ d' (f d)) by (rewrite length_map; exact H).
  apply map_nth.
Qed.

(** ** The destruction functions, one halo at a time *)

Section Engine.

Variable self : Assembly_Biased_HOD_Model.

Let F1c := halo_type1_fraction_centrals self.
Let F1s := halo_type1_fraction_satellites self.
Let Ncen := baseline_mean_ncen self.
Let Ucen := unconstrained_central_destruction_halo_type1 self.
Let Usat := unconstrained_satellite_destruction_halo_type1 self.

Lemma halo_type_fraction_centrals_all_ones (p : array) :
  halo_type_fraction_centrals self p (ones (length p)) = Ok (map F1c p).
Proof.
  unfold halo_type_fraction_centrals.
  rewrite np_where_all_ones. reflexivity.
Qed.

Lemma halo_type_fraction_satellites_all_ones (p : array) :
  halo_type_fraction_satellites self p (ones (length p)) = Ok (map F1s p).
Proof.
  unfold halo_type_fraction_satellites.
  rewrite np_where_all_ones. reflexivity.
Qed.

Lemma maximum_destruction_centrals_all_ones (p : array) :
  maximum_destruction_centrals self p (ones (length p))
  = Ok (map (fun x => ceiling_centrals (F1c x) (Ncen x 1)) p).
Proof.
  unfold maximum_destruction_centrals.
  rewrite halo_type_fraction_centrals_all_ones. simpl.
  to_map. reflexivity.
Qed.

Lemma maximum_destruction_satellites_all_ones (p : array) :
  maximum_destruction_satellites self p (ones (length p))
  = Ok (map (fun x => ceiling_satellites (F1s x)) p).
Proof.
  unfold maximum_destruction_satellites.
  rewrite halo_type_fraction_satellites_all_ones. simpl.
  to_map. reflexivity.
Qed.

(** The type-0 branch writes [type0_value] at the halos labelled 0 and leaves
    the others. *)
Lemma destruction_type0_branch_elements (d1 F : Q -> Q) (p halo_type : array) :
  length halo_type = length p ->
  exists r,
    destruction_type0_branch p (map d1 p) (map F p)
      (np_where (eq_scalar halo_type 0)) = Ok r /\
    length r = length p /\
    forall i, (i < length p)%nat ->
      nth i r 0 =
        if Qeq_bool (nth i halo_type 0) 0
        then type0_value (d1 (nth i p 0)) (F (nth i p 0))
        else d1 (nth i p 0).
Proof.
  intros Hlen. unfold destruction_type0_branch.
  assert (Hidx : Forall (fun i => (i < length p)%nat)
                   (np_where (eq_scalar halo_type 0))).
  { rewrite <- Hlen.
    replace (length halo_type) with (length (eq_scalar halo_type 0))
      by apply length_map.
    apply np_where_bound. }
  rewrite !(take_map 0) by exact Hidx.
  rewrite (take_gather 0) by exact Hidx. simpl.
  to_map. unfold gather. rewrite map_map.
  destruct (put_map_idx
              (fun i => type0_value (d1 (nth i p 0)) (F (nth i p 0)))
              (np_where (eq_scalar halo_type 0)) (map d1 p))
    as [r [Hr [Hl Hn]]].
  { rewrite length_map. exact Hidx. }
  exists r. split; [|split].
  - exact Hr.
  - rewrite Hl. apply length_map.
  - intros i Hi. rewrite Hn, existsb_np_where.
    unfold eq_scalar.
    rewrite (nth_indep _ false (Qeq_bool 0 0))
      by (rewrite length_map; lia).
    rewrite (map_nth (fun x => Qeq_bool x 0)).
    destruct (Qeq_bool (nth i halo_type 0) 0); [reflexivity|].
    rewrite (nth_indep _ 0 (d1 0)) by (rewrite length_map; lia).
    apply map_nth.
Qed.

Lemma destruction_centrals_elements (p halo_type : array) :
  length halo_type = length p ->
  exists r,
    destruction_centrals self p halo_type = Ok r /\
    length r = length p /\
    forall i, (i < length p)%nat ->
      nth i r 0 =
        if Qeq_bool (nth i halo_type 0) 0
        then type0_value ((D1_centrals self) (nth i p 0)) (F1c (nth i p 0))
        else (D1_centrals self) (nth i p 0).
Proof.
  intros Hlen. unfold destruction_centrals.
  rewrite maximum_destruction_centrals_all_ones,
    halo_type_fraction_centrals_all_ones. simpl.
  to_map.
  apply (destruction_type0_branch_elements (D1_centrals self) F1c p
           halo_type Hlen).
Qed.

Lemma destruction_satellites_elements (p halo_type : array) :
  length halo_type = length p ->
  exists r,
    destruction_satellites self p halo_type = Ok r /\
    length r = length p /\
    forall i, (i < length p)%nat ->
      nth i r 0 =
        if Qeq_bool (nth i halo_type 0) 0
        then type0_value ((D1_satellites self) (nth i p 0)) (F1s (nth i p 0))
        else (D1_satellites self) (nth i p 0).
Proof.
  intros Hlen. unfold destruction_satellites.
  rewrite maximum_destruction_satellites_all_ones,
    halo_type_fraction_satellites_all_ones. simpl.
  to_map.
  apply (destruction_type0_branch_elements (D1_satellites self) F1s p
           halo_type Hlen).
Qed.

End Engine.

(** ** Properties of the clamp, one halo at a time *)

Lemma Qdiv_mult_cancel (a b : Q) : ~ b == 0 -> a / b * b == a.
Proof. intros H. field. exact H. Qed.

Lemma reciprocal_pos (x : Q) : 0 < x -> 0 < 1 / x.
Proof.
  intros H. apply Qlt_shift_div_l; [exact H|]. lra.
Qed.

Lemma le_reciprocal_mult (d x : Q) : 0 < x -> d <= 1 / x -> d * x <= 1.
Proof.
  intros Hx Hd.
  apply (Qmult_le_compat_r _ _ x) in Hd; [|lra].
  rewrite Qdiv_mult_cancel in Hd by lra. exact Hd.
Qed.

Lemma ceiling_centrals_nonneg (F N : Q) : 0 <= ceiling_centrals F N.
Proof.
  unfold ceiling_centrals. case_tests;
    try lra; try (apply Qlt_le_weak, reciprocal_pos; assumption).
Qed.

Lemma ceiling_centrals_le_case1 (F N : Q) :
  0 < F -> ceiling_centrals F N <= 1 / F.
Proof.
  intros HF. unfold ceiling_centrals. case_tests; lra.
Qed.

Lemma ceiling_satellites_nonneg (F : Q) : 0 <= ceiling_satellites F.
Proof.
  unfold ceiling_satellites. case_tests;
    try lra; try (apply Qlt_le_weak, reciprocal_pos; assumption).
Qed.

Lemma clamp_type1_nonneg (u mx F : Q) : 0 <= mx -> 0 <= clamp_type1 u mx F.
Proof.
  intros H. unfold clamp_type1. case_tests; lra.
Qed.

Lemma clamp_type1_le_ceiling (u mx F : Q) :
  ~ F == 1 -> clamp_type1 u mx F <= mx.
Proof.
  intros H. unfold clamp_type1. case_tests; lra.
Qed.

Lemma clamp_type1_override (u mx F : Q) : F == 1 -> clamp_type1 u mx F = 1.
Proof.
  intros H. unfold clamp_type1. apply Qeq_bool_iff in H. rewrite H.
  reflexivity.
Qed.

Lemma type0_value_nonneg (d1 F : Q) :
  0 <= d1 -> (0 < F -> d1 * F <= 1) -> 0 <= F -> 0 <= type0_value d1 F.
Proof.
  intros Hd Hm HF. unfold type0_value. case_tests; try lra.
  apply Qle_shift_div_l; [lra|].
  destruct (Qlt_le_dec 0 F) as [H|H].
  - specialize (Hm H). lra.
  - assert (E2 : F == 0) by lra. rewrite E2. lra.
Qed.

(** The conservation law for one halo: whatever the type-1 value [d1], as
    long as it is 1 where [F == 1]. *)
Lemma conservation_scalar (d1 F N : Q) :
  F <= 1 -> (F == 1 -> d1 == 1) ->
  F * d1 * N + (1 - F) * type0_value d1 F * N == N.
Proof.
  intros HF H1. unfold type0_value. case_tests; try lra.
  - field. lra.
  - assert (E1 : F == 1) by lra. rewrite (H1 E1), E1. ring.
Qed.

Lemma label_one_not_zero (t : Q) : t == 1 -> Qeq_bool t 0 = false.
Proof. intros H. apply Qeq_bool_false_iff. lra. Qed.

Lemma label_zero (t : Q) : t == 0 -> Qeq_bool t 0 = true.
Proof. intros H. apply Qeq_bool_iff. exact H. Qed.

Lemma D1_centrals_at_one (self : Assembly_Biased_HOD_Model) (x : Q) :
  halo_type1_fraction_centrals self x == 1 -> D1_centrals self x = 1.
Proof. apply clamp_type1_override. Qed.

Lemma D1_satellites_at_one (self : Assembly_Biased_HOD_Model) (x : Q) :
  halo_type1_fraction_satellites self x == 1 -> D1_satellites self x = 1.
Proof. apply clamp_type1_override. Qed.

(** C1. Conservation law: at a halo whose type-1 fractions lie in [[0, 1]],
    the destruction value returned when the halo is labelled type 1 and the
    one returned when it is labelled type 0, weighted by the type fractions
    and multiplied by the baseline occupation, add up to the baseline
    occupation, for centrals and for satellites. *)
Theorem conservation_law (self : Assembly_Biased_HOD_Model)
  (p halo_type1 halo_type0 : array) (i : nat) :
  length halo_type1 = length p -> length halo_type0 = length p ->
  (i < length p)%nat ->
  nth i halo_type1 0 == 1 -> nth i halo_type0 0 == 0 ->
  0 <= halo_type1_fraction_centrals self (nth i p 0) <= 1 ->
  0 <= halo_type1_fraction_satellites self (nth i p 0) <= 1 ->
  exists c1 c0 s1 s0,
    destruction_centrals self p halo_type1 = Ok c1 /\
    destruction_centrals self p halo_type0 = Ok c0 /\
    destruction_satellites self p halo_type1 = Ok s1 /\
    destruction_satellites self p halo_type0 = Ok s0 /\
    (forall t,
       halo_type1_fraction_centrals self (nth i p 0) * nth i c1 0
         * baseline_mean_ncen self (nth i p 0) t
       + (1 - halo_type1_fraction_centrals self (nth i p 0)) * nth i c0 0
         * baseline_mean_ncen self (nth i p 0) t
       == baseline_mean_ncen self (nth i p 0) t) /\
    (forall t,
       halo_type1_fraction_satellites self (nth i p 0) * nth i s1 0
         * baseline_mean_nsat self (nth i p 0) t
       + (1 - halo_type1_fraction_satellites self (nth i p 0)) * nth i s0 0
         * baseline_mean_nsat self (nth i p 0) t
       == baseline_mean_nsat self (nth i p 0) t).
Proof.
  intros L1 L0 Hi T1 T0 Fc Fs.
  destruct (destruction_centrals_elements self p halo_type1 L1)
    as [c1 [Hc1 [_ Ec1]]].
  destruct (destruction_centrals_elements self p halo_type0 L0)
    as [c0 [Hc0 [_ Ec0]]].
  destruct (destruction_satellites_elements self p halo_type1 L1)
    as [s1 [Hs1 [_ Es1]]].
  destruct (destruction_satellites_elements self p halo_type0 L0)
    as [s0 [Hs0 [_ Es0]]].
  exists c1, c0, s1, s0. repeat (split; [assumption|]).
  rewrite (Ec1 i Hi), (Ec0 i Hi), (Es1 i Hi), (Es0 i Hi).
  rewrite (label_one_not_zero _ T1), (label_zero _ T0).
  split; intros t; apply conservation_scalar; try tauto.
  - intros H. rewrite (D1_centrals_at_one self _ H). reflexivity.
  - intros H. rewrite (D1_satellites_at_one self _ H). reflexivity.
Qed.

Lemma conservation_law_witness :
  exists c1 c0 s1 s0,
    destruction_centrals example_model [0; 1; 2] [1; 1; 1] = Ok c1 /\
    destruction_centrals example_model [0; 1; 2] [1; 0; 1] = Ok c0 /\
    destruction_satellites example_model [0; 1; 2] [1; 1; 1] = Ok s1 /\
    destruction_satellites example_model [0; 1; 2] [1; 0; 1] = Ok s0 /\
    (forall t,
       halo_type1_fraction_centrals example_model (nth 1 [0; 1; 2] 0)
         * nth 1 c1 0
         * baseline_mean_ncen example_model (nth 1 [0; 1; 2] 0) t
       + (1 - halo_type1_fraction_centrals example_model (nth 1 [0; 1; 2] 0))
         * nth 1 c0 0
         * baseline_mean_ncen example_model (nth 1 [0; 1; 2] 0) t
       == baseline_mean_ncen example_model (nth 1 [0; 1; 2] 0) t) /\
    (forall t,
       halo_type1_fraction_satellites example_model (nth 1 [0; 1; 2] 0)
         * nth 1 s1 0
         * baseline_mean_nsat example_model (nth 1 [0; 1; 2] 0) t
       + (1 - halo_type1_fraction_satellites example_model
                (nth 1 [0; 1; 2] 0))
         * nth 1 s0 0
         * baseline_mean_nsat example_model (nth 1 [0; 1; 2] 0) t
       == baseline_mean_nsat example_model (nth 1 [0; 1; 2] 0) t).
Proof.
  apply (conservation_law example_model [0; 1; 2] [1; 1; 1] [1; 0; 1] 1%nat);
    first [reflexivity | simpl; lia | vm_compute; split; discriminate].
Defined.

(** C2. Boundary override: at a halo labelled type 1 whose type-1 fraction is
    exactly 1, the destruction value returned is exactly 1, whatever the
    unconstrained function, the floor and the ceiling give there; for
    centrals and for satellites. *)
Theorem boundary_override (self : Assembly_Biased_HOD_Model)
  (p halo_type : array) (i : nat) :
  length halo_type = length p -> (i < length p)%nat ->
  nth i halo_type 0 == 1 ->
  exists c s,
    destruction_centrals self p halo_type = Ok c /\
    destruction_satellites self p halo_type = Ok s /\
    (halo_type1_fraction_centrals self (nth i p 0) == 1 -> nth i c 0 = 1) /\
    (halo_type1_fraction_satellites self (nth i p 0) == 1 -> nth i s 0 = 1).
Proof.
  intros L Hi T.
  destruct (destruction_centrals_elements self p halo_type L)
    as [c [Hc [_ Ec]]].
  destruct (destruction_satellites_elements self p halo_type L)
    as [s [Hs [_ Es]]].
  exists c, s. repeat (split; [assumption|]).
  rewrite (Ec i Hi), (Es i Hi), (label_one_not_zero _ T).
  split; intros H.
  - apply D1_centrals_at_one, H.
  - apply D1_satellites_at_one, H.
Qed.

Lemma boundary_override_witness :
  exists c s,
    destruction_centrals example_model [0; 1; 2] [1; 0; 1] = Ok c /\
    destruction_satellites example_model [0; 1; 2] [1; 0; 1] = Ok s /\
    (halo_type1_fraction_centrals example_model (nth 2 [0; 1; 2] 0) == 1 ->
     nth 2 c 0 = 1) /\
    (halo_type1_fraction_satellites example_model (nth 2 [0; 1; 2] 0) == 1 ->
     nth 2 s 0 = 1).
Proof.
  apply (boundary_override example_model [0; 1; 2] [1; 0; 1] 2%nat);
    first [reflexivity | simpl; lia].
Defined.

Lemma clamp_times_fraction (u mx F : Q) :
  0 < F -> mx <= 1 / F -> clamp_type1 u mx F * F <= 1.
Proof.
  intros HF Hmx. destruct (Qeq_bool F 1) eqn:E.
  - apply Qeq_bool_iff in E.
    rewrite clamp_type1_override by exact E. lra.
  - apply Qeq_bool_false_iff in E. apply le_reciprocal_mult; [exact HF|].
    apply Qle_trans with mx; [|exact Hmx].
    apply clamp_type1_le_ceiling. exact E.
Qed.

Lemma D1_centrals_nonneg (self : Assembly_Biased_HOD_Model) (x : Q) :
  0 <= D1_centrals self x.
Proof. apply clamp_type1_nonneg, ceiling_centrals_nonneg. Qed.

Lemma D1_satellites_nonneg (self : Assembly_Biased_HOD_Model) (x : Q) :
  0 <= D1_satellites self x.
Proof. apply clamp_type1_nonneg, ceiling_satellites_nonneg. Qed.

Lemma D0_centrals_nonneg (self : Assembly_Biased_HOD_Model) (x : Q) :
  0 <= halo_type1_fraction_centrals self x ->
  0 <= type0_value (D1_centrals self x) (halo_type1_fraction_centrals self x).
Proof.
  intros HF. apply type0_value_nonneg; [apply D1_centrals_nonneg| |exact HF].
  intros H. apply clamp_times_fraction; [exact H|].
  apply ceiling_centrals_le_case1, H.
Qed.

Lemma D0_satellites_nonneg (self : Assembly_Biased_HOD_Model) (x : Q) :
  0 <= halo_type1_fraction_satellites self x ->
  0 <= type0_value (D1_satellites self x)
         (halo_type1_fraction_satellites self x).
Proof.
  intros HF. apply type0_value_nonneg; [apply D1_satellites_nonneg| |exact HF].
  intros H. apply clamp_times_fraction; [exact H|].
  unfold ceiling_satellites. apply Qlt_bool_iff in H. rewrite H. lra.
Qed.

(** C3. Non-negativity: whatever the halo-type labels and the unconstrained
    destruction functions, when the type-1 fractions lie in [[0, 1]] on the
    catalog, every element returned by [destruction_centrals] and by
    [destruction_satellites] is non-negative. *)
Theorem non_negativity (self : Assembly_Biased_HOD_Model)
  (p halo_type : array) :
  length halo_type = length p ->
  (forall x, In x p -> 0 <= halo_type1_fraction_centrals self x <= 1) ->
  (forall x, In x p -> 0 <= halo_type1_fraction_satellites self x <= 1) ->
  exists c s,
    destruction_centrals self p halo_type = Ok c /\
    destruction_satellites self p halo_type = Ok s /\
    Forall (fun d => 0 <= d) c /\ Forall (fun d => 0 <= d) s.
Proof.
  intros L Fc Fs.
  destruct (destruction_centrals_elements self p halo_type L)
    as [c [Hc [Lc Ec]]].
  destruct (destruction_satellites_elements self p halo_type L)
    as [s [Hs [Ls Es]]].
  exists c, s. repeat (split; [assumption|]).
  split; apply Forall_forall; intros d Hd;
    apply (In_nth _ _ 0) in Hd; destruct Hd as [i [Hi <-]].
  - rewrite Lc in Hi. rewrite (Ec i Hi).
    destruct (Qeq_bool (nth i halo_type 0) 0).
    + apply D0_centrals_nonneg, Fc, nth_In, Hi.
    + apply D1_centrals_nonneg.
  - rewrite Ls in Hi. rewrite (Es i Hi).
    destruct (Qeq_bool (nth i halo_type 0) 0).
    + apply D0_satellites_nonneg, Fs, nth_In, Hi.
    + apply D1_satellites_nonneg.
Qed.

Lemma example_model_fractions (x : Q) :
  In x [0; 1; 2] ->
  0 <= halo_type1_fraction_centrals example_model x <= 1 /\
  0 <= halo_type1_fraction_satellites example_model x <= 1.
Proof.
  simpl. intros [<- | [<- | [<- | []]]]; vm_compute;
    repeat split; discriminate.
Defined.

Lemma non_negativity_witness :
  exists c s,
    destruction_centrals example_model [0; 1; 2] [1; 0; 1] = Ok c /\
    destruction_satellites example_model [0; 1; 2] [1; 0; 1] = Ok s /\
    Forall (fun d => 0 <= d) c /\ Forall (fun d => 0 <= d) s.
Proof.
  apply (non_negativity example_model [0; 1; 2] [1; 0; 1]).
  - reflexivity.
  - intros x Hx. apply (example_model_fractions x Hx).
  - intros x Hx. apply (example_model_fractions x Hx).
Defined.

Lemma ceiling_centrals_both_positive (F N : Q) :
  0 < F -> 0 < N -> ceiling_centrals F N == Qmin (1 / F) (1 / N).
Proof.
  intros HF HN. unfold ceiling_centrals.
  apply Qlt_bool_iff in HF, HN. rewrite HF, HN.
  case_tests.
  - rewrite Q.min_r by lra. reflexivity.
  - rewrite Q.min_l by lra. reflexivity.
Qed.

Lemma ceiling_centrals_zero (F N : Q) :
  F == 0 \/ N == 0 -> ceiling_centrals F N == 0.
Proof.
  intros H. unfold ceiling_centrals.
  case_tests; try lra;
    match goal with
    | E : 0 < ?x |- _ => pose proof (reciprocal_pos x E); lra
    end.
Qed.

Lemma clamp_at_empty_type1 (u N F : Q) :
  F == 0 -> u == 5 -> clamp_type1 u (ceiling_centrals F N) F = 0.
Proof.
  intros HF Hu. unfold clamp_type1, ceiling_centrals.
  case_tests; try reflexivity; exfalso; try lra;
    match goal with
    | E : 0 < ?x |- _ => pose proof (reciprocal_pos x E); lra
    end.
Qed.

(** C4. Central ceiling clamp: at a halo labelled type 1, unless its type-1
    fraction is 1 (where the override applies), the value returned by
    [destruction_centrals] is at most the ceiling that
    [maximum_destruction_centrals] computes; that ceiling is the smaller of
    [1 / F1] and [1 / N] when both are positive and is 0 when [F1 = 0] or
    [N = 0]; and where [F1 = 0] and the unconstrained function is 5 the value
    returned is exactly 0. *)
Theorem central_ceiling_clamp (self : Assembly_Biased_HOD_Model)
  (p halo_type : array) (i : nat) :
  length halo_type = length p -> (i < length p)%nat ->
  nth i halo_type 0 == 1 ->
  exists c mx,
    destruction_centrals self p halo_type = Ok c /\
    maximum_destruction_centrals self p (ones (length p)) = Ok mx /\
    (~ halo_type1_fraction_centrals self (nth i p 0) == 1 ->
     nth i c 0 <= nth i mx 0) /\
    (0 < halo_type1_fraction_centrals self (nth i p 0) ->
     0 < baseline_mean_ncen self (nth i p 0) 1 ->
     nth i mx 0 ==
       Qmin (1 / halo_type1_fraction_centrals self (nth i p 0))
            (1 / baseline_mean_ncen self (nth i p 0) 1)) /\
    (halo_type1_fraction_centrals self (nth i p 0) == 0 \/
     baseline_mean_ncen self (nth i p 0) 1 == 0 ->
     nth i mx 0 == 0) /\
    (halo_type1_fraction_centrals self (nth i p 0) == 0 ->
     unconstrained_central_destruction_halo_type1 self (nth i p 0) == 5 ->
     nth i c 0 = 0).
Proof.
  intros L Hi T.
  destruct (destruction_centrals_elements self p halo_type L)
    as [c [Hc [_ Ec]]].
  exists c, (map (fun x => ceiling_centrals
                             (halo_type1_fraction_centrals self x)
                             (baseline_mean_ncen self x 1)) p).
  split; [exact Hc|].
  split; [apply maximum_destruction_centrals_all_ones|].
  rewrite (Ec i Hi), (label_one_not_zero _ T).
  rewrite (nth_map_in_range _ p i 0 0 Hi).
  repeat split.
  - apply clamp_type1_le_ceiling.
  - apply ceiling_centrals_both_positive.
  - apply ceiling_centrals_zero.
  - apply clamp_at_empty_type1.
Qed.

Lemma central_ceiling_clamp_witness :
  exists c mx,
    destruction_centrals example_model [0; 1; 2] [1; 1; 1] = Ok c /\
    maximum_destruction_centrals example_model [0; 1; 2]
      (ones (length [0; 1; 2])) = Ok mx /\
    (~ halo_type1_fraction_centrals example_model (nth 0 [0; 1; 2] 0) == 1 ->
     nth 0 c 0 <= nth 0 mx 0) /\
    (0 < halo_type1_fraction_centrals example_model (nth 0 [0; 1; 2] 0) ->
     0 < baseline_mean_ncen example_model (nth 0 [0; 1; 2] 0) 1 ->
     nth 0 mx 0 ==
       Qmin (1 / halo_type1_fraction_centrals example_model
                    (nth 0 [0; 1; 2] 0))
            (1 / baseline_mean_ncen example_model (nth 0 [0; 1; 2] 0) 1)) /\
    (halo_type1_fraction_centrals example_model (nth 0 [0; 1; 2] 0) == 0 \/
     baseline_mean_ncen example_model (nth 0 [0; 1; 2] 0) 1 == 0 ->
     nth 0 mx 0 == 0) /\
    (halo_type1_fraction_centrals example_model (nth 0 [0; 1; 2] 0) == 0 ->
     unconstrained_central_destruction_halo_type1 example_model
       (nth 0 [0; 1; 2] 0) == 5 ->
     nth 0 c 0 = 0).
Proof.
  apply (central_ceiling_clamp example_model [0; 1; 2] [1; 1; 1] 0%nat);
    first [reflexivity | simpl; lia].
Defined.

(** The scenario of C4, evaluated: the first halo of the example has
    [F1 = 0] and unconstrained value 5, and receives 0. *)
Example central_ceiling_scenario :
  halo_type1_fraction_centrals example_model 0 == 0 /\
  unconstrained_central_destruction_halo_type1 example_model 0 == 5 /\
  destruction_centrals example_model [0; 1; 2] [1; 1; 1] = Ok [0; 2; 1].
Proof. repeat split. Qed.

(** ** Zheng07_HOD_Model: the threshold table *)

Lemma Qeq_bool_right (x q t : Q) : q == t -> Qeq_bool x q = Qeq_bool x t.
Proof.
  intros H. destruct (Qeq_bool x t) eqn:E.
  - apply Qeq_bool_iff. apply Qeq_bool_iff in E. rewrite H. exact E.
  - apply Qeq_bool_false_iff. apply Qeq_bool_false_iff in E.
    rewrite H. exact E.
Qed.

Lemma threshold_array_value :
  rev (np_arange (-22) (-17.5) 0.5)
  = [-18.0; -18.5; -19.0; -19.5; -20.0; -20.5; -21.0; -21.5; -22.0].
Proof. reflexivity. Qed.

Lemma threshold_lookup_hit (k : nat) (q : Q) :
  (k < 9)%nat -> q == nth k published_thresholds 0 ->
  np_where (eq_scalar (rev (np_arange (-22) (-17.5) 0.5)) q) = [k].
Proof.
  intros Hk Hq. rewrite threshold_array_value. unfold eq_scalar.
  rewrite (map_ext _ (fun x => Qeq_bool x (nth k published_thresholds 0)))
    by (intros x; apply Qeq_bool_right, Hq).
  clear Hq.
  do 9 (destruct k as [|k]; [reflexivity|]). lia.
Qed.

Lemma threshold_lookup_miss (q : Q) :
  (forall t, In t published_thresholds -> ~ q == t) ->
  np_where (eq_scalar (rev (np_arange (-22) (-17.5) 0.5)) q) = [].
Proof.
  intros H. rewrite threshold_array_value. apply where_from_none.
  unfold eq_scalar. apply Forall_forall. intros b Hb.
  apply in_map_iff in Hb. destruct Hb as [x [<- Hx]].
  apply Qeq_bool_false_iff. intros E.
  assert (Hin : exists t, In t published_thresholds /\ x == t).
  { assert (Hall : forallb
                     (fun y => existsb (Qeq_bool y) published_thresholds)
                     [-18.0; -18.5; -19.0; -19.5; -20.0; -20.5; -21.0;
                      -21.5; -22.0] = true) by reflexivity.
    rewrite forallb_forall in Hall. specialize (Hall x Hx).
    apply existsb_exists in Hall. destruct Hall as [t [Ht Hxt]].
    exists t. split; [exact Ht|]. apply Qeq_bool_iff, Hxt. }
  destruct Hin as [t [Ht Hxt]]. apply (H t Ht). rewrite <- Hxt, E.
  reflexivity.
Qed.

Lemma threshold_published_dec (q : Q) :
  (exists k, (k < 9)%nat /\ q == nth k published_thresholds 0) \/
  (forall t, In t published_thresholds -> ~ q == t).
Proof.
  destruct (existsb (Qeq_bool q) published_thresholds) eqn:E.
  - left. apply existsb_exists in E. destruct E as [t [Ht Hq]].
    apply Qeq_bool_iff in Hq. apply (In_nth _ _ 0) in Ht.
    destruct Ht as [k [Hk <-]]. exists k. split; [exact Hk | exact Hq].
  - right. intros t Ht Hq.
    assert (existsb (Qeq_bool q) published_thresholds = true).
    { apply existsb_exists. exists t. split; [exact Ht|].
      apply Qeq_bool_iff, Hq. }
    congruence.
Qed.

(** ** published_parameters, case by case *)

Lemma published_parameters_hit (k : nat) (q : Q) (s : state) :
  (k < 9)%nat -> q == nth k published_thresholds 0 ->
  published_parameters (PyNumber q) s = Ok (table_row k, with_threshold s q).
Proof.
  intros Hk Hq.
  cbv [published_parameters bindM set_threshold get_threshold instance
       threshold].
  rewrite (threshold_lookup_hit k q Hk Hq). clear Hq.
  do 9 (destruct k as [|k]; [reflexivity|]). lia.
Qed.

Lemma published_parameters_miss (q : Q) (s : state) :
  (forall t, In t published_thresholds -> ~ q == t) ->
  published_parameters (PyNumber q) s =
  Raise (TypeError
    "Input luminosity threshold does not match any of the Table 1 values of Zheng et al. 2007.").
Proof.
  intros H.
  cbv [published_parameters bindM set_threshold get_threshold instance
       threshold].
  rewrite (threshold_lookup_miss q H). reflexivity.
Qed.

Lemma published_parameters_other (s : state) :
  published_parameters PyOther s =
  Raise (TypeError "Input luminosity threshold must be a scalar").
Proof. reflexivity. Qed.

Lemma published_parameters_none (s : state) :
  published_parameters PyNone s =
  Ok (table_row 3,
      with_threshold
        (with_warning s "HOD threshold unspecified: setting to -19.5")
        (-19.5)).
Proof. reflexivity. Qed.

Lemma published_parameters_minus_20 (s : state) :
  published_parameters (PyNumber (-20)) s
  = Ok (table_row 4, with_threshold s (-20)).
Proof. apply published_parameters_hit; [lia | reflexivity]. Qed.

(** ** require_correct_keys and the constructor *)

Lemma require_correct_keys_unbound (s : state) :
  parameter_dict (instance s) = None ->
  require_correct_keys s = Raise AttributeError.
Proof.
  intros H. unfold require_correct_keys, bindM.
  rewrite published_parameters_minus_20.
  unfold get_parameter_dict. simpl. rewrite H. reflexivity.
Qed.

Lemma require_correct_keys_bound (s : state) (d : dict) :
  parameter_dict (instance s) = Some d ->
  require_correct_keys s =
  if set_eqb (keys d) (keys (table_row 4))
  then Ok (tt, with_threshold s (-20))
  else Raise (TypeError
    "Set of keys of input parameter_dict do not match the set of keys required by the model").
Proof.
  intros H. unfold require_correct_keys, bindM.
  rewrite published_parameters_minus_20.
  unfold get_parameter_dict. simpl. rewrite H.
  destruct (set_eqb (keys d) _); reflexivity.
Qed.

(** C7. A supplied parameter dictionary is ignored: the constructor never
    binds it, so [require_correct_keys] runs on an instance whose
    [parameter_dict] is [None] and raises an attribute error, whatever the
    dictionary (the exact key set included) and the threshold. *)
Theorem supplied_parameter_dict_is_ignored (d : dict) (thr : threshold_arg)
  (s : state) :
  Zheng07_HOD_Model_init (Some d) thr s
  = require_correct_keys (before_key_check s)
  /\ parameter_dict (instance (before_key_check s)) = None
  /\ Zheng07_HOD_Model_init (Some d) thr s = Raise AttributeError
  /\ Zheng07_HOD_Model (Some d) thr = Raise AttributeError.
Proof.
  assert (H : Zheng07_HOD_Model_init (Some d) thr s
              = require_correct_keys (before_key_check s)) by reflexivity.
  split; [exact H|]. split; [reflexivity|]. split.
  - rewrite H. apply require_correct_keys_unbound. reflexivity.
  - reflexivity.
Qed.

(** C6, evaluated where it fails: a dictionary with a wrong key set makes the
    constructor raise the attribute error of C7, not the error of the key-set
    check; the check itself, run on an instance to which that dictionary is
    bound, raises the validation error. *)
Example wrong_key_set_is_not_validated :
  Zheng07_HOD_Model (Some [("foo"%string, 1)]) PyNone = Raise AttributeError
  /\ require_correct_keys
       {| instance := {| publication := ["arXiv:0703457"%string];
                         parameter_dict := Some [("foo"%string, 1)];
                         threshold := None |};
          warnings := [] |}
     = Raise (TypeError
         "Set of keys of input parameter_dict do not match the set of keys required by the model").
Proof. split; reflexivity. Qed.

(** C9. [published_parameters] raises exactly when a threshold is given that
    is not a number or is none of the nine published values, and what it
    raises is the module's [TypeError]; without a threshold it warns, takes
    -19.5 and returns the parameters of that row of the table. *)
Theorem published_parameters_threshold_lookup (thr : threshold_arg)
  (s : state) :
  (raises (published_parameters thr s) <->
   thr = PyOther \/
   exists q, thr = PyNumber q /\
             forall t, In t published_thresholds -> ~ q == t)
  /\ (forall e, published_parameters thr s = Raise e ->
                exists msg, e = TypeError msg)
  /\ published_parameters PyNone s
     = Ok (table_row 3,
           with_threshold
             (with_warning s "HOD threshold unspecified: setting to -19.5")
             (-19.5))
  /\ published_parameters (PyNumber (-19.5)) s
     = Ok (table_row 3, with_threshold s (-19.5)).
Proof.
  split; [|split; [|split]].
  - destruct thr as [|q|].
    + rewrite published_parameters_none. split.
      * intros [e He]. discriminate.
      * intros [H | [q [H _]]]; discriminate.
    + destruct (threshold_published_dec q) as [[k [Hk Hq]] | Hmiss].
      * rewrite (published_parameters_hit k q s Hk Hq). split.
        -- intros [e He]. discriminate.
        -- intros [H | [q' [H Hq']]]; [discriminate|].
           injection H as <-. exfalso.
           apply (Hq' (nth k published_thresholds 0)).
           ++ apply nth_In. exact Hk.
           ++ exact Hq.
      * rewrite (published_parameters_miss q s Hmiss). split.
        -- intros _. right. exists q. split; [reflexivity | exact Hmiss].
        -- intros _. eexists. reflexivity.
    + rewrite published_parameters_other. split.
      * intros _. left. reflexivity.
      * intros _. eexists. reflexivity.
  - intros e. destruct thr as [|q|].
    + rewrite published_parameters_none. discriminate.
    + destruct (threshold_published_dec q) as [[k [Hk Hq]] | Hmiss].
      * rewrite (published_parameters_hit k q s Hk Hq). discriminate.
      * rewrite (published_parameters_miss q s Hmiss).
        intros H. injection H as <-. eexists. reflexivity.
    + rewrite published_parameters_other.
      intros H. injection H as <-. eexists. reflexivity.
  - apply published_parameters_none.
  - apply published_parameters_hit; [lia | reflexivity].
Qed.

Lemma keys_table_row (k : nat) : keys (table_row k) = keys (table_row 4).
Proof. reflexivity. Qed.

(** C10. Construction overwrites the threshold: without a dictionary and with
    a published threshold (or none), the constructor returns an instance whose
    [threshold] is -20.0, while its [parameter_dict] holds the published
    parameters of the row that was asked for. *)
Theorem construction_overwrites_threshold (thr : threshold_arg) (k : nat) :
  requested_row thr k ->
  exists s,
    Zheng07_HOD_Model None thr = Ok s /\
    threshold (instance s) = Some (-20) /\
    parameter_dict (instance s) = Some (table_row k) /\
    exists s', published_parameters thr blank = Ok (table_row k, s').
Proof.
  intros [[-> ->] | [q [-> [Hk Hq]]]].
  - eexists. split; [reflexivity|]. split; [reflexivity|].
    split; [reflexivity|]. rewrite published_parameters_none.
    eexists. reflexivity.
  - unfold Zheng07_HOD_Model, Zheng07_HOD_Model_init, bindM.
    simpl. rewrite (published_parameters_hit k q _ Hk Hq).
    unfold set_parameter_dict.
    erewrite require_correct_keys_bound by reflexivity.
    rewrite keys_table_row.
    eexists. split; [reflexivity|]. split; [reflexivity|].
    split; [reflexivity|].
    rewrite (published_parameters_hit k q _ Hk Hq). eexists. reflexivity.
Qed.

Lemma construction_overwrites_threshold_witness :
  exists s,
    Zheng07_HOD_Model None (PyNumber (-18)) = Ok s /\
    threshold (instance s) = Some (-20) /\
    parameter_dict (instance s) = Some (table_row 0) /\
    exists s', published_parameters (PyNumber (-18)) blank
               = Ok (table_row 0, s').
Proof.
  apply (construction_overwrites_threshold (PyNumber (-18)) 0%nat).
  right. exists (-18). split; [reflexivity|]. split; [simpl; lia|reflexivity].
Defined.

(** The parameters kept are those of the threshold that was asked for, not
    those of -20. *)
Example threshold_and_parameters_disagree :
  exists s,
    Zheng07_HOD_Model None (PyNumber (-18)) = Ok s /\
    threshold (instance s) = Some (-20) /\
    parameter_dict (instance s) = Some (table_row 0) /\
    table_row 0 <> table_row 4.
Proof.
  eexists. repeat split. discriminate.
Qed.

(** ** np_argsort: a permutation of the indices, ascending in the keys *)

Lemma insert_by_perm (key : nat -> Q) (i : nat) (l : list nat) :
  Permutation (insert_by key i l) (i :: l).
Proof.
  induction l as [|j l IH]; simpl; [reflexivity|].
  destruct (Qle_bool (key i) (key j)); [reflexivity|].
  rewrite IH. apply perm_swap.
Qed.

Lemma insert_by_sorted (key : nat -> Q) (i : nat) (l : list nat) :
  StronglySorted (fun a b => key a <= key b) l ->
  StronglySorted (fun a b => key a <= key b) (insert_by key i l).
Proof.
  induction 1 as [|j l Hl IH Hj]; simpl.
  - constructor; constructor.
  - destruct (Qle_bool (key i) (key j)) eqn:E.
    + apply Qle_bool_iff in E. constructor.
      * constructor; assumption.
      * constructor; [exact E|].
        apply Forall_forall. intros x Hx.
        rewrite Forall_forall in Hj. specialize (Hj x Hx). lra.
    + assert (Hji : key j <= key i).
      { destruct (Qlt_le_dec (key i) (key j)) as [H|H]; [|exact H].
        apply Qlt_le_weak, Qle_bool_iff in H. congruence. }
      constructor; [exact IH|].
      apply Forall_forall. intros x Hx.
      apply (Permutation_in _ (insert_by_perm key i l)) in Hx.
      destruct Hx as [<- | Hx]; [exact Hji|].
      rewrite Forall_forall in Hj. apply Hj, Hx.
Qed.

Lemma np_argsort_perm (a : array) :
  Permutation (np_argsort a) (seq 0 (length a)).
Proof.
  unfold np_argsort. induction (seq 0 (length a)) as [|i l IH]; simpl.
  - reflexivity.
  - rewrite insert_by_perm. constructor. exact IH.
Qed.

Lemma np_argsort_sorted (a : array) :
  StronglySorted (fun i j => nth i a 0 <= nth j a 0) (np_argsort a).
Proof.
  unfold np_argsort. induction (seq 0 (length a)) as [|i l IH]; simpl.
  - constructor.
  - apply insert_by_sorted. exact IH.
Qed.

Lemma np_argsort_length (a : array) : length (np_argsort a) = length a.
Proof.
  rewrite (Permutation_length (np_argsort_perm a)). apply length_seq.
Qed.

Lemma np_argsort_NoDup (a : array) : NoDup (np_argsort a).
Proof.
  apply (Permutation_NoDup (Permutation_sym (np_argsort_perm a))).
  apply seq_NoDup.
Qed.

Lemma np_argsort_bound (a : array) :
  Forall (fun i => (i < length a)%nat) (np_argsort a).
Proof.
  apply Forall_forall. intros i Hi.
  apply (Permutation_in _ (np_argsort_perm a)) in Hi.
  apply in_seq in Hi. lia.
Qed.

(** Ranks in a sorted list carry ascending keys. *)
Lemma StronglySorted_nth {A : Type} (R : A -> A -> Prop) (l : list A)
  (d : A) (r1 r2 : nat) :
  StronglySorted R l -> (r1 < r2)%nat -> (r2 < length l)%nat ->
  R (nth r1 l d) (nth r2 l d).
Proof.
  intros H. revert r1 r2. induction H as [|x l Hl IH Hx]; intros r1 r2 H12 H2.
  - simpl in H2. lia.
  - simpl in H2. destruct r2 as [|r2]; [lia|]. destruct r1 as [|r1]; simpl.
    + rewrite Forall_forall in Hx. apply Hx, nth_In. lia.
    + apply IH; lia.
Qed.

(** ** Slices of a duplicate-free list *)

Lemma existsb_eqb_In (i : nat) (l : list nat) :
  existsb (Nat.eqb i) l = true <-> In i l.
Proof.
  rewrite existsb_exists. split.
  - intros [x [Hx E]]. apply Nat.eqb_eq in E. subst x. exact Hx.
  - intros H. exists i. split; [exact H | apply Nat.eqb_refl].
Qed.

Lemma In_firstn_rank (l : list nat) (k r : nat) :
  NoDup l -> (r < length l)%nat ->
  (In (nth r l 0%nat) (firstn k l) <-> (r < k)%nat).
Proof.
  intros Hnd. revert k r. induction Hnd as [|x l Hx Hnd IH]; intros k r Hr.
  - simpl in Hr. lia.
  - simpl in Hr. destruct k as [|k]; simpl.
    + split; [tauto | lia].
    + destruct r as [|r]; simpl.
      * split; [lia | auto].
      * rewrite <- Nat.succ_lt_mono, <- (IH k r) by lia. split.
        -- intros [E | H]; [|exact H].
           exfalso. apply Hx. rewrite E. apply nth_In. lia.
        -- auto.
Qed.

Lemma existsb_firstn_rank (l : list nat) (k r : nat) :
  NoDup l -> (r < length l)%nat ->
  existsb (Nat.eqb (nth r l 0%nat)) (firstn k l) = (r <? k)%nat.
Proof.
  intros Hnd Hr.
  destruct (r <? k)%nat eqn:E.
  - apply existsb_eqb_In, In_firstn_rank; [assumption..|].
    apply Nat.ltb_lt, E.
  - destruct (existsb _ _) eqn:E'; [|reflexivity].
    apply existsb_eqb_In, In_firstn_rank in E'; [|assumption..].
    apply Nat.ltb_lt in E'. congruence.
Qed.

(** ** Writing a scalar at an index array *)

Lemma put_scalar_spec {A : Type} (c : A) (idx : list nat) (a : list A) :
  Forall (fun i => (i < length a)%nat) idx ->
  exists r, put_scalar a idx c = Ok r /\ length r = length a /\
    forall i d, nth i r d = if existsb (Nat.eqb i) idx then c else nth i a d.
Proof.
  intros H. revert a H. induction idx as [|i0 idx IH]; intros a H; simpl.
  - exists a. auto.
  - inversion H as [|? ? Hi0 Hidx]; subst.
    apply Nat.ltb_lt in Hi0 as Hb. rewrite Hb.
    destruct (IH (set_item a i0 c)) as [r [Hr [Hlen Hnth]]].
    { rewrite length_set_item. exact Hidx. }
    exists r. split; [exact Hr|]. split.
    { rewrite Hlen. apply length_set_item. }
    intros i d. rewrite Hnth, nth_set_item by exact Hi0.
    destruct (existsb (Nat.eqb i) idx); [rewrite orb_true_r; reflexivity|].
    rewrite orb_false_r. destruct (Nat.eqb_spec i i0); reflexivity.
Qed.

(** ** Boolean masks and the index array of [np_where] *)

Lemma where_from_ge (k : nat) (m : list bool) :
  Forall (fun i => (k <= i)%nat) (where_from k m).
Proof.
  apply Forall_forall. intros i Hi. apply where_from_In in Hi. tauto.
Qed.

Lemma compress_where {A : Type} (d : A) (m : list bool) (a : list A)
  (k : nat) :
  length m = length a ->
  compress m a = map (fun i => nth (i - k) a d) (where_from k m).
Proof.
  revert a k. induction m as [|b m IH]; intros a k Hlen.
  - reflexivity.
  - destruct a as [|x a]; [discriminate|]. simpl in Hlen.
    injection Hlen as Hlen.
    assert (Hshift : map (fun i => nth (i - k) (x :: a) d)
                       (where_from (S k) m)
                     = map (fun i => nth (i - S k) a d) (where_from (S k) m)).
    { apply map_ext_in. intros i Hi.
      pose proof (where_from_ge (S k) m) as Hge.
      rewrite Forall_forall in Hge. specialize (Hge i Hi).
      replace (i - k)%nat with (S (i - S k)) by lia. reflexivity. }
    destruct b.
    + change (x :: compress m a
              = nth (k - k) (x :: a) d
                :: map (fun i => nth (i - k) (x :: a) d)
                     (where_from (S k) m)).
      rewrite Hshift, Nat.sub_diag, <- (IH a (S k) Hlen). reflexivity.
    + change (compress m a
              = map (fun i => nth (i - k) (x :: a) d) (where_from (S k) m)).
      rewrite Hshift. apply IH, Hlen.
Qed.

Lemma compress_gather {A : Type} (d : A) (m : list bool) (a : list A) :
  length m = length a -> compress m a = gather d a (np_where m).
Proof.
  intros H. unfold gather, np_where.
  rewrite (compress_where d m a 0 H).
  apply map_ext. intros i. rewrite Nat.sub_0_r. reflexivity.
Qed.

Lemma length_putmask {A : Type} (a : list A) (m : list bool) (v : list A) :
  length (putmask a m v) = length a.
Proof.
  revert m v. induction a as [|x a IH]; intros m v; [reflexivity|].
  destruct m as [|b m]; [reflexivity|]. simpl.
  destruct b; [destruct v|]; simpl; rewrite IH; reflexivity.
Qed.

Lemma putmask_outside {A : Type} (a : list A) (m : list bool) (v : list A)
  (j : nat) (d : A) :
  nth j m false = false -> nth j (putmask a m v) d = nth j a d.
Proof.
  revert m v j. induction a as [|x a IH]; intros m v j Hj; [reflexivity|].
  destruct m as [|b m]; [reflexivity|]. simpl.
  destruct j as [|j]; simpl in Hj.
  - subst b. reflexivity.
  - destruct b; [destruct v|]; simpl; apply IH; exact Hj.
Qed.

Lemma putmask_where {A : Type} (a : list A) (m : list bool) (v : list A)
  (k r : nat) (d : A) :
  length m = length a -> length v = length (where_from k m) ->
  (r < length v)%nat ->
  nth (nth r (where_from k m) 0%nat - k) (putmask a m v) d = nth r v d.
Proof.
  revert m v k r. induction a as [|x a IH]; intros m v k r Hlen Hv Hr.
  - destruct m; [|discriminate]. simpl in Hv. lia.
  - destruct m as [|b m]; [discriminate|]. simpl in Hlen.
    injection Hlen as Hlen. simpl. simpl in Hv.
    assert (Hge : forall r', (r' < length (where_from (S k) m))%nat ->
                    (S k <= nth r' (where_from (S k) m) 0)%nat).
    { intros r' Hr'. pose proof (where_from_ge (S k) m) as Hge.
      rewrite Forall_forall in Hge. apply Hge, nth_In, Hr'. }
    destruct b.
    + destruct v as [|y v]; [discriminate|]. simpl in Hv.
      injection Hv as Hv. destruct r as [|r]; simpl.
      * rewrite Nat.sub_diag. reflexivity.
      * simpl in Hr. specialize (Hge r ltac:(lia)).
        replace (nth r (where_from (S k) m) 0 - k)%nat
          with (S (nth r (where_from (S k) m) 0 - S k))%nat by lia.
        simpl. apply IH; [assumption..|lia].
    + specialize (Hge r ltac:(lia)).
      replace (nth r (where_from (S k) m) 0 - k)%nat
        with (S (nth r (where_from (S k) m) 0 - S k))%nat by lia.
      simpl. apply IH; assumption.
Qed.

Lemma putmask_np_where {A : Type} (a : list A) (m : list bool) (v : list A)
  (r : nat) (d : A) :
  length m = length a -> length v = length (np_where m) ->
  (r < length v)%nat ->
  nth (nth r (np_where m) 0%nat) (putmask a m v) d = nth r v d.
Proof.
  intros Hlen Hv Hr. unfold np_where in *.
  rewrite <- (putmask_where a m v 0 r d Hlen Hv Hr).
  rewrite Nat.sub_0_r. reflexivity.
Qed.

(** ** Minimum, maximum and rounding *)

Lemma fold_min_spec (a : array) (x : Q) :
  fold_left (fun m y => if Qlt_bool y m then y else m) a x <= x /\
  Forall (fun y => fold_left (fun m y => if Qlt_bool y m then y else m) a x
                   <= y) a.
Proof.
  revert x. induction a as [|y a IH]; intros x; simpl.
  - split; [lra | constructor].
  - destruct (IH (if Qlt_bool y x then y else x)) as [H1 H2].
    destruct (Qlt_bool y x) eqn:E;
      [apply Qlt_bool_iff in E | apply Qlt_bool_false_iff in E].
    + split; [lra|]. constructor; assumption.
    + split; [exact H1|]. constructor; [lra | exact H2].
Qed.

Lemma fold_max_spec (a : array) (x : Q) :
  x <= fold_left (fun m y => if Qlt_bool m y then y else m) a x /\
  Forall (fun y => y <= fold_left
                         (fun m y => if Qlt_bool m y then y else m) a x) a.
Proof.
  revert x. induction a as [|y a IH]; intros x; simpl.
  - split; [lra | constructor].
  - destruct (IH (if Qlt_bool x y then y else x)) as [H1 H2].
    destruct (Qlt_bool x y) eqn:E;
      [apply Qlt_bool_iff in E | apply Qlt_bool_false_iff in E].
    + split; [lra|]. constructor; assumption.
    + split; [exact H1|]. constructor; [lra | exact H2].
Qed.

Lemma array_min_spec (p : array) (mn : Q) :
  array_min p = Ok mn -> Forall (fun x => mn <= x) p.
Proof.
  destruct p as [|x p]; [discriminate|]. simpl. intros H.
  injection H as <-. destruct (fold_min_spec p x) as [H1 H2].
  constructor; assumption.
Qed.

Lemma array_max_spec (p : array) (mx : Q) :
  array_max p = Ok mx -> Forall (fun x => x <= mx) p.
Proof.
  destruct p as [|x p]; [discriminate|]. simpl. intros H.
  injection H as <-. destruct (fold_max_spec p x) as [H1 H2].
  constructor; assumption.
Qed.

Lemma py_round_bounds (x : Q) (n : Z) :
  0 <= x -> x <= inject_Z n -> (0 <= py_round x <= n)%Z.
Proof.
  intros H0 Hn. unfold py_round.
  apply Qle_bool_iff in H0 as Hb. rewrite Hb. clear Hb. split.
  - change 0%Z with (Qfloor 0). apply Qfloor_resp_le. clear Hn. lra.
  - apply Z.lt_succ_r. rewrite Zlt_Qlt.
    apply Qle_lt_trans with (x + (1#2)); [apply Qfloor_le|].
    unfold Z.succ. rewrite inject_Z_plus.
    change (inject_Z 1) with 1.
    revert Hn. generalize (inject_Z n). intros q Hq. lra.
Qed.

(** ** Elements of arrays built pairwise *)

Lemma length_map2 {A B C : Type} (f : A -> B -> C) (a : list A)
  (b : list B) :
  length (map2 f a b) = Nat.min (length a) (length b).
Proof. unfold map2. rewrite length_map. apply length_combine. Qed.

Lemma nth_map2 {A B C : Type} (f : A -> B -> C) (a : list A) (b : list B)
  (i : nat) (da : A) (db : B) (dc : C) :
  (i < length a)%nat -> (i < length b)%nat ->
  nth i (map2 f a b) dc = f (nth i a da) (nth i b db).
Proof.
  revert b i. induction a as [|x a IH]; intros b i Ha Hb; simpl in Ha; [lia|].
  destruct b as [|y b]; simpl in Hb; [lia|].
  destruct i as [|i]; [reflexivity|].
  apply (IH b i); lia.
Qed.

Lemma length_removelast {A : Type} (l : list A) :
  length (removelast l) = (length l - 1)%nat.
Proof.
  induction l as [|x l IH]; [reflexivity|].
  destruct l as [|y l]; [reflexivity|].
  change (removelast (x :: y :: l)) with (x :: removelast (y :: l)).
  cbn [length] in *. rewrite IH. lia.
Qed.

Lemma nth_removelast {A : Type} (l : list A) (i : nat) (d : A) :
  (i < length l - 1)%nat -> nth i (removelast l) d = nth i l d.
Proof.
  revert i. induction l as [|x l IH]; intros i Hi; [simpl in Hi; lia|].
  destruct l as [|y l]; [simpl in Hi; lia|].
  change (removelast (x :: y :: l)) with (x :: removelast (y :: l)).
  destruct i as [|i]; [reflexivity|].
  cbn [nth]. apply IH. cbn [length] in *. lia.
Qed.

Lemma nth_tl {A : Type} (l : list A) (i : nat) (d : A) :
  nth i (tl l) d = nth (S i) l d.
Proof. destruct l; [destruct i|]; reflexivity. Qed.

(** ** Bin edges, midpoints and bin indices *)

Lemma nth_bin_midpoints (bins : array) (b : nat) :
  (b < length bins - 1)%nat ->
  nth b (map2 Qplus (all_but_last bins)
           (map (fun d => d / 2) (np_diff bins))) 0
  = bin_midpoint bins b.
Proof.
  intros Hb. unfold all_but_last, np_diff, bin_midpoint.
  rewrite (nth_map2 Qplus _ _ b 0 0 0).
  - rewrite nth_removelast by exact Hb. f_equal.
    rewrite (nth_map_in_range (fun d => d / 2) _ b 0 0).
    + rewrite (nth_map2 _ _ _ b 0 0 0).
      * rewrite nth_tl. reflexivity.
      * lia.
      * rewrite length_tl. exact Hb.
    + rewrite length_map2, length_tl. lia.
  - rewrite length_removelast. exact Hb.
  - rewrite length_map, length_map2, length_tl. lia.
Qed.

Lemma length_bin_midpoints (bins : array) :
  length (map2 Qplus (all_but_last bins)
            (map (fun d => d / 2) (np_diff bins)))
  = (length bins - 1)%nat.
Proof.
  unfold all_but_last, np_diff.
  rewrite length_map2, length_removelast, length_map, length_map2, length_tl.
  lia.
Qed.

Lemma np_linspace_spec (start stop : Q) (num : Z) :
  (2 <= num)%Z ->
  np_linspace start stop num
  = Ok (map (fun i => start + inject_Z (Z.of_nat i)
                              * ((stop - start) / inject_Z (num - 1)))
          (seq 0 (Z.to_nat num))).
Proof.
  intros H. unfold np_linspace.
  destruct (Z.ltb_spec num 0); [lia|].
  destruct (Z.eqb_spec num 1); [lia|]. reflexivity.
Qed.

Lemma filter_length_pos {A : Type} (f : A -> bool) (l : list A) (y : A) :
  In y l -> f y = true -> (1 <= length (filter f l))%nat.
Proof.
  intros Hy Hf.
  assert (H : In y (filter f l)) by (apply filter_In; auto).
  destruct (filter f l); [destruct H | simpl; lia].
Qed.

Lemma filter_length_lt {A : Type} (f : A -> bool) (l : list A) (y : A) :
  In y l -> f y = false -> (length (filter f l) < length l)%nat.
Proof.
  induction l as [|x l IH]; intros Hy Hf; [destruct Hy|]. simpl.
  destruct Hy as [-> | Hy].
  - rewrite Hf. pose proof (filter_length_le f l). lia.
  - specialize (IH Hy Hf). destruct (f x); simpl; lia.
Qed.

(** A value between the first and the last edge falls in one of the bins. *)
Lemma digitize1_range (bins : array) (x : Q) :
  (2 <= length bins)%nat ->
  nth 0 bins 0 <= x -> x < nth (length bins - 1) bins 0 ->
  (0 <= digitize1 bins x - 1 < Z.of_nat (length bins - 1))%Z.
Proof.
  intros Hlen Hlo Hhi. unfold digitize1.
  assert (H1 : (1 <= length (filter (fun b => Qle_bool b x) bins))%nat).
  { apply (filter_length_pos _ _ (nth 0 bins 0)).
    - apply nth_In. lia.
    - apply Qle_bool_iff, Hlo. }
  assert (H2 : (length (filter (fun b => Qle_bool b x) bins)
                < length bins)%nat).
  { apply (filter_length_lt _ _ (nth (length bins - 1) bins 0)).
    - apply nth_In. lia.
    - destruct (Qle_bool _ x) eqn:E; [|reflexivity].
      apply Qle_bool_iff in E. lra. }
  lia.
Qed.

(** ** One turn of the loop over the occupied bins *)

Lemma py_item_in_range {A : Type} (a : list A) (i : Z) (d : A) :
  (0 <= i < Z.of_nat (length a))%Z ->
  py_item a i = Ok (nth (Z.to_nat i) a d).
Proof.
  intros H. unfold py_item, list_item.
  destruct (Z.ltb_spec i 0); [lia|].
  destruct (Z.leb_spec 0 i); [|lia].
  destruct (Z.ltb_spec i (Z.of_nat (length a))); [|lia]. simpl.
  rewrite (nth_error_nth' a d) by lia. reflexivity.
Qed.

Lemma In_firstn {A : Type} (x : A) (k : nat) (l : list A) :
  In x (firstn k l) -> In x l.
Proof.
  intros H. rewrite <- (firstn_skipn k l). apply in_or_app. left. exact H.
Qed.

Section Loop.

(** The secondary property, the split fractions and the bin indices of the
    halos, as [halo_type_calculator] passes them to [split_bin]. *)
Variable sec : array.
Variable frac : array.
Variable idx : list Z.

Lemma members_In (b : Z) (j : nat) :
  In j (members idx b) <->
  (j < length idx)%nat /\
  nth j idx 0%Z = b.
Proof.
  unfold members. rewrite np_where_In. split.
  - intros H.
    assert (Hj : (j < length idx)%nat).
    { destruct (Nat.lt_ge_cases j (length idx)) as [L|L];
        [exact L|].
      rewrite nth_overflow in H by (rewrite length_map; exact L).
      discriminate. }
    split; [exact Hj|].
    rewrite (nth_map_in_range _ _ j 0%Z false Hj) in H.
    apply Z.eqb_eq in H. symmetry. exact H.
  - intros [Hj Hb].
    rewrite (nth_map_in_range _ _ j 0%Z false Hj).
    apply Z.eqb_eq. symmetry. exact Hb.
Qed.

Lemma not_member_mask (b : Z) (j : nat) :
  ~ In j (members idx b) ->
  nth j (map (Z.eqb b) idx) false = false.
Proof.
  intros H. destruct (nth j _ false) eqn:E; [|reflexivity].
  exfalso. apply H. unfold members. apply np_where_In. exact E.
Qed.

Lemma length_bin_order (b : Z) :
  length (bin_order sec idx b) = length (members idx b).
Proof.
  unfold bin_order. rewrite np_argsort_length. apply length_map.
Qed.

Lemma bin_type0_bound (b : Z) :
  Forall (fun i => (i < length (members idx b))%nat) (bin_type0 sec frac idx b).
Proof.
  apply Forall_forall. intros i Hi. unfold bin_type0, py_slice_to in Hi.
  apply In_firstn in Hi.
  pose proof (np_argsort_bound
                (gather 0 sec (members idx b))) as H.
  rewrite Forall_forall in H. specialize (H i Hi).
  unfold gather in H. rewrite length_map in H. exact H.
Qed.

Lemma split_bin_spec (T : array) (b : Z) :
  length sec = length idx ->
  length T = length idx ->
  (0 <= b < Z.of_nat (length frac))%Z ->
  (forall j, In j (members idx b) -> nth j T 0 = 1) ->
  exists T',
    split_bin sec frac
      idx T b = Ok T' /\
    length T' = length T /\
    bin_is_split sec frac idx T' b /\
    forall j, ~ In j (members idx b) -> nth j T' 0 = nth j T 0.
Proof.
  intros Hs HT Hb Hones. unfold split_bin.
  assert (Hmask : length (map (Z.eqb b) idx)
                  = length idx) by apply length_map.
  unfold compress_checked. rewrite Hmask, Hs, Nat.eqb_refl. simpl bind.
  rewrite (compress_gather 0 _ sec)
    by (rewrite Hmask, Hs; reflexivity).
  rewrite (compress_gather 0 _ T) by (rewrite Hmask, HT; reflexivity).
  fold (members idx b). fold (bin_order sec idx b).
  rewrite (py_item_in_range _ b 0 Hb). simpl bind.
  fold (bin_splitting_index sec frac idx b). fold (bin_type0 sec frac idx b).
  assert (Hgather : gather 0 T (members idx b) = ones (length (members idx b))).
  { rewrite ones_map. unfold gather. apply map_ext_in. exact Hones. }
  rewrite Hgather.
  destruct (put_scalar_spec 0 (bin_type0 sec frac idx b)
              (ones (length (members idx b))))
    as [v [Hv [Hlen Hnth]]].
  { unfold ones at 1. rewrite repeat_length. apply bin_type0_bound. }
  rewrite Hv. simpl bind.
  assert (Hlenv : length v = length (members idx b)).
  { rewrite Hlen. unfold ones. apply repeat_length. }
  eexists. split; [reflexivity|]. split; [apply length_putmask|]. split.
  - intros r Hr. unfold members.
    rewrite putmask_np_where.
    + rewrite Hnth. destruct (existsb (Nat.eqb r) (bin_type0 sec frac idx b));
        [reflexivity|].
      unfold ones. apply nth_repeat_lt. exact Hr.
    + rewrite Hmask, HT. reflexivity.
    + exact Hlenv.
    + rewrite Hlenv. exact Hr.
  - intros j Hj. apply putmask_outside, not_member_mask, Hj.
Qed.

(** The loop: each bin of the list is split, the halos of the other bins
    keep their type. *)
Lemma for_each_split_bin (L : list Z) :
  length sec = length idx ->
  forall (done : list Z) (T : array),
  NoDup L ->
  (forall b, In b L -> ~ In b done) ->
  (forall b, In b L ->
     (0 <= b < Z.of_nat (length frac))%Z) ->
  length T = length idx ->
  (forall j, (j < length idx)%nat ->
     ~ In (nth j idx 0%Z) done -> nth j T 0 = 1) ->
  (forall b, In b done -> bin_is_split sec frac idx T b) ->
  exists T',
    for_each
      (split_bin sec frac
         idx) L T = Ok T' /\
    length T' = length idx /\
    (forall j, (j < length idx)%nat ->
       ~ In (nth j idx 0%Z) (L ++ done) ->
       nth j T' 0 = 1) /\
    (forall b, In b (L ++ done) -> bin_is_split sec frac idx T' b).
Proof.
  intros Hs. induction L as [|b L IH];
    intros done T Hnd Hnew Hrange HT Hone Hdone.
  - exists T. simpl. auto.
  - inversion Hnd as [|? ? HbL HndL]; subst.
    destruct (split_bin_spec T b Hs HT) as [T1 [H1 [Hlen1 [Hsplit1 Hout1]]]].
    { apply Hrange. left. reflexivity. }
    { intros j Hj. apply members_In in Hj. destruct Hj as [Hj Hjb].
      apply Hone; [exact Hj|]. rewrite Hjb. apply Hnew. left. reflexivity. }
    destruct (IH (b :: done) T1) as [T' [H' [Hlen' [Hone' Hsplit']]]].
    + exact HndL.
    + intros b' Hb' [E | Hin].
      * subst b'. contradiction.
      * apply (Hnew b'); [right; exact Hb' | exact Hin].
    + intros b' Hb'. apply Hrange. right. exact Hb'.
    + rewrite Hlen1. exact HT.
    + intros j Hj Hnot. rewrite Hout1.
      * apply Hone; [exact Hj|]. intros Hin. apply Hnot. right. exact Hin.
      * intros Hin. apply members_In in Hin. apply Hnot. left.
        symmetry. apply Hin.
    + intros b' [<- | Hb']; [exact Hsplit1|].
      intros r Hr. rewrite Hout1; [apply (Hdone b' Hb' r Hr)|].
      intros Hin. apply members_In in Hin. destruct Hin as [_ Hin].
      assert (Hr' : In (nth r (members idx b') 0%nat) (members idx b'))
        by (apply nth_In; exact Hr).
      apply members_In in Hr'. destruct Hr' as [_ Hr'].
      rewrite Hr' in Hin. subst b'.
      apply (Hnew b); [left; reflexivity | exact Hb'].
    + exists T'. split; [simpl; rewrite H1; exact H'|].
      split; [exact Hlen'|]. split.
      * intros j Hj Hnot. apply Hone'; [exact Hj|].
        intros Hin. apply Hnot. apply in_app_or in Hin. simpl.
        destruct Hin as [Hin | [E | Hin]]; [right|left|right];
          try (apply in_or_app); auto.
      * intros b' Hb'. apply Hsplit'. simpl in Hb'.
        destruct Hb' as [E | Hb']; apply in_or_app.
        -- right. left. exact E.
        -- apply in_app_or in Hb'. destruct Hb'; [left | right; right];
             assumption.
Qed.

End Loop.

(** ** halo_type_calculator *)

Lemma np_linspace_two_edges (start stop : Q) (num : Z) (bins : array) :
  np_linspace start stop num = Ok bins -> (2 <= length bins)%nat ->
  (2 <= num)%Z.
Proof.
  unfold np_linspace. intros H Hlen.
  destruct (Z.ltb_spec num 0); [discriminate|].
  destruct (Z.eqb_spec num 1).
  - injection H as <-. simpl in Hlen. lia.
  - injection H as <-. rewrite length_map, length_seq in Hlen. lia.
Qed.

Lemma bin_edges_bounds (eps : Q) (p : array) (spacing : Q) (bins : array) :
  0 < eps -> bin_edges eps p spacing = Ok bins -> (2 <= length bins)%nat ->
  Forall (fun x => nth 0 bins 0 <= x /\ x < nth (length bins - 1) bins 0) p.
Proof.
  intros Heps H Hlen. unfold bin_edges in H.
  destruct (array_min p) as [mn|] eqn:Hmin; [|discriminate].
  destruct (array_max p) as [mx|] eqn:Hmax; [|discriminate].
  simpl in H.
  pose proof (np_linspace_two_edges _ _ _ _ H Hlen) as Hnum.
  rewrite (np_linspace_spec _ _ _ Hnum) in H. injection H as <-.
  rewrite length_map, length_seq.
  set (num := py_round ((mx + eps - mn) / spacing)) in *.
  set (step := (mx + eps - mn) / inject_Z (num - 1)).
  assert (Hn : (0 < Z.to_nat num)%nat) by lia.
  rewrite (nth_map_in_range _ _ 0 0%nat 0) by (rewrite length_seq; lia).
  rewrite (nth_map_in_range _ _ (Z.to_nat num - 1) 0%nat 0)
    by (rewrite length_seq; lia).
  rewrite !seq_nth by lia. simpl (0 + _)%nat.
  assert (Hlast : mn + inject_Z (Z.of_nat (Z.to_nat num - 1)) * step
                  == mx + eps).
  { replace (Z.of_nat (Z.to_nat num - 1)) with (num - 1)%Z by lia.
    unfold step.
    assert (Hpos : 0 < inject_Z (num - 1)).
    { change 0 with (inject_Z 0). rewrite <- Zlt_Qlt. lia. }
    revert Hpos. generalize (inject_Z (num - 1)). intros d Hd.
    field. lra. }
  assert (Hfirst : mn + inject_Z (Z.of_nat 0) * step == mn).
  { change (inject_Z (Z.of_nat 0)) with 0. ring. }
  pose proof (array_min_spec p mn Hmin) as Hlo.
  pose proof (array_max_spec p mx Hmax) as Hhi.
  rewrite Forall_forall in *. intros x Hx.
  specialize (Hlo x Hx). specialize (Hhi x Hx).
  rewrite Hfirst, Hlast. split; lra.
Qed.

Lemma bin_indices_range (eps : Q) (p : array) (spacing : Q) (bins : array) :
  0 < eps -> bin_edges eps p spacing = Ok bins -> (2 <= length bins)%nat ->
  Forall (fun i => (0 <= i < Z.of_nat (length bins - 1))%Z)
    (map (fun i => (i - 1)%Z) (np_digitize p bins)).
Proof.
  intros Heps H Hlen.
  pose proof (bin_edges_bounds eps p spacing bins Heps H Hlen) as Hb.
  unfold np_digitize. rewrite map_map. apply Forall_forall. intros i Hi.
  apply in_map_iff in Hi. destruct Hi as [x [<- Hx]].
  rewrite Forall_forall in Hb. destruct (Hb x Hx) as [Hlo Hhi].
  apply digitize1_range; assumption.
Qed.

Lemma nth_bin_splitting_fraction (f : Q -> Q) (bins : array) (b : nat) :
  (b < length bins - 1)%nat ->
  let bin_midpoints :=
    map2 Qplus (all_but_last bins) (map (fun d => d / 2) (np_diff bins)) in
  nth b (map2 Qminus (ones (length bin_midpoints))
           (map f bin_midpoints)) 0
  = 1 - f (bin_midpoint bins b).
Proof.
  intros Hb mid.
  assert (Hmid : length mid = (length bins - 1)%nat)
    by apply length_bin_midpoints.
  rewrite (nth_map2 Qminus _ _ b 0 0 0).
  - unfold ones. rewrite nth_repeat_lt by (rewrite Hmid; exact Hb).
    rewrite (nth_map_in_range f mid b 0 0) by (rewrite Hmid; exact Hb).
    unfold mid. rewrite nth_bin_midpoints by exact Hb. reflexivity.
  - unfold ones. rewrite repeat_length, Hmid. exact Hb.
  - rewrite length_map, Hmid. exact Hb.
Qed.

Lemma py_slice_to_nonneg {A : Type} (l : list A) (k : Z) :
  (0 <= k)%Z -> py_slice_to l k = firstn (Z.to_nat k) l.
Proof.
  intros H. unfold py_slice_to. destruct (Z.ltb_spec k 0); [lia|].
  reflexivity.
Qed.

Lemma split_count_bounds (n : nat) (t : Q) :
  0 <= t <= 1 ->
  (0 <= py_round (inject_Z (Z.of_nat n) * (1 - t)) <= Z.of_nat n)%Z.
Proof.
  intros Ht. apply py_round_bounds.
  - apply Qmult_le_0_compat; [|lra].
    change 0 with (inject_Z 0). rewrite <- Zle_Qle. lia.
  - assert (Hn : 0 <= inject_Z (Z.of_nat n)).
    { change 0 with (inject_Z 0). rewrite <- Zle_Qle. lia. }
    revert Hn. generalize (inject_Z (Z.of_nat n)). intros q Hq.
    rewrite (Qmult_comm q (1 - t)).
    apply Qle_trans with (1 * q); [apply Qmult_le_compat_r; lra | lra].
Qed.

Lemma halo_type_calculator_unfold (eps : Q) (p s : array) (f : Q -> Q)
  (spacing : Q) (bins : array) :
  ~ spacing == 0 -> bin_edges eps p spacing = Ok bins ->
  halo_type_calculator eps p s f spacing
  = let bin_midpoints :=
      map2 Qplus (all_but_last bins) (map (fun d => d / 2) (np_diff bins)) in
    let bin_splitting_fraction :=
      map2 Qminus (ones (length bin_midpoints)) (map f bin_midpoints) in
    let array_of_bin_indices :=
      map (fun i => (i - 1)%Z) (np_digitize p bins) in
    for_each (split_bin s bin_splitting_fraction array_of_bin_indices)
      (py_set array_of_bin_indices) (ones (length p)).
Proof.
  intros Hsp H. unfold bin_edges in H. unfold halo_type_calculator.
  destruct (array_min p) as [mn|]; [|discriminate].
  destruct (array_max p) as [mx|]; [|discriminate].
  simpl in H. simpl bind.
  apply Qeq_bool_false_iff in Hsp. rewrite Hsp, H. reflexivity.
Qed.

(** X1. The split rule of [halo_type_calculator], for a catalog that spans at
    least one bin (two bin edges or more): the call returns one type per halo,
    every halo falls in a bin, and in each bin [b] with [n] members and target
    fraction [f1] at the bin midpoint, the members of the [round(n * (1 - f1))]
    lowest ranks of [np_argsort] over the secondary property have type 0 and
    all the others type 1. *)
Theorem halo_type_calculator_split_rule (eps : Q) (p s : array)
  (f : Q -> Q) (spacing : Q) (bins : array) :
  length s = length p -> 0 < eps -> ~ spacing == 0 ->
  bin_edges eps p spacing = Ok bins -> (2 <= length bins)%nat ->
  (forall x, 0 <= f x <= 1) ->
  let indices := map (fun i => (i - 1)%Z) (np_digitize p bins) in
  exists types,
    halo_type_calculator eps p s f spacing = Ok types /\
    length types = length p /\
    Forall (fun i => (0 <= i < Z.of_nat (length bins - 1))%Z) indices /\
    forall b, (b < length bins - 1)%nat ->
      let mem := members indices (Z.of_nat b) in
      let order := np_argsort (gather 0 s mem) in
      let k := py_round (inject_Z (Z.of_nat (length mem))
                         * (1 - f (bin_midpoint bins b))) in
      (0 <= k <= Z.of_nat (length mem))%Z /\
      Permutation order (seq 0 (length mem)) /\
      (forall r1 r2, (r1 < r2 < length mem)%nat ->
         nth (nth (nth r1 order 0%nat) mem 0%nat) s 0
         <= nth (nth (nth r2 order 0%nat) mem 0%nat) s 0) /\
      (forall r, (r < length mem)%nat ->
         nth (nth (nth r order 0%nat) mem 0%nat) types 0
         = if (Z.of_nat r <? k)%Z then 0 else 1).
Proof.
  intros Hs Heps Hsp Hbins Hlen Hf indices.
  rewrite (halo_type_calculator_unfold eps p s f spacing bins Hsp Hbins).
  cbv zeta. fold indices.
  set (mid := map2 Qplus (all_but_last bins)
                (map (fun d => d / 2) (np_diff bins))).
  set (fractions := map2 Qminus (ones (length mid)) (map f mid)).
  pose proof (bin_indices_range eps p spacing bins Heps Hbins Hlen) as Hrange.
  fold indices in Hrange.
  assert (Hind : length indices = length p).
  { unfold indices, np_digitize. rewrite !length_map. reflexivity. }
  assert (Hfrac : length fractions = (length bins - 1)%nat).
  { unfold fractions. rewrite length_map2, length_map. unfold ones.
    rewrite repeat_length, Nat.min_id. apply length_bin_midpoints. }
  destruct (for_each_split_bin s fractions indices (py_set indices)
              ltac:(congruence) [] (ones (length p)))
    as [types [Htypes [Hlt [_ Hsplit]]]].
  { apply NoDup_nodup. }
  { intros b _ []. }
  { intros b Hb. apply nodup_In in Hb. rewrite Forall_forall in Hrange.
    rewrite Hfrac. apply Hrange, Hb. }
  { unfold ones. rewrite repeat_length. symmetry. exact Hind. }
  { intros j Hj _. unfold ones. apply nth_repeat_lt. lia. }
  { intros b []. }
  exists types. split; [exact Htypes|]. split; [congruence|].
  split; [exact Hrange|].
  intros b Hb.
  set (mem := members indices (Z.of_nat b)).
  set (order := np_argsort (gather 0 s mem)).
  set (k := py_round (inject_Z (Z.of_nat (length mem))
                      * (1 - f (bin_midpoint bins b)))).
  assert (Hgl : length (gather 0 s mem) = length mem) by apply length_map.
  assert (Hol : length order = length mem).
  { unfold order. rewrite np_argsort_length. exact Hgl. }
  assert (Hk : (0 <= k <= Z.of_nat (length mem))%Z).
  { apply split_count_bounds, Hf. }
  assert (Hob : forall r, (r < length mem)%nat ->
                  (nth r order 0 < length mem)%nat).
  { intros r Hr. pose proof (np_argsort_bound (gather 0 s mem)) as H.
    rewrite Forall_forall in H. rewrite <- Hgl. apply H.
    apply nth_In. fold order. lia. }
  split; [exact Hk|]. split; [|split].
  - unfold order. rewrite <- Hgl. apply np_argsort_perm.
  - intros r1 r2 [H12 H2].
    pose proof (StronglySorted_nth _ _ 0%nat r1 r2
                  (np_argsort_sorted (gather 0 s mem)) H12) as Hsorted.
    fold order in Hsorted. rewrite Hol in Hsorted. specialize (Hsorted H2).
    unfold gather in Hsorted.
    rewrite !(nth_map_in_range _ mem _ 0%nat 0) in Hsorted
      by (apply Hob; lia).
    exact Hsorted.
  - intros r Hr.
    assert (Hin : In (Z.of_nat b) (py_set indices ++ [])).
    { rewrite app_nil_r. apply nodup_In.
      assert (Hm : In (nth 0 mem 0%nat) mem) by (apply nth_In; lia).
      apply members_In in Hm. destruct Hm as [Hj <-].
      apply nth_In. exact Hj. }
    assert (Htype0 : bin_type0 s fractions indices (Z.of_nat b)
                     = firstn (Z.to_nat k) order).
    { unfold bin_type0, bin_splitting_index, bin_order.
      fold mem. fold order. rewrite Nat2Z.id.
      unfold fractions, mid.
      rewrite nth_bin_splitting_fraction by exact Hb.
      rewrite Hol. fold k. apply py_slice_to_nonneg. lia. }
    pose proof (Hsplit _ Hin (nth r order 0%nat) (Hob r Hr)) as Hrule.
    fold mem in Hrule. rewrite Hrule, Htype0.
    rewrite existsb_firstn_rank.
    + destruct (Nat.ltb_spec r (Z.to_nat k));
        destruct (Z.ltb_spec (Z.of_nat r) k); try reflexivity; lia.
    + apply np_argsort_NoDup.
    + lia.
Qed.

Lemma halo_type_calculator_split_rule_witness :
  let indices :=
    map (fun i => (i - 1)%Z) (np_digitize example_primary example_bins) in
  exists types,
    halo_type_calculator 0.001 example_primary example_secondary
      example_fraction 0.35 = Ok types /\
    length types = length example_primary /\
    Forall (fun i => (0 <= i < Z.of_nat (length example_bins - 1))%Z)
      indices /\
    forall b, (b < length example_bins - 1)%nat ->
      let mem := members indices (Z.of_nat b) in
      let order := np_argsort (gather 0 example_secondary mem) in
      let k := py_round (inject_Z (Z.of_nat (length mem))
                         * (1 - example_fraction
                                  (bin_midpoint example_bins b))) in
      (0 <= k <= Z.of_nat (length mem))%Z /\
      Permutation order (seq 0 (length mem)) /\
      (forall r1 r2, (r1 < r2 < length mem)%nat ->
         nth (nth (nth r1 order 0%nat) mem 0%nat) example_secondary 0
         <= nth (nth (nth r2 order 0%nat) mem 0%nat) example_secondary 0) /\
      (forall r, (r < length mem)%nat ->
         nth (nth (nth r order 0%nat) mem 0%nat) types 0
         = if (Z.of_nat r <? k)%Z then 0 else 1).
Proof.
  apply (halo_type_calculator_split_rule 0.001 example_primary
           example_secondary example_fraction 0.35 example_bins).
  - reflexivity.
  - reflexivity.
  - discriminate.
  - vm_compute. reflexivity.
  - simpl. lia.
  - intros x. split; discriminate.
Defined.

(** The types of the example: each bin holds four halos and the target
    fraction is 0.3, so in each the three halos of lowest secondary property
    are type 0 and the fourth is type 1. *)
Example halo_type_calculator_example :
  halo_type_calculator 0.001 example_primary example_secondary
    example_fraction 0.35 = Ok [0; 1; 0; 0; 0; 0; 0; 1]
  /\ bin_edges 0.001 example_primary 0.35 = Ok example_bins.
Proof. split; vm_compute; reflexivity. Qed.

(** ** Catalogs narrower than one bin and a half *)

Lemma py_round_below_half (y : Q) : 0 <= y -> y < 1 # 2 -> py_round y = 0%Z.
Proof.
  intros H0 H1. unfold py_round.
  apply Qle_bool_iff in H0 as Hb. rewrite Hb.
  assert (Hlo : (0 <= Qfloor (y + (1 # 2)))%Z).
  { change 0%Z with (Qfloor 0). apply Qfloor_resp_le. lra. }
  assert (Hhi : (Qfloor (y + (1 # 2)) < 1)%Z).
  { rewrite Zlt_Qlt.
    apply Qle_lt_trans with (y + (1 # 2)); [apply Qfloor_le|].
    change (inject_Z 1) with 1. lra. }
  lia.
Qed.

(** X2. A catalog of one halo, with the bin spacing more than twice the
    epsilon that widens the range: no bin edge is laid out, and the lookup of
    the split fraction of the halo's bin raises. *)
Lemma halo_type_calculator_single_halo (eps x sx : Q) (f : Q -> Q)
  (spacing : Q) :
  0 < eps -> 0 < spacing -> eps / spacing < 1 # 2 ->
  halo_type_calculator eps [x] [sx] f spacing = Raise IndexError.
Proof.
  intros Heps Hsp Hratio. unfold halo_type_calculator. simpl bind.
  assert (Hne : Qeq_bool spacing 0 = false)
    by (apply Qeq_bool_false_iff; lra).
  rewrite Hne.
  assert (Hround : py_round ((x + eps - x) / spacing) = 0%Z).
  { apply py_round_below_half.
    - apply Qle_shift_div_l; lra.
    - assert (E : (x + eps - x) / spacing == eps / spacing)
        by (field; lra).
      rewrite E. exact Hratio. }
  cbn [array_min array_max fold_left]. rewrite Hround. reflexivity.
Qed.

Lemma halo_type_calculator_single_halo_witness :
  halo_type_calculator 0.00001 [12] [0] example_fraction 0.1
  = Raise IndexError.
Proof.
  apply (halo_type_calculator_single_halo 0.00001 12 0 example_fraction 0.1);
    reflexivity.
Defined.

(** C5, evaluated where it fails: with the spacing 0.1 and the epsilon 1e-5,
    a catalog of one halo, and a catalog of three halos that spans 0.14,
    make [halo_type_calculator] raise [IndexError] instead of returning
    types; a catalog that spans 0.15 is classified. *)
Example halo_type_calculator_narrow_catalog :
  halo_type_calculator 0.00001 [12] [0] (fun _ => 0.3) 0.1
    = Raise IndexError
  /\ halo_type_calculator 0.00001 [12; 12.05; 12.14] [0; 1; 2]
       (fun _ => 0.3) 0.1 = Raise IndexError
  /\ halo_type_calculator 0.00001 [12; 12.05; 12.15] [0; 1; 2]
       (fun _ => 0.3) 0.1 = Ok [0; 0; 1].
Proof. repeat split; vm_compute; reflexivity. Qed.

(** ** Catalogs and spacings that cannot be binned *)



Example halo_type_calculator_zero_spacing :
  halo_type_calculator 0.00001 [12; 13] [0; 1] example_fraction 0
  = Raise OverflowError.
Proof. reflexivity. Qed.

(** ** Catalogs with halo types of both kinds

    A catalog and its halo types, of the same length, are read as one list of
    pairs, over which every array of the methods is a [map]. *)

Lemma combine_map_fst_snd {A B : Type} (l : list (A * B)) :
  combine (map fst l) (map snd l) = l.
Proof.
  induction l as [|[a b] l IH]; simpl; [reflexivity | rewrite IH; reflexivity].
Qed.

Lemma map_fst_combine_same {A B : Type} (a : list A) (b : list B) :
  length b = length a -> map fst (combine a b) = a.
Proof.
  revert b. induction a as [|x a IH]; intros [|y b] H; simpl in *;
    try reflexivity; try discriminate.
  f_equal. apply IH. lia.
Qed.

Lemma map_snd_combine_same {A B : Type} (a : list A) (b : list B) :
  length b = length a -> map snd (combine a b) = b.
Proof.
  revert b. induction a as [|x a IH]; intros [|y b] H; simpl in *;
    try reflexivity; try discriminate.
  f_equal. apply IH. lia.
Qed.

Lemma map2_pairs {A B C : Type} (f : A -> B -> C) (l : list (A * B)) :
  map2 f (map fst l) (map snd l) = map (fun xt => f (fst xt) (snd xt)) l.
Proof. unfold map2. rewrite combine_map_fst_snd. reflexivity. Qed.

Lemma map2_bool_map {A : Type} (f : bool -> bool -> bool) (a b : A -> bool)
  (p : list A) :
  map2 f (map a p) (map b p) = map (fun x => f (a x) (b x)) p.
Proof. apply map2_map. Qed.

(** The type fraction of a halo with primary property [x] and label [t]. *)
Lemma flip_at_type0 (F : Q -> Q) (pt : list (Q * Q)) :
  (at_idx0 <-
     take (map F (map fst pt)) (np_where (eq_scalar (map snd pt) 0)) ;;
   put (map F (map fst pt)) (np_where (eq_scalar (map snd pt) 0))
     (one_minus at_idx0))
  = Ok (map (fun xt => labelled_fraction F (fst xt) (snd xt)) pt).
Proof.
  assert (Hidx : Forall (fun i => (i < length (map fst pt))%nat)
                   (np_where (eq_scalar (map snd pt) 0))).
  { replace (length (map fst pt))
      with (length (eq_scalar (map snd pt) 0))
      by (unfold eq_scalar; rewrite !length_map; reflexivity).
    apply np_where_bound. }
  rewrite (take_map 0 F) by exact Hidx. simpl.
  unfold one_minus, gather. rewrite (map_map _ (fun x => 1 - x)).
  rewrite (map_map _ (fun x => 1 - F x)).
  destruct (put_map_idx (fun i => 1 - F (nth i (map fst pt) 0))
              (np_where (eq_scalar (map snd pt) 0)) (map F (map fst pt)))
    as [r [Hr [Hl Hn]]].
  { rewrite length_map. exact Hidx. }
  rewrite Hr. f_equal.
  apply (nth_ext _ _ 0 0).
  - rewrite Hl, !length_map. reflexivity.
  - intros i Hi. rewrite Hl, !length_map in Hi.
    rewrite Hn, existsb_np_where.
    rewrite (nth_map_in_range _ pt i (0, 0) 0 Hi).
    unfold eq_scalar. rewrite !map_map.
    rewrite (nth_map_in_range _ pt i (0, 0) false Hi).
    rewrite !(nth_map_in_range _ pt i (0, 0) 0 Hi).
    unfold labelled_fraction. reflexivity.
Qed.

Section Labelled.

Variable self : Assembly_Biased_HOD_Model.

Let F1c := halo_type1_fraction_centrals self.
Let F1s := halo_type1_fraction_satellites self.
Let Ncen := baseline_mean_ncen self.

Lemma halo_type_fraction_centrals_pairs (pt : list (Q * Q)) :
  halo_type_fraction_centrals self (map fst pt) (map snd pt)
  = Ok (map (fun xt => labelled_fraction F1c (fst xt) (snd xt)) pt).
Proof. apply flip_at_type0. Qed.

Lemma halo_type_fraction_satellites_pairs (pt : list (Q * Q)) :
  halo_type_fraction_satellites self (map fst pt) (map snd pt)
  = Ok (map (fun xt => labelled_fraction F1s (fst xt) (snd xt)) pt).
Proof. apply flip_at_type0. Qed.

Lemma maximum_destruction_centrals_pairs (pt : list (Q * Q)) :
  maximum_destruction_centrals self (map fst pt) (map snd pt)
  = Ok (map (fun xt =>
               ceiling_centrals (labelled_fraction F1c (fst xt) (snd xt))
                 (Ncen (fst xt) (snd xt))) pt).
Proof.
  unfold maximum_destruction_centrals.
  rewrite halo_type_fraction_centrals_pairs. simpl.
  rewrite map2_pairs, length_map.
  to_map. reflexivity.
Qed.

Lemma minimum_destruction_centrals_pairs (pt : list (Q * Q)) :
  minimum_destruction_centrals self (map fst pt) (map snd pt)
  = Ok (map (fun xt =>
               floor_centrals (labelled_fraction F1c (fst xt) (snd xt))
                 (Ncen (fst xt) (snd xt))) pt).
Proof.
  unfold minimum_destruction_centrals.
  rewrite halo_type_fraction_centrals_pairs. simpl.
  rewrite map2_pairs, length_map.
  to_map. reflexivity.
Qed.

End Labelled.

(** ** The floor and the ceiling, one halo at a time *)

Lemma floor_centrals_nonneg (F N : Q) : 0 <= floor_centrals F N.
Proof. unfold floor_centrals. case_tests; lra. Qed.

Lemma floor_value (F N : Q) :
  0 < F -> 0 < N -> (1 - (1 - F) / N) / F == (N - 1 + F) / (N * F).
Proof. intros HF HN. field. split; lra. Qed.

Lemma floor_value_le (F N d : Q) :
  0 < F -> 0 < N -> ((N - 1 + F) / (N * F) <= d <-> N - 1 + F <= d * (N * F)).
Proof.
  intros HF HN.
  assert (HNF : 0 < N * F) by (apply Qmult_lt_0_compat; assumption).
  split; intros H.
  - apply (Qmult_le_compat_r _ _ (N * F)) in H; [|lra].
    rewrite Qdiv_mult_cancel in H by lra. exact H.
  - apply Qle_shift_div_r; assumption.
Qed.

Lemma floor_le_ceiling (F N : Q) :
  0 <= F <= 1 -> N <= 1 -> floor_centrals F N <= ceiling_centrals F N.
Proof.
  intros [HF0 HF1] HN.
  destruct (Qlt_le_dec 0 F) as [HF|HF];
    [destruct (Qlt_le_dec 0 N) as [HN0|HN0]|].
  - rewrite ceiling_centrals_both_positive by assumption.
    assert (H1 : floor_centrals F N <= 1 / F).
    { unfold floor_centrals. apply Qlt_bool_iff in HF as EF.
      apply Qlt_bool_iff in HN0 as EN. rewrite EF, EN. simpl.
      pose proof (reciprocal_pos F HF).
      case_tests; [lra|].
      rewrite floor_value by assumption.
      apply Qle_shift_div_r; [apply Qmult_lt_0_compat; assumption|].
      setoid_replace (1 / F * (N * F)) with N by (field; lra). lra. }
    assert (H2 : floor_centrals F N <= 1 / N).
    { unfold floor_centrals. apply Qlt_bool_iff in HF as EF.
      apply Qlt_bool_iff in HN0 as EN. rewrite EF, EN. simpl.
      pose proof (reciprocal_pos N HN0).
      case_tests; [lra|].
      rewrite floor_value by assumption.
      apply Qle_shift_div_r; [apply Qmult_lt_0_compat; assumption|].
      setoid_replace (1 / N * (N * F)) with F by (field; lra). lra. }
    apply Q.min_glb; assumption.
  - unfold floor_centrals. apply Qlt_bool_iff in HF as EF.
    apply Qlt_bool_false_iff in HN0 as EN. rewrite EF, EN. simpl.
    replace (Qlt_bool 0 0) with false by reflexivity.
    apply ceiling_centrals_nonneg.
  - unfold floor_centrals. apply Qlt_bool_false_iff in HF as EF.
    rewrite EF. simpl.
    replace (Qlt_bool 0 0) with false by reflexivity.
    apply ceiling_centrals_nonneg.
Qed.

Lemma labelled_fraction_bounds (F : Q -> Q) (x t : Q) :
  0 <= F x <= 1 -> 0 <= labelled_fraction F x t <= 1.
Proof.
  intros H. unfold labelled_fraction. destruct (Qeq_bool t 0); lra.
Qed.

(** X3. [minimum_destruction_centrals] returns one value per halo, none of
    them negative; at a halo whose type-1 fraction lies in [[0, 1]] and whose
    baseline central occupation is at most 1, the value is at most the
    ceiling that [maximum_destruction_centrals] returns for the same
    labels. *)
Theorem minimum_destruction_centrals_bounds (self : Assembly_Biased_HOD_Model)
  (p halo_type : array) (i : nat) :
  length halo_type = length p -> (i < length p)%nat ->
  0 <= halo_type1_fraction_centrals self (nth i p 0) <= 1 ->
  baseline_mean_ncen self (nth i p 0) (nth i halo_type 0) <= 1 ->
  exists lo hi,
    minimum_destruction_centrals self p halo_type = Ok lo /\
    maximum_destruction_centrals self p halo_type = Ok hi /\
    length lo = length p /\
    Forall (fun d => 0 <= d) lo /\
    nth i lo 0 <= nth i hi 0.
Proof.
  intros L Hi HF HN.
  pose proof (minimum_destruction_centrals_pairs self (combine p halo_type))
    as Hlo.
  pose proof (maximum_destruction_centrals_pairs self (combine p halo_type))
    as Hhi.
  rewrite (map_fst_combine_same p halo_type L),
    (map_snd_combine_same p halo_type L) in Hlo, Hhi.
  assert (Hc : length (combine p halo_type) = length p).
  { rewrite length_combine, L. apply Nat.min_id. }
  eexists. eexists. split; [exact Hlo|]. split; [exact Hhi|].
  split; [rewrite length_map; exact Hc|].
  split.
  - apply Forall_forall. intros d Hd. apply in_map_iff in Hd.
    destruct Hd as [xt [<- _]]. apply floor_centrals_nonneg.
  - rewrite <- Hc in Hi.
    rewrite !(nth_map_in_range _ (combine p halo_type) i (0, 0) 0 Hi).
    rewrite combine_nth by (symmetry; exact L). simpl.
    apply floor_le_ceiling; [|exact HN].
    apply labelled_fraction_bounds, HF.
Qed.

Lemma minimum_destruction_centrals_bounds_witness :
  exists lo hi,
    minimum_destruction_centrals example_model [0; 1; 2] [1; 0; 1] = Ok lo /\
    maximum_destruction_centrals example_model [0; 1; 2] [1; 0; 1] = Ok hi /\
    length lo = length [0; 1; 2] /\
    Forall (fun d => 0 <= d) lo /\
    nth 1 lo 0 <= nth 1 hi 0.
Proof.
  apply (minimum_destruction_centrals_bounds example_model [0; 1; 2]
           [1; 0; 1] 1%nat);
    first [reflexivity | simpl; lia
          | vm_compute; split; discriminate | vm_compute; discriminate].
Defined.

(** ** Mean occupations conditioned on the halo type *)

Lemma mean_ncen_elements (self : Assembly_Biased_HOD_Model)
  (p halo_type : array) :
  length halo_type = length p ->
  exists m,
    mean_ncen self p halo_type = Ok m /\
    length m = length p /\
    forall i, (i < length p)%nat ->
      nth i m 0 =
        (if Qeq_bool (nth i halo_type 0) 0
         then type0_value (D1_centrals self (nth i p 0))
                (halo_type1_fraction_centrals self (nth i p 0))
         else D1_centrals self (nth i p 0))
        * baseline_mean_ncen self (nth i p 0) (nth i halo_type 0).
Proof.
  intros L.
  destruct (destruction_centrals_elements self p halo_type L)
    as [r [Hr [Lr Er]]].
  unfold mean_ncen. rewrite Hr. simpl.
  eexists. split; [reflexivity|]. split.
  - rewrite !length_map2, Lr, L. rewrite !Nat.min_id. reflexivity.
  - intros i Hi.
    rewrite (nth_map2 Qmult _ _ i 0 0 0);
      [|lia|rewrite length_map2, L, Nat.min_id; exact Hi].
    rewrite (nth_map2 _ p halo_type i 0 0 0) by lia.
    rewrite (Er i Hi). reflexivity.
Qed.

Lemma mean_nsat_elements (self : Assembly_Biased_HOD_Model)
  (p halo_type : array) :
  length halo_type = length p ->
  exists m,
    mean_nsat self p halo_type = Ok m /\
    length m = length p /\
    forall i, (i < length p)%nat ->
      nth i m 0 =
        (if Qeq_bool (nth i halo_type 0) 0
         then type0_value (D1_satellites self (nth i p 0))
                (halo_type1_fraction_satellites self (nth i p 0))
         else D1_satellites self (nth i p 0))
        * baseline_mean_nsat self (nth i p 0) (nth i halo_type 0).
Proof.
  intros L.
  destruct (destruction_satellites_elements self p halo_type L)
    as [r [Hr [Lr Er]]].
  unfold mean_nsat. rewrite Hr. simpl.
  eexists. split; [reflexivity|]. split.
  - rewrite !length_map2, Lr, L. rewrite !Nat.min_id. reflexivity.
  - intros i Hi.
    rewrite (nth_map2 Qmult _ _ i 0 0 0);
      [|lia|rewrite length_map2, L, Nat.min_id; exact Hi].
    rewrite (nth_map2 _ p halo_type i 0 0 0) by lia.
    rewrite (Er i Hi). reflexivity.
Qed.

Lemma ceiling_centrals_le_case2 (F N : Q) :
  0 < N -> ceiling_centrals F N <= 1 / N.
Proof.
  intros HN. pose proof (reciprocal_pos N HN).
  unfold ceiling_centrals. case_tests; lra.
Qed.

Lemma clamp_times_occupation (u F N : Q) :
  0 <= N <= 1 ->
  0 <= clamp_type1 u (ceiling_centrals F N) F * N <= 1.
Proof.
  intros [HN0 HN1].
  pose proof (clamp_type1_nonneg u (ceiling_centrals F N) F
                (ceiling_centrals_nonneg F N)) as Hd.
  split; [apply Qmult_le_0_compat; assumption|].
  destruct (Qeq_bool F 1) eqn:E.
  - apply Qeq_bool_iff in E. rewrite clamp_type1_override by exact E. lra.
  - apply Qeq_bool_false_iff in E.
    destruct (Qlt_le_dec 0 N) as [H|H].
    + apply le_reciprocal_mult; [exact H|].
      apply Qle_trans with (ceiling_centrals F N).
      * apply clamp_type1_le_ceiling, E.
      * apply ceiling_centrals_le_case2, H.
    + assert (E0 : N == 0) by lra.
      generalize (clamp_type1 u (ceiling_centrals F N) F). intros c.
      rewrite E0. lra.
Qed.

(** X4. The central occupation of type-1 halos is a probability: at a halo
    labelled 1 whose baseline central occupation lies in [[0, 1]], the value
    that [mean_ncen] of the assembly-biased model returns lies in [[0, 1]],
    whatever the unconstrained destruction function and the type fraction
    are. *)
Theorem mean_ncen_type1_is_probability (self : Assembly_Biased_HOD_Model)
  (p halo_type : array) (i : nat) :
  length halo_type = length p -> (i < length p)%nat ->
  nth i halo_type 0 = 1 ->
  0 <= baseline_mean_ncen self (nth i p 0) 1 <= 1 ->
  exists m,
    mean_ncen self p halo_type = Ok m /\
    length m = length p /\
    0 <= nth i m 0 <= 1.
Proof.
  intros L Hi T HN.
  destruct (mean_ncen_elements self p halo_type L) as [m [Hm [Lm Em]]].
  exists m. split; [exact Hm|]. split; [exact Lm|].
  rewrite (Em i Hi), T. simpl.
  apply clamp_times_occupation, HN.
Qed.

Lemma mean_ncen_type1_is_probability_witness :
  exists m,
    mean_ncen example_model [0; 1; 2] [1; 1; 1] = Ok m /\
    length m = length [0; 1; 2] /\
    0 <= nth 1 m 0 <= 1.
Proof.
  apply (mean_ncen_type1_is_probability example_model [0; 1; 2] [1; 1; 1]
           1%nat);
    first [reflexivity | simpl; lia | vm_compute; split; discriminate].
Defined.

(** ** The floor that is not applied *)

Lemma minimum_destruction_centrals_all_ones (self : Assembly_Biased_HOD_Model)
  (p : array) :
  minimum_destruction_centrals self p (ones (length p))
  = Ok (map (fun x => floor_centrals (halo_type1_fraction_centrals self x)
                        (baseline_mean_ncen self x 1)) p).
Proof.
  unfold minimum_destruction_centrals.
  rewrite halo_type_fraction_centrals_all_ones. simpl.
  to_map. reflexivity.
Qed.

Lemma destruction_centrals_all_ones (self : Assembly_Biased_HOD_Model)
  (p : array) :
  destruction_centrals self p (ones (length p))
  = Ok (map (D1_centrals self) p).
Proof.
  destruct (destruction_centrals_elements self p (ones (length p)))
    as [r [Hr [Lr Er]]].
  { unfold ones. apply repeat_length. }
  rewrite Hr. f_equal. apply (nth_ext _ _ 0 0).
  - rewrite Lr, length_map. reflexivity.
  - intros i Hi. rewrite Lr in Hi. rewrite (Er i Hi).
    rewrite (nth_map_in_range _ p i 0 0 Hi).
    unfold ones.
    rewrite (nth_indep _ 0 1) by (rewrite repeat_length; exact Hi).
    rewrite nth_repeat. reflexivity.
Qed.

Lemma type0_occupation (d F N : Q) :
  0 < F -> F < 1 -> 0 < N ->
  (type0_value d F * N <= 1 <-> N - 1 + F <= d * (N * F)).
Proof.
  intros HF0 HF1 HN. unfold type0_value.
  assert (E1 : Qlt_bool 0 (1 - F) = true) by (apply Qlt_bool_iff; lra).
  assert (E2 : Qeq_bool (1 - F) 0 = false)
    by (apply Qeq_bool_false_iff; lra).
  rewrite E1, E2.
  assert (Hv : (1 - d * F) / (1 - F) * N * (1 - F) == N - d * (N * F))
    by (field; lra).
  split; intros H.
  - apply (Qmult_le_compat_r _ _ (1 - F)) in H; [|lra].
    rewrite Hv in H. lra.
  - setoid_replace ((1 - d * F) / (1 - F) * N)
      with ((N - d * (N * F)) / (1 - F)) by (field; lra).
    apply Qle_shift_div_r; lra.
Qed.

Lemma floor_centrals_le (d F N : Q) :
  0 < F -> 0 < N -> 0 <= d ->
  (floor_centrals F N <= d <-> N - 1 + F <= d * (N * F)).
Proof.
  intros HF HN Hd. unfold floor_centrals.
  apply Qlt_bool_iff in HF as EF. apply Qlt_bool_iff in HN as EN.
  rewrite EF, EN. cbn [andb]. cbv zeta.
  assert (HNF : 0 < N * F) by (apply Qmult_lt_0_compat; assumption).
  assert (Hd' : 0 <= d * (N * F)) by (apply Qmult_le_0_compat; lra).
  case_tests.
  - split; intros _; [|exact Hd].
    rewrite (floor_value F N HF HN) in E.
    apply (Qmult_lt_compat_r _ _ (N * F)) in E; [|exact HNF].
    rewrite Qdiv_mult_cancel in E by lra. lra.
  - rewrite (floor_value F N HF HN).
    apply floor_value_le; assumption.
Qed.

(** X5. When the central occupation of type-0 halos is a probability: at a
    halo with type-1 fraction strictly between 0 and 1 and a baseline central
    occupation in (0, 1] that does not depend on the halo type, the value of
    [mean_ncen] for the halo labelled 0 is at most 1 exactly when the
    type-1 value of [destruction_centrals] is at least the floor that
    [minimum_destruction_centrals] computes.  [destruction_centrals] does not
    apply that floor. *)
Theorem mean_ncen_type0_at_most_one_iff (self : Assembly_Biased_HOD_Model)
  (p halo_type : array) (i : nat) :
  length halo_type = length p -> (i < length p)%nat ->
  nth i halo_type 0 = 0 ->
  0 < halo_type1_fraction_centrals self (nth i p 0) ->
  halo_type1_fraction_centrals self (nth i p 0) < 1 ->
  0 < baseline_mean_ncen self (nth i p 0) 1 ->
  baseline_mean_ncen self (nth i p 0) 0
    == baseline_mean_ncen self (nth i p 0) 1 ->
  exists m lo d1,
    mean_ncen self p halo_type = Ok m /\
    minimum_destruction_centrals self p (ones (length p)) = Ok lo /\
    destruction_centrals self p (ones (length p)) = Ok d1 /\
    (nth i m 0 <= 1 <-> nth i lo 0 <= nth i d1 0).
Proof.
  intros L Hi T HF0 HF1 HN HN0.
  destruct (mean_ncen_elements self p halo_type L) as [m [Hm [Lm Em]]].
  exists m. eexists. eexists.
  split; [exact Hm|].
  split; [apply minimum_destruction_centrals_all_ones|].
  split; [apply destruction_centrals_all_ones|].
  rewrite (Em i Hi), T, !(nth_map_in_range _ p i 0 0 Hi). simpl.
  rewrite HN0.
  rewrite type0_occupation by assumption.
  rewrite floor_centrals_le;
    [reflexivity | assumption | assumption | apply D1_centrals_nonneg].
Qed.

Lemma mean_ncen_type0_at_most_one_iff_witness :
  exists m lo d1,
    mean_ncen example_model_no_floor [12; 13] [0; 1] = Ok m /\
    minimum_destruction_centrals example_model_no_floor [12; 13]
      (ones (length [12; 13])) = Ok lo /\
    destruction_centrals example_model_no_floor [12; 13]
      (ones (length [12; 13])) = Ok d1 /\
    (nth 0 m 0 <= 1 <-> nth 0 lo 0 <= nth 0 d1 0).
Proof.
  apply (mean_ncen_type0_at_most_one_iff example_model_no_floor [12; 13]
           [0; 1] 0%nat);
    first [reflexivity | simpl; lia].
Defined.

(** On that model the floor is 1 (as the fraction 2/2) where
    [destruction_centrals] returns 0, and the halo labelled 0 receives a
    central occupation of 2 (as the fraction 4/2). *)
Example mean_ncen_type0_exceeds_one :
  mean_ncen example_model_no_floor [12; 13] [0; 1] = Ok [4 # 2; 0] /\
  minimum_destruction_centrals example_model_no_floor [12; 13] [1; 1]
    = Ok [2 # 2; 2 # 2] /\
  destruction_centrals example_model_no_floor [12; 13] [1; 1] = Ok [0; 0].
Proof. repeat split. Qed.

(** ** The two type fractions of a halo *)

(** X6. The type fractions are complementary: for one catalog and two label
    arrays, at a halo that the first labels 0 and the second does not, the
    values returned by [halo_type_fraction_centrals] add up to 1, and so do
    those of [halo_type_fraction_satellites]. *)
Theorem halo_type_fractions_sum_to_one (self : Assembly_Biased_HOD_Model)
  (p halo_type0 halo_type1 : array) (i : nat) :
  length halo_type0 = length p -> length halo_type1 = length p ->
  (i < length p)%nat ->
  nth i halo_type0 0 == 0 -> ~ nth i halo_type1 0 == 0 ->
  exists c0 c1 s0 s1,
    halo_type_fraction_centrals self p halo_type0 = Ok c0 /\
    halo_type_fraction_centrals self p halo_type1 = Ok c1 /\
    halo_type_fraction_satellites self p halo_type0 = Ok s0 /\
    halo_type_fraction_satellites self p halo_type1 = Ok s1 /\
    length c0 = length p /\ length c1 = length p /\
    length s0 = length p /\ length s1 = length p /\
    nth i c0 0 + nth i c1 0 == 1 /\
    nth i s0 0 + nth i s1 0 == 1.
Proof.
  intros L0 L1 Hi T0 T1.
  pose proof (halo_type_fraction_centrals_pairs self (combine p halo_type0))
    as Hc0.
  pose proof (halo_type_fraction_centrals_pairs self (combine p halo_type1))
    as Hc1.
  pose proof (halo_type_fraction_satellites_pairs self (combine p halo_type0))
    as Hs0.
  pose proof (halo_type_fraction_satellites_pairs self (combine p halo_type1))
    as Hs1.
  rewrite (map_fst_combine_same p halo_type0 L0),
    (map_snd_combine_same p halo_type0 L0) in Hc0, Hs0.
  rewrite (map_fst_combine_same p halo_type1 L1),
    (map_snd_combine_same p halo_type1 L1) in Hc1, Hs1.
  assert (C0 : length (combine p halo_type0) = length p)
    by (rewrite length_combine, L0; apply Nat.min_id).
  assert (C1 : length (combine p halo_type1) = length p)
    by (rewrite length_combine, L1; apply Nat.min_id).
  do 4 eexists.
  split; [exact Hc0|]. split; [exact Hc1|].
  split; [exact Hs0|]. split; [exact Hs1|].
  rewrite !length_map.
  repeat (split; [assumption|]).
  assert (Hi0 : (i < length (combine p halo_type0))%nat) by lia.
  assert (Hi1 : (i < length (combine p halo_type1))%nat) by lia.
  rewrite !(nth_map_in_range _ (combine p halo_type0) i (0, 0) 0 Hi0).
  rewrite !(nth_map_in_range _ (combine p halo_type1) i (0, 0) 0 Hi1).
  rewrite !combine_nth by (symmetry; assumption). simpl.
  unfold labelled_fraction.
  apply Qeq_bool_iff in T0. apply Qeq_bool_false_iff in T1.
  rewrite T0, T1. split; ring.
Qed.

Lemma halo_type_fractions_sum_to_one_witness :
  exists c0 c1 s0 s1,
    halo_type_fraction_centrals example_model [0; 1; 2] [1; 0; 1] = Ok c0 /\
    halo_type_fraction_centrals example_model [0; 1; 2] [1; 1; 1] = Ok c1 /\
    halo_type_fraction_satellites example_model [0; 1; 2] [1; 0; 1] = Ok s0 /\
    halo_type_fraction_satellites example_model [0; 1; 2] [1; 1; 1] = Ok s1 /\
    length c0 = length [0; 1; 2] /\ length c1 = length [0; 1; 2] /\
    length s0 = length [0; 1; 2] /\ length s1 = length [0; 1; 2] /\
    nth 1 c0 0 + nth 1 c1 0 == 1 /\
    nth 1 s0 0 + nth 1 s1 0 == 1.
Proof.
  apply (halo_type_fractions_sum_to_one example_model [0; 1; 2] [1; 0; 1]
           [1; 1; 1] 1%nat);
    first [reflexivity | simpl; lia | vm_compute; discriminate].
Defined.

(** ** Label arrays that do not have the length of the catalog *)

Lemma where_from_app (k : nat) (m1 m2 : list bool) :
  where_from k (m1 ++ m2)
  = where_from k m1 ++ where_from (k + length m1) m2.
Proof.
  revert k. induction m1 as [|b m1 IH]; intros k; simpl.
  - rewrite Nat.add_0_r. reflexivity.
  - rewrite IH. replace (S k + length m1)%nat with (k + S (length m1))%nat
      by lia.
    destruct b; reflexivity.
Qed.

Lemma where_from_app_false (k : nat) (m1 m2 : list bool) :
  Forall (fun b => b = false) m2 ->
  where_from k (m1 ++ m2) = where_from k m1.
Proof.
  intros H. rewrite where_from_app, (where_from_none _ m2 H).
  apply app_nil_r.
Qed.

Lemma eq_scalar_app (a b : array) (c : Q) :
  eq_scalar (a ++ b) c = eq_scalar a c ++ eq_scalar b c.
Proof. unfold eq_scalar. apply map_app. Qed.

Lemma eq_scalar_ones_zero (n : nat) :
  Forall (fun b => b = false) (eq_scalar (ones n) 0).
Proof.
  unfold eq_scalar, ones. apply Forall_forall. intros b Hb.
  apply in_map_iff in Hb. destruct Hb as [x [<- Hx]].
  apply repeat_spec in Hx. subst x. reflexivity.
Qed.

(** Without a label 0 beyond the catalog, the indices of the labels 0 are
    those of the padded labels. *)
Lemma np_where_pad_labels (n : nat) (halo_type : array) :
  (forall j, (n <= j)%nat -> ~ nth j halo_type 1 == 0) ->
  np_where (eq_scalar halo_type 0)
  = np_where (eq_scalar (pad_labels n halo_type) 0).
Proof.
  intros H. unfold pad_labels, np_where.
  rewrite eq_scalar_app.
  rewrite (where_from_app_false _ _ _ (eq_scalar_ones_zero _)).
  rewrite <- (firstn_skipn n halo_type) at 1.
  rewrite eq_scalar_app. apply where_from_app_false.
  apply Forall_forall. intros b Hb. unfold eq_scalar in Hb.
  apply in_map_iff in Hb. destruct Hb as [x [<- Hx]].
  apply (In_nth _ _ 1) in Hx. destruct Hx as [j [Hj <-]].
  apply Qeq_bool_false_iff.
  rewrite nth_skipn. apply H. lia.
Qed.

Lemma length_pad_labels (n : nat) (halo_type : array) :
  length (pad_labels n halo_type) = n.
Proof.
  unfold pad_labels, ones.
  rewrite length_app, length_firstn, repeat_length. lia.
Qed.

Lemma take_out_of_range {A : Type} (a : list A) (idx : list nat) (j : nat) :
  In j idx -> (length a <= j)%nat -> take a idx = Raise IndexError.
Proof.
  intros Hj Hlen. induction idx as [|i idx IH]; simpl in *; [contradiction|].
  destruct (nth_error a i) as [x|] eqn:E; [|reflexivity].
  destruct Hj as [-> | Hj].
  - apply nth_error_None in Hlen. congruence.
  - rewrite (IH Hj). reflexivity.
Qed.

Lemma destruction_type0_branch_out_of_range
  (p d prob : array) (idx0 : list nat) (j : nat) :
  In j idx0 -> (length d <= j)%nat ->
  destruction_type0_branch p d prob idx0 = Raise IndexError.
Proof.
  intros Hj Hlen. unfold destruction_type0_branch.
  rewrite (take_out_of_range d idx0 j Hj Hlen). reflexivity.
Qed.

Lemma zero_label_index (halo_type : array) (j : nat) :
  nth j halo_type 1 == 0 -> In j (np_where (eq_scalar halo_type 0)).
Proof.
  intros H. apply np_where_In. unfold eq_scalar.
  destruct (Nat.lt_ge_cases j (length halo_type)) as [Hj|Hj].
  - rewrite (nth_map_in_range _ halo_type j 1 false Hj).
    apply Qeq_bool_iff, H.
  - rewrite nth_overflow in H by exact Hj. discriminate.
Qed.

(** X7. Label arrays of another length.  [destruction_centrals] and
    [destruction_satellites] read the labels only through the indices of the
    labels equal to 0.  When no label 0 lies beyond the end of the catalog,
    each returns one value per halo, the same as for the labels cut to the
    length of the catalog and completed with 1: halos without a label are
    treated as type 1.  When a label 0 lies beyond the end of the catalog,
    both raise [IndexError]. *)
Theorem destruction_label_length (self : Assembly_Biased_HOD_Model)
  (p halo_type : array) :
  ((forall j, (length p <= j)%nat -> ~ nth j halo_type 1 == 0) ->
   exists c s,
     destruction_centrals self p halo_type = Ok c /\
     destruction_centrals self p (pad_labels (length p) halo_type) = Ok c /\
     destruction_satellites self p halo_type = Ok s /\
     destruction_satellites self p (pad_labels (length p) halo_type) = Ok s /\
     length c = length p /\ length s = length p) /\
  ((exists j, (length p <= j)%nat /\ nth j halo_type 1 == 0) ->
   destruction_centrals self p halo_type = Raise IndexError /\
   destruction_satellites self p halo_type = Raise IndexError).
Proof.
  split.
  - intros H.
    pose proof (np_where_pad_labels (length p) halo_type H) as Hw.
    destruct (destruction_centrals_elements self p
                (pad_labels (length p) halo_type)
                (length_pad_labels _ _)) as [c [Hc [Lc _]]].
    destruct (destruction_satellites_elements self p
                (pad_labels (length p) halo_type)
                (length_pad_labels _ _)) as [s [Hs [Ls _]]].
    exists c, s.
    split; [|split; [exact Hc|split; [|split; [exact Hs|split; assumption]]]].
    + rewrite <- Hc. unfold destruction_centrals. cbv zeta.
      rewrite Hw. reflexivity.
    + rewrite <- Hs. unfold destruction_satellites. cbv zeta.
      rewrite Hw. reflexivity.
  - intros [j [Hj Hz]]. apply zero_label_index in Hz. split.
    + unfold destruction_centrals.
      rewrite maximum_destruction_centrals_all_ones,
        halo_type_fraction_centrals_all_ones. simpl.
      apply (destruction_type0_branch_out_of_range _ _ _ _ j Hz).
      to_map. rewrite length_map. exact Hj.
    + unfold destruction_satellites.
      rewrite maximum_destruction_satellites_all_ones,
        halo_type_fraction_satellites_all_ones. simpl.
      apply (destruction_type0_branch_out_of_range _ _ _ _ j Hz).
      to_map. rewrite length_map. exact Hj.
Qed.

Lemma destruction_label_length_witness :
  (exists c s,
     destruction_centrals example_model example_two_halos [0] = Ok c /\
     destruction_centrals example_model example_two_halos
       (pad_labels (length example_two_halos) [0]) = Ok c /\
     destruction_satellites example_model example_two_halos [0] = Ok s /\
     destruction_satellites example_model example_two_halos
       (pad_labels (length example_two_halos) [0]) = Ok s /\
     length c = length example_two_halos /\
     length s = length example_two_halos) /\
  (destruction_centrals example_model example_two_halos [1; 1; 0]
   = Raise IndexError /\
   destruction_satellites example_model example_two_halos [1; 1; 0]
   = Raise IndexError).
Proof.
  split.
  - apply (proj1 (destruction_label_length example_model example_two_halos
                    [0])).
    intros j Hj. simpl in Hj.
    rewrite nth_overflow by (simpl; lia). discriminate.
  - apply (proj2 (destruction_label_length example_model example_two_halos
                    [1; 1; 0])).
    exists 2%nat. split; [simpl; lia | reflexivity].
Defined.

(** Two halos and one label: the second halo is treated as type 1.  Two
    halos and a third label equal to 0: the call raises. *)
Example destruction_centrals_short_labels :
  destruction_centrals example_model [1; 1] [0]
  = destruction_centrals example_model [1; 1] [0; 1].
Proof. reflexivity. Qed.

Example destruction_centrals_long_labels :
  destruction_centrals example_model [1; 1] [1; 1; 0] = Raise IndexError.
Proof. reflexivity. Qed.

(** ** Satcen_Correlation_Polynomial_HOD_Model *)

Lemma type0_value_at_one (d : Q) : type0_value d (0 + 1) = 0.
Proof. reflexivity. Qed.

(** X8. In [Satcen_Correlation_Polynomial_HOD_Model] the central occupation
    follows the label alone: [mean_ncen] returns the baseline central
    occupation at the halos labelled other than 0 and exactly 0 at the halos
    labelled 0, whatever the unconstrained destruction functions are; and
    with the baseline central occupation in [[0, 1]] as the type-1 fraction
    of the satellites, the satellite occupations of the two labels, weighted
    by it, add up to the baseline satellite occupation. *)
Theorem satcen_model_occupations
  (ncen nsat : Q -> Q -> Q) (uc us : Q -> Q)
  (p halo_type1 halo_type0 : array) (i : nat) :
  length halo_type1 = length p -> length halo_type0 = length p ->
  (i < length p)%nat ->
  nth i halo_type1 0 = 1 -> nth i halo_type0 0 = 0 ->
  0 <= ncen (nth i p 0) 1 <= 1 ->
  exists c1 c0 s1 s0,
    mean_ncen (Satcen_Correlation_Polynomial_HOD_Model ncen nsat uc us)
      p halo_type1 = Ok c1 /\
    mean_ncen (Satcen_Correlation_Polynomial_HOD_Model ncen nsat uc us)
      p halo_type0 = Ok c0 /\
    mean_nsat (Satcen_Correlation_Polynomial_HOD_Model ncen nsat uc us)
      p halo_type1 = Ok s1 /\
    mean_nsat (Satcen_Correlation_Polynomial_HOD_Model ncen nsat uc us)
      p halo_type0 = Ok s0 /\
    nth i c1 0 == ncen (nth i p 0) 1 /\
    nth i c0 0 == 0 /\
    (nsat (nth i p 0) 0 == nsat (nth i p 0) 1 ->
     ncen (nth i p 0) 1 * nth i s1 0
     + (1 - ncen (nth i p 0) 1) * nth i s0 0
     == nsat (nth i p 0) 1).
Proof.
  intros L1 L0 Hi T1 T0 HN.
  set (M := Satcen_Correlation_Polynomial_HOD_Model ncen nsat uc us).
  destruct (mean_ncen_elements M p halo_type1 L1) as [c1 [Hc1 [_ Ec1]]].
  destruct (mean_ncen_elements M p halo_type0 L0) as [c0 [Hc0 [_ Ec0]]].
  destruct (mean_nsat_elements M p halo_type1 L1) as [s1 [Hs1 [_ Es1]]].
  destruct (mean_nsat_elements M p halo_type0 L0) as [s0 [Hs0 [_ Es0]]].
  exists c1, c0, s1, s0. repeat (split; [assumption|]).
  rewrite (Ec1 i Hi), (Ec0 i Hi), (Es1 i Hi), (Es0 i Hi), T1, T0.
  change (Qeq_bool 1 0) with false. change (Qeq_bool 0 0) with true.
  cbv iota.
  split; [|split].
  - rewrite D1_centrals_at_one by reflexivity.
    simpl. ring.
  - simpl halo_type1_fraction_centrals. rewrite type0_value_at_one.
    ring.
  - intros Hs. simpl baseline_mean_nsat. rewrite Hs.
    set (F := ncen (nth i p 0) 1).
    change (halo_type1_fraction_satellites M (nth i p 0)) with F.
    pose proof (conservation_scalar (D1_satellites M (nth i p 0)) F
                  (nsat (nth i p 0) 1)) as Hcons.
    rewrite <- Hcons at 3.
    + ring.
    + apply HN.
    + intros H1. rewrite (D1_satellites_at_one M (nth i p 0) H1).
      reflexivity.
Qed.

Lemma satcen_model_occupations_witness :
  exists c1 c0 s1 s0,
    mean_ncen example_satcen_model [0; 1; 2] [1; 1; 1] = Ok c1 /\
    mean_ncen example_satcen_model [0; 1; 2] [1; 0; 1] = Ok c0 /\
    mean_nsat example_satcen_model [0; 1; 2] [1; 1; 1] = Ok s1 /\
    mean_nsat example_satcen_model [0; 1; 2] [1; 0; 1] = Ok s0 /\
    nth 1 c1 0 == (fun p _ : Q => p / 4) (nth 1 [0; 1; 2] 0) 1 /\
    nth 1 c0 0 == 0 /\
    ((fun p _ : Q => p) (nth 1 [0; 1; 2] 0) 0
       == (fun p _ : Q => p) (nth 1 [0; 1; 2] 0) 1 ->
     (fun p _ : Q => p / 4) (nth 1 [0; 1; 2] 0) 1 * nth 1 s1 0
     + (1 - (fun p _ : Q => p / 4) (nth 1 [0; 1; 2] 0) 1) * nth 1 s0 0
     == (fun p _ : Q => p) (nth 1 [0; 1; 2] 0) 1).
Proof.
  apply (satcen_model_occupations (fun p _ => p / 4) (fun p _ => p)
           (fun p => 5 - p) (fun p => p - 1) [0; 1; 2] [1; 1; 1] [1; 0; 1]
           1%nat);
    first [reflexivity | simpl; lia | vm_compute; split; discriminate].
Defined.

(** ** Unconstrained destruction functions equal to 1 or to 0

    The notes of the abstract methods say that an unconstrained destruction
    function that is identically 1 or identically 0 gives no assembly bias.
    The first holds; with the second, the galaxies leave the type-1 halos. *)

Lemma clamp_of_one (u mx F : Q) : u == 1 -> 1 <= mx -> clamp_type1 u mx F == 1.
Proof.
  intros Hu Hmx. unfold clamp_type1. case_tests; lra.
Qed.

Lemma clamp_of_zero (u mx F : Q) :
  u == 0 -> 0 <= mx -> ~ F == 1 -> clamp_type1 u mx F == 0.
Proof.
  intros Hu Hmx HF. unfold clamp_type1. case_tests; lra.
Qed.

Lemma clamp_under_zero_ceiling (u mx F : Q) :
  mx == 0 -> ~ F == 1 -> clamp_type1 u mx F == 0.
Proof.
  intros Hmx HF. unfold clamp_type1. case_tests; lra.
Qed.

Lemma one_le_reciprocal (x : Q) : 0 < x -> x <= 1 -> 1 <= 1 / x.
Proof.
  intros H0 H1. apply Qle_shift_div_l; [exact H0 | lra].
Qed.

Lemma one_le_ceiling_centrals (F N : Q) :
  0 < F -> F <= 1 -> 0 < N -> N <= 1 -> 1 <= ceiling_centrals F N.
Proof.
  intros HF0 HF1 HN0 HN1.
  rewrite ceiling_centrals_both_positive by assumption.
  apply Q.min_glb; apply one_le_reciprocal; assumption.
Qed.

Lemma one_le_ceiling_satellites (F : Q) :
  0 < F -> F <= 1 -> 1 <= ceiling_satellites F.
Proof.
  intros HF0 HF1. unfold ceiling_satellites.
  apply Qlt_bool_iff in HF0 as E. rewrite E.
  apply one_le_reciprocal; assumption.
Qed.

(** The type-0 value, given the type-1 value up to [==]. *)
Lemma type0_value_of (d1 F v : Q) :
  F < 1 -> d1 == v -> type0_value d1 F == (1 - v * F) / (1 - F).
Proof.
  intros HF Hd. unfold type0_value.
  assert (E1 : Qlt_bool 0 (1 - F) = true) by (apply Qlt_bool_iff; lra).
  assert (E2 : Qeq_bool (1 - F) 0 = false)
    by (apply Qeq_bool_false_iff; lra).
  rewrite E1, E2, Hd. reflexivity.
Qed.

Lemma type0_value_at_zero_fraction (d1 F : Q) :
  F == 0 -> type0_value d1 F == 1.
Proof.
  intros HF. unfold type0_value.
  assert (E1 : Qlt_bool 0 (1 - F) = true) by (apply Qlt_bool_iff; lra).
  assert (E2 : Qeq_bool (1 - F) 0 = false)
    by (apply Qeq_bool_false_iff; lra).
  rewrite E1, E2. rewrite HF. field.
Qed.

(** The value of one halo under an unconstrained destruction of 1: the
    destruction is 1 for a halo whose own type has a positive fraction. *)
Lemma labelled_value_of_one (d1 F t : Q) :
  0 <= F -> F <= 1 -> (0 < F -> d1 == 1) ->
  0 < labelled_fraction (fun _ => F) 0 t ->
  (if Qeq_bool t 0 then type0_value d1 F else d1) == 1.
Proof.
  intros HF0 HF1 Hd. unfold labelled_fraction.
  destruct (Qeq_bool t 0); intros Hpos.
  - destruct (Qlt_le_dec 0 F) as [H|H].
    + rewrite (type0_value_of d1 F 1) by (try apply Hd; lra).
      field. lra.
    + apply type0_value_at_zero_fraction. lra.
  - apply Hd, Hpos.
Qed.

Lemma times_occupation (d N : Q) : N == 0 \/ d == 1 -> d * N == N.
Proof. intros [H | H]; rewrite H; ring. Qed.

(** X21. An unconstrained destruction identically 1 gives no assembly bias:
    at a halo where the unconstrained central and satellite destruction
    functions are 1, the type-1 fractions lie in [[0, 1]], the baseline
    central occupation lies in [[0, 1]] and the baseline occupations do not
    depend on the halo type, [mean_ncen] and [mean_nsat] return the baseline
    occupations, provided the fraction of the type the halo is labelled with
    is positive. *)
Theorem unit_destruction_keeps_baseline (self : Assembly_Biased_HOD_Model)
  (p halo_type : array) (i : nat) :
  length halo_type = length p -> (i < length p)%nat ->
  unconstrained_central_destruction_halo_type1 self (nth i p 0) == 1 ->
  unconstrained_satellite_destruction_halo_type1 self (nth i p 0) == 1 ->
  0 <= halo_type1_fraction_centrals self (nth i p 0) <= 1 ->
  0 <= halo_type1_fraction_satellites self (nth i p 0) <= 1 ->
  0 <= baseline_mean_ncen self (nth i p 0) 1 <= 1 ->
  (forall t, baseline_mean_ncen self (nth i p 0) t
             == baseline_mean_ncen self (nth i p 0) 1) ->
  exists fc fs c s,
    halo_type_fraction_centrals self p halo_type = Ok fc /\
    halo_type_fraction_satellites self p halo_type = Ok fs /\
    mean_ncen self p halo_type = Ok c /\
    mean_nsat self p halo_type = Ok s /\
    (0 < nth i fc 0 ->
     nth i c 0 == baseline_mean_ncen self (nth i p 0) (nth i halo_type 0)) /\
    (0 < nth i fs 0 ->
     nth i s 0 == baseline_mean_nsat self (nth i p 0) (nth i halo_type 0)).
Proof.
  intros L Hi Uc Us [Fc0 Fc1] [Fs0 Fs1] [N0 N1] Hind.
  pose proof (halo_type_fraction_centrals_pairs self (combine p halo_type))
    as Hfc.
  pose proof (halo_type_fraction_satellites_pairs self (combine p halo_type))
    as Hfs.
  rewrite (map_fst_combine_same p halo_type L),
    (map_snd_combine_same p halo_type L) in Hfc, Hfs.
  destruct (mean_ncen_elements self p halo_type L) as [c [Hc [_ Ec]]].
  destruct (mean_nsat_elements self p halo_type L) as [s [Hs [_ Es]]].
  do 2 eexists. exists c, s.
  split; [exact Hfc|]. split; [exact Hfs|].
  split; [exact Hc|]. split; [exact Hs|].
  assert (Hcomb : (i < length (combine p halo_type))%nat)
    by (rewrite length_combine, L, Nat.min_id; exact Hi).
  rewrite !(nth_map_in_range _ (combine p halo_type) i (0, 0) 0 Hcomb).
  rewrite combine_nth by (symmetry; exact L). simpl fst. simpl snd.
  rewrite (Ec i Hi), (Es i Hi).
  set (x := nth i p 0) in *. set (t := nth i halo_type 0) in *.
  split; intros Hpos.
  - destruct (Qlt_le_dec 0 (baseline_mean_ncen self x 1)) as [HN | HN].
    + apply times_occupation. right.
      apply (labelled_value_of_one _ (halo_type1_fraction_centrals self x) t);
        try assumption.
      intros HF. apply clamp_of_one; [exact Uc|].
      apply one_le_ceiling_centrals; assumption.
    + apply times_occupation. left. rewrite (Hind t). lra.
  - apply times_occupation. right.
    apply (labelled_value_of_one _ (halo_type1_fraction_satellites self x) t);
      try assumption.
    intros HF. apply clamp_of_one; [exact Us|].
    apply one_le_ceiling_satellites; assumption.
Qed.

Lemma unit_destruction_keeps_baseline_witness :
  exists fc fs c s,
    halo_type_fraction_centrals example_model_unit [1; 2] [0; 1] = Ok fc /\
    halo_type_fraction_satellites example_model_unit [1; 2] [0; 1] = Ok fs /\
    mean_ncen example_model_unit [1; 2] [0; 1] = Ok c /\
    mean_nsat example_model_unit [1; 2] [0; 1] = Ok s /\
    (0 < nth 0 fc 0 ->
     nth 0 c 0
     == baseline_mean_ncen example_model_unit (nth 0 [1; 2] 0)
          (nth 0 [0; 1] 0)) /\
    (0 < nth 0 fs 0 ->
     nth 0 s 0
     == baseline_mean_nsat example_model_unit (nth 0 [1; 2] 0)
          (nth 0 [0; 1] 0)).
Proof.
  apply (unit_destruction_keeps_baseline example_model_unit [1; 2] [0; 1]
           0%nat);
    first [reflexivity | simpl; lia | vm_compute; split; discriminate
          | intros t; reflexivity].
Defined.

(** X22. An unconstrained destruction identically 0 moves the galaxies to
    the type-0 halos: at a halo where the unconstrained central and satellite
    destruction functions are 0 and the type-1 fractions lie in [[0, 1)],
    [mean_ncen] and [mean_nsat] return 0 when the halo is labelled 1, and the
    baseline occupation divided by the type-0 fraction when it is labelled
    0. *)
Theorem zero_destruction_empties_type1 (self : Assembly_Biased_HOD_Model)
  (p halo_type1 halo_type0 : array) (i : nat) :
  length halo_type1 = length p -> length halo_type0 = length p ->
  (i < length p)%nat ->
  nth i halo_type1 0 = 1 -> nth i halo_type0 0 = 0 ->
  unconstrained_central_destruction_halo_type1 self (nth i p 0) == 0 ->
  unconstrained_satellite_destruction_halo_type1 self (nth i p 0) == 0 ->
  0 <= halo_type1_fraction_centrals self (nth i p 0) ->
  halo_type1_fraction_centrals self (nth i p 0) < 1 ->
  0 <= halo_type1_fraction_satellites self (nth i p 0) ->
  halo_type1_fraction_satellites self (nth i p 0) < 1 ->
  exists c1 c0 s1 s0,
    mean_ncen self p halo_type1 = Ok c1 /\
    mean_ncen self p halo_type0 = Ok c0 /\
    mean_nsat self p halo_type1 = Ok s1 /\
    mean_nsat self p halo_type0 = Ok s0 /\
    nth i c1 0 == 0 /\ nth i s1 0 == 0 /\
    nth i c0 0
    == baseline_mean_ncen self (nth i p 0) 0
       / (1 - halo_type1_fraction_centrals self (nth i p 0)) /\
    nth i s0 0
    == baseline_mean_nsat self (nth i p 0) 0
       / (1 - halo_type1_fraction_satellites self (nth i p 0)).
Proof.
  intros L1 L0 Hi T1 T0 Uc Us Fc0 Fc1 Fs0 Fs1.
  destruct (mean_ncen_elements self p halo_type1 L1) as [c1 [Hc1 [_ Ec1]]].
  destruct (mean_ncen_elements self p halo_type0 L0) as [c0 [Hc0 [_ Ec0]]].
  destruct (mean_nsat_elements self p halo_type1 L1) as [s1 [Hs1 [_ Es1]]].
  destruct (mean_nsat_elements self p halo_type0 L0) as [s0 [Hs0 [_ Es0]]].
  exists c1, c0, s1, s0. repeat (split; [assumption|]).
  rewrite (Ec1 i Hi), (Ec0 i Hi), (Es1 i Hi), (Es0 i Hi), T1, T0.
  change (Qeq_bool 1 0) with false. change (Qeq_bool 0 0) with true.
  cbv iota.
  set (x := nth i p 0) in *.
  assert (Dc : D1_centrals self x == 0).
  { apply clamp_of_zero; [exact Uc | apply ceiling_centrals_nonneg | lra]. }
  assert (Ds : D1_satellites self x == 0).
  { apply clamp_of_zero; [exact Us | apply ceiling_satellites_nonneg | lra]. }
  split; [rewrite Dc; ring|]. split; [rewrite Ds; ring|].
  split.
  - rewrite (type0_value_of _ _ 0) by assumption. field. lra.
  - rewrite (type0_value_of _ _ 0) by assumption. field. lra.
Qed.

Lemma zero_destruction_empties_type1_witness :
  exists c1 c0 s1 s0,
    mean_ncen example_model_no_floor [12; 13] [1; 1] = Ok c1 /\
    mean_ncen example_model_no_floor [12; 13] [0; 1] = Ok c0 /\
    mean_nsat example_model_no_floor [12; 13] [1; 1] = Ok s1 /\
    mean_nsat example_model_no_floor [12; 13] [0; 1] = Ok s0 /\
    nth 0 c1 0 == 0 /\ nth 0 s1 0 == 0 /\
    nth 0 c0 0
    == baseline_mean_ncen example_model_no_floor (nth 0 [12; 13] 0) 0
       / (1 - halo_type1_fraction_centrals example_model_no_floor
                (nth 0 [12; 13] 0)) /\
    nth 0 s0 0
    == baseline_mean_nsat example_model_no_floor (nth 0 [12; 13] 0) 0
       / (1 - halo_type1_fraction_satellites example_model_no_floor
                (nth 0 [12; 13] 0)).
Proof.
  apply (zero_destruction_empties_type1 example_model_no_floor [12; 13]
           [1; 1] [0; 1] 0%nat);
    first [reflexivity | simpl; lia | vm_compute; discriminate].
Defined.

(** ** A type-1 fraction equal to 0 *)

(** X23. The boundary at an empty type 1: at a halo whose type-1 fractions
    are exactly 0, [destruction_centrals] and [destruction_satellites] return
    1 when the halo is labelled 0 and 0 when it is labelled 1, whatever the
    unconstrained destruction functions are. *)
Theorem empty_type1_boundary (self : Assembly_Biased_HOD_Model)
  (p halo_type1 halo_type0 : array) (i : nat) :
  length halo_type1 = length p -> length halo_type0 = length p ->
  (i < length p)%nat ->
  nth i halo_type1 0 == 1 -> nth i halo_type0 0 == 0 ->
  halo_type1_fraction_centrals self (nth i p 0) == 0 ->
  halo_type1_fraction_satellites self (nth i p 0) == 0 ->
  exists c1 c0 s1 s0,
    destruction_centrals self p halo_type1 = Ok c1 /\
    destruction_centrals self p halo_type0 = Ok c0 /\
    destruction_satellites self p halo_type1 = Ok s1 /\
    destruction_satellites self p halo_type0 = Ok s0 /\
    nth i c1 0 == 0 /\ nth i c0 0 == 1 /\
    nth i s1 0 == 0 /\ nth i s0 0 == 1.
Proof.
  intros L1 L0 Hi T1 T0 Fc Fs.
  destruct (destruction_centrals_elements self p halo_type1 L1)
    as [c1 [Hc1 [_ Ec1]]].
  destruct (destruction_centrals_elements self p halo_type0 L0)
    as [c0 [Hc0 [_ Ec0]]].
  destruct (destruction_satellites_elements self p halo_type1 L1)
    as [s1 [Hs1 [_ Es1]]].
  destruct (destruction_satellites_elements self p halo_type0 L0)
    as [s0 [Hs0 [_ Es0]]].
  exists c1, c0, s1, s0. repeat (split; [assumption|]).
  rewrite (Ec1 i Hi), (Ec0 i Hi), (Es1 i Hi), (Es0 i Hi).
  rewrite (label_one_not_zero _ T1), (label_zero _ T0).
  split; [|split; [|split]].
  - apply clamp_under_zero_ceiling; [|lra].
    apply ceiling_centrals_zero. left. exact Fc.
  - apply type0_value_at_zero_fraction, Fc.
  - apply clamp_under_zero_ceiling; [|lra].
    unfold ceiling_satellites.
    assert (E : Qlt_bool 0 (halo_type1_fraction_satellites self (nth i p 0))
                = false) by (apply Qlt_bool_false_iff; lra).
    rewrite E. reflexivity.
  - apply type0_value_at_zero_fraction, Fs.
Qed.

Lemma empty_type1_boundary_witness :
  exists c1 c0 s1 s0,
    destruction_centrals example_model [0; 1; 2] [1; 1; 1] = Ok c1 /\
    destruction_centrals example_model [0; 1; 2] [0; 1; 1] = Ok c0 /\
    destruction_satellites example_model [0; 1; 2] [1; 1; 1] = Ok s1 /\
    destruction_satellites example_model [0; 1; 2] [0; 1; 1] = Ok s0 /\
    nth 0 c1 0 == 0 /\ nth 0 c0 0 == 1 /\
    nth 0 s1 0 == 0 /\ nth 0 s0 0 == 1.
Proof.
  apply (empty_type1_boundary example_model [0; 1; 2] [1; 1; 1] [0; 1; 1]
           0%nat);
    first [reflexivity | simpl; lia].
Defined.

(** ** Construction of the baseline model without a dictionary *)

Lemma Zheng07_default_construction (thr : threshold_arg) (k : nat) :
  requested_row thr k ->
  Zheng07_HOD_Model None thr
  = Ok {| instance := {| publication := ["arXiv:0703457"%string];
                         parameter_dict := Some (table_row k);
                         threshold := Some (-20) |};
          warnings := construction_warnings thr |}.
Proof.
  intros [[-> ->] | [q [-> [Hk Hq]]]].
  - reflexivity.
  - unfold Zheng07_HOD_Model, Zheng07_HOD_Model_init, bindM.
    simpl. rewrite (published_parameters_hit k q _ Hk Hq).
    unfold set_parameter_dict.
    erewrite require_correct_keys_bound by reflexivity.
    rewrite keys_table_row. reflexivity.
Qed.

Lemma Zheng07_unpublished_threshold (q : Q) :
  (forall t, In t published_thresholds -> ~ q == t) ->
  Zheng07_HOD_Model None (PyNumber q)
  = Raise (TypeError
      "Input luminosity threshold does not match any of the Table 1 values of Zheng et al. 2007.").
Proof.
  intros H. unfold Zheng07_HOD_Model, Zheng07_HOD_Model_init, bindM.
  simpl. rewrite (published_parameters_miss q _ H). reflexivity.
Qed.

(** ** Dictionaries *)

Lemma get_setitem (d : dictionary) (k k' : string) (v : value) :
  get (setitem d k v) k' = if String.eqb k k' then Some v else get d k'.
Proof.
  induction d as [|[k0 v0] d IH]; simpl.
  - reflexivity.
  - destruct (String.eqb_spec k0 k) as [->|Hne]; simpl.
    + destruct (String.eqb k k'); reflexivity.
    + rewrite IH. destruct (String.eqb_spec k0 k') as [->|Hne'].
      * destruct (String.eqb_spec k k') as [->|]; [contradiction|reflexivity].
      * reflexivity.
Qed.

Lemma get_app (d1 d2 : dictionary) (k : string) :
  get (d1 ++ d2) k =
  match get d1 k with Some v => Some v | None => get d2 k end.
Proof.
  induction d1 as [|[k0 v0] d1 IH]; simpl; [reflexivity|].
  destruct (String.eqb k0 k); [reflexivity | exact IH].
Qed.

Lemma get_fold_setitem (its : list (string * value)) (d0 : dictionary)
  (k : string) :
  get (fold_left (fun d kv => setitem d (fst kv) (snd kv)) its d0) k =
  match get (rev its) k with Some v => Some v | None => get d0 k end.
Proof.
  revert d0. induction its as [|[k0 v0] its IH]; intros d0; simpl.
  - reflexivity.
  - rewrite IH, get_app, get_setitem. simpl.
    destruct (get (rev its) k); [reflexivity|].
    destruct (String.eqb k0 k); reflexivity.
Qed.

Lemma get_py_dict (its : list (string * value)) (k : string) :
  get (py_dict its) k = get (rev its) k.
Proof.
  unfold py_dict. rewrite get_fold_setitem.
  destruct (get (rev its) k); reflexivity.
Qed.

Lemma get_None (d : dictionary) (k : string) :
  get d k = None <-> ~ In k (map fst d).
Proof.
  induction d as [|[k0 v0] d IH]; simpl.
  - tauto.
  - destruct (String.eqb_spec k0 k) as [->|Hne].
    + split; [discriminate | tauto].
    + rewrite IH. tauto.
Qed.

Lemma get_In (d : dictionary) (k : string) (v : value) :
  NoDup (map fst d) -> In (k, v) d -> get d k = Some v.
Proof.
  induction d as [|[k0 v0] d IH]; simpl; [tauto|].
  intros Hnd [H | H].
  - injection H as -> ->. rewrite String.eqb_refl. reflexivity.
  - inversion Hnd as [|? ? Hnotin Hnd']; subst.
    destruct (String.eqb_spec k0 k) as [->|Hne].
    + exfalso. apply Hnotin. apply (in_map fst) in H. exact H.
    + apply IH; assumption.
Qed.

Lemma get_Some_In (d : dictionary) (k : string) (v : value) :
  get d k = Some v -> In (k, v) d.
Proof.
  induction d as [|[k0 v0] d IH]; simpl; [discriminate|].
  destruct (String.eqb_spec k0 k) as [->|Hne].
  - intros H. injection H as ->. left. reflexivity.
  - intros H. right. apply IH, H.
Qed.

Lemma get_rev (d : dictionary) (k : string) :
  NoDup (map fst d) -> get (rev d) k = get d k.
Proof.
  intros Hnd. destruct (get d k) as [v|] eqn:E.
  - apply get_In.
    + rewrite map_rev. apply NoDup_rev, Hnd.
    + apply in_rev. rewrite rev_involutive. apply get_Some_In, E.
  - apply get_None. apply get_None in E.
    rewrite map_rev. intros H. apply E. apply in_rev in H. exact H.
Qed.

Lemma NoDup_keys_table_row (k : nat) : NoDup (map fst (items (table_row k))).
Proof.
  simpl. repeat constructor; simpl; intuition discriminate.
Qed.

Lemma get_joined (b : dict) (d : dictionary) (k : string) :
  NoDup (map fst (items b)) -> NoDup (map fst d) ->
  get (py_dict (items b ++ d)) k =
  match get d k with Some v => Some v | None => get (items b) k end.
Proof.
  intros Hb Hd. rewrite get_py_dict, rev_app_distr, get_app.
  rewrite (get_rev d k Hd), (get_rev (items b) k Hb). reflexivity.
Qed.

(** ** The three constructors *)

Section ConstructorFacts.

Variable default_satcen_parameters : dictionary.
Variable default_assembias_parameters : dictionary.
Variable default_quenching_parameters : dictionary.

Lemma assembias_keys_accepted (d : dictionary) :
  same_keys d default_satcen_parameters = true ->
  assembias_require_correct_keys default_satcen_parameters d = Ok tt.
Proof.
  intros H. unfold assembias_require_correct_keys.
  unfold same_keys in H. rewrite H. reflexivity.
Qed.

Lemma quenching_keys_accepted (d : dictionary) :
  same_keys d default_quenching_parameters = true ->
  quenching_require_correct_keys default_quenching_parameters d = Ok tt.
Proof.
  intros H. unfold quenching_require_correct_keys.
  unfold same_keys in H. rewrite H. reflexivity.
Qed.

Lemma joins_table_row (m : Derived_Model) (k : nat) (bound : dictionary) :
  NoDup (map fst bound) ->
  self_parameter_dict m = Some (py_dict (items (table_row k) ++ bound)) ->
  joins m k bound.
Proof.
  intros Hnd Hm. eexists. split; [exact Hm|]. intros key.
  apply get_joined; [apply NoDup_keys_table_row | exact Hnd].
Qed.

(** X14. [vdB03_Quenching_Model] loses the threshold: constructed with a
    published threshold (or none) and with no quenching dictionary or one
    with the keys of the default, the instance has [threshold] equal to
    [None], because the constructor binds it before the constructor of the
    base class resets it; the baseline instance it holds has the threshold
    -20.0 and the parameters of the row that was asked for; [publication]
    lists the two papers; and [parameter_dict] joins the row with the
    quenching dictionary. *)
Theorem vdB03_construction_loses_threshold
  (baseline_hod_parameter_dict_arg : option dict) (thr : threshold_arg)
  (k : nat) (quenching_parameter_dict : option dictionary) :
  requested_row thr k ->
  accepted quenching_parameter_dict default_quenching_parameters ->
  NoDup (map fst (bound_dictionary quenching_parameter_dict
                    default_quenching_parameters)) ->
  exists m,
    vdB03_Quenching_Model_init default_quenching_parameters
      baseline_hod_parameter_dict_arg thr quenching_parameter_dict
    = Ok (m, construction_warnings thr) /\
    self_threshold m = PyNone /\
    threshold (_baseline_hod_model m) = Some (-20) /\
    baseline_hod_parameter_dict m = Some (table_row k) /\
    self_publication m = ["arXiv:0703457"; "arXiv:0210495v3"]%string /\
    model_parameter_dict m
    = Some (bound_dictionary quenching_parameter_dict
              default_quenching_parameters) /\
    joins m k (bound_dictionary quenching_parameter_dict
                 default_quenching_parameters).
Proof.
  intros Hrow Hacc Hnd. unfold vdB03_Quenching_Model_init.
  rewrite (Zheng07_default_construction thr k Hrow). simpl.
  destruct quenching_parameter_dict as [d|]; simpl in *.
  - rewrite (quenching_keys_accepted d Hacc). simpl.
    eexists. split; [reflexivity|]. repeat (split; [reflexivity|]).
    apply joins_table_row; [exact Hnd | reflexivity].
  - eexists. split; [reflexivity|]. repeat (split; [reflexivity|]).
    apply joins_table_row; [exact Hnd | reflexivity].
Qed.

(** X15. [Satcen_Correlation_Polynomial_HOD_Model] and
    [Polynomial_Assembly_Biased_HOD_Model] keep the threshold as it was
    passed: constructed with a published threshold (or none) and with no
    assembly-bias dictionary or one with the keys of
    [default_satcen_parameters], the instance has the threshold of the call,
    [None] included, while the baseline instance it holds has the threshold
    -20.0 and the parameters of the row that was asked for; [publication]
    lists the paper of the baseline; and [parameter_dict] joins the row with
    the assembly-bias dictionary, which without a supplied one is
    [default_satcen_parameters] in the first class and
    [default_assembias_parameters] in the second. *)
Theorem assembias_construction_keeps_threshold
  (baseline_hod_parameter_dict_arg : option dict) (thr : threshold_arg)
  (k : nat) (assembias_parameter_dict : option dictionary)
  (centrals_key satellites_key : string) :
  requested_row thr k ->
  accepted assembias_parameter_dict default_satcen_parameters ->
  NoDup (map fst (bound_dictionary assembias_parameter_dict
                    default_satcen_parameters)) ->
  NoDup (map fst (bound_dictionary assembias_parameter_dict
                    default_assembias_parameters)) ->
  exists m m',
    Satcen_Correlation_Polynomial_HOD_Model_init default_satcen_parameters
      baseline_hod_parameter_dict_arg thr assembias_parameter_dict
    = Ok (m, construction_warnings thr) /\
    Polynomial_Assembly_Biased_HOD_Model_init default_satcen_parameters
      default_assembias_parameters
      baseline_hod_parameter_dict_arg thr assembias_parameter_dict
      centrals_key satellites_key
    = Ok (m', (centrals_key, satellites_key), construction_warnings thr) /\
    self_threshold m = thr /\ self_threshold m' = thr /\
    threshold (_baseline_hod_model m) = Some (-20) /\
    threshold (_baseline_hod_model m') = Some (-20) /\
    baseline_hod_parameter_dict m = Some (table_row k) /\
    baseline_hod_parameter_dict m' = Some (table_row k) /\
    self_publication m = ["arXiv:0703457"]%string /\
    self_publication m' = ["arXiv:0703457"]%string /\
    joins m k (bound_dictionary assembias_parameter_dict
                 default_satcen_parameters) /\
    joins m' k (bound_dictionary assembias_parameter_dict
                  default_assembias_parameters).
Proof.
  intros Hrow Hacc Hnd Hnd'.
  unfold Satcen_Correlation_Polynomial_HOD_Model_init,
    Polynomial_Assembly_Biased_HOD_Model_init.
  rewrite (Zheng07_default_construction thr k Hrow). simpl.
  destruct assembias_parameter_dict as [d|]; simpl in *.
  - rewrite (assembias_keys_accepted d Hacc). simpl.
    do 2 eexists. split; [reflexivity|]. split; [reflexivity|].
    repeat (split; [reflexivity|]).
    split; apply joins_table_row; first [assumption | reflexivity].
  - do 2 eexists. split; [reflexivity|]. split; [reflexivity|].
    repeat (split; [reflexivity|]).
    split; apply joins_table_row; first [assumption | reflexivity].
Qed.

(** X16. The three classes validate a supplied dictionary: with a published
    threshold (or none), a supplied dictionary whose set of keys differs from
    that of the default dictionary of the check makes the constructor raise
    [TypeError]; with a number that is not a published threshold the
    constructor raises the [TypeError] of the baseline model, whatever the
    dictionary. *)
Theorem derived_models_reject_wrong_keys
  (baseline_hod_parameter_dict_arg : option dict) (thr : threshold_arg)
  (k : nat) (d : dictionary) (centrals_key satellites_key : string) :
  requested_row thr k ->
  (same_keys d default_satcen_parameters = false ->
   (exists msg,
      Satcen_Correlation_Polynomial_HOD_Model_init default_satcen_parameters
        baseline_hod_parameter_dict_arg thr (Some d)
      = Raise (TypeError msg)) /\
   (exists msg,
      Polynomial_Assembly_Biased_HOD_Model_init default_satcen_parameters
        default_assembias_parameters
        baseline_hod_parameter_dict_arg thr (Some d)
        centrals_key satellites_key
      = Raise (TypeError msg))) /\
  (same_keys d default_quenching_parameters = false ->
   exists msg,
     vdB03_Quenching_Model_init default_quenching_parameters
       baseline_hod_parameter_dict_arg thr (Some d)
     = Raise (TypeError msg)) /\
  (forall q supplied,
     (forall t, In t published_thresholds -> ~ q == t) ->
     (exists msg,
        Satcen_Correlation_Polynomial_HOD_Model_init
          default_satcen_parameters
          baseline_hod_parameter_dict_arg (PyNumber q) supplied
        = Raise (TypeError msg)) /\
     (exists msg,
        Polynomial_Assembly_Biased_HOD_Model_init default_satcen_parameters
          default_assembias_parameters
          baseline_hod_parameter_dict_arg (PyNumber q) supplied
          centrals_key satellites_key
        = Raise (TypeError msg)) /\
     (exists msg,
        vdB03_Quenching_Model_init default_quenching_parameters
          baseline_hod_parameter_dict_arg (PyNumber q) supplied
        = Raise (TypeError msg))).
Proof.
  intros Hrow. split; [|split].
  - intros Hd.
    unfold Satcen_Correlation_Polynomial_HOD_Model_init,
      Polynomial_Assembly_Biased_HOD_Model_init.
    rewrite (Zheng07_default_construction thr k Hrow). simpl.
    unfold assembias_require_correct_keys. unfold same_keys in Hd.
    rewrite Hd. simpl. split; eexists; reflexivity.
  - intros Hd. unfold vdB03_Quenching_Model_init.
    rewrite (Zheng07_default_construction thr k Hrow). simpl.
    unfold quenching_require_correct_keys. unfold same_keys in Hd.
    rewrite Hd. simpl. eexists. reflexivity.
  - intros q supplied Hq.
    unfold Satcen_Correlation_Polynomial_HOD_Model_init,
      Polynomial_Assembly_Biased_HOD_Model_init, vdB03_Quenching_Model_init.
    rewrite (Zheng07_unpublished_threshold q Hq). simpl.
    repeat split; eexists; reflexivity.
Qed.

End ConstructorFacts.

Lemma vdB03_construction_loses_threshold_witness :
  exists m,
    vdB03_Quenching_Model_init example_quenching_parameters
      None (PyNumber (-21)) None
    = Ok (m, construction_warnings (PyNumber (-21))) /\
    self_threshold m = PyNone /\
    threshold (_baseline_hod_model m) = Some (-20) /\
    baseline_hod_parameter_dict m = Some (table_row 6) /\
    self_publication m = ["arXiv:0703457"; "arXiv:0210495v3"]%string /\
    model_parameter_dict m
    = Some (bound_dictionary None example_quenching_parameters) /\
    joins m 6 (bound_dictionary None example_quenching_parameters).
Proof.
  apply (vdB03_construction_loses_threshold example_quenching_parameters
           None (PyNumber (-21)) 6%nat None).
  - right. exists (-21). split; [reflexivity|].
    split; [simpl; lia | reflexivity].
  - exact I.
  - simpl. repeat constructor; simpl; intuition discriminate.
Defined.

Lemma assembias_construction_keeps_threshold_witness :
  exists m m',
    Satcen_Correlation_Polynomial_HOD_Model_init example_satcen_parameters
      None PyNone (Some example_supplied_parameters)
    = Ok (m, construction_warnings PyNone) /\
    Polynomial_Assembly_Biased_HOD_Model_init example_satcen_parameters
      example_satcen_parameters
      None PyNone (Some example_supplied_parameters) "VMAX" "ZFORM"
    = Ok (m', ("VMAX", "ZFORM")%string, construction_warnings PyNone) /\
    self_threshold m = PyNone /\ self_threshold m' = PyNone /\
    threshold (_baseline_hod_model m) = Some (-20) /\
    threshold (_baseline_hod_model m') = Some (-20) /\
    baseline_hod_parameter_dict m = Some (table_row 3) /\
    baseline_hod_parameter_dict m' = Some (table_row 3) /\
    self_publication m = ["arXiv:0703457"]%string /\
    self_publication m' = ["arXiv:0703457"]%string /\
    joins m 3 (bound_dictionary (Some example_supplied_parameters)
                 example_satcen_parameters) /\
    joins m' 3 (bound_dictionary (Some example_supplied_parameters)
                  example_satcen_parameters).
Proof.
  apply (assembias_construction_keeps_threshold example_satcen_parameters
           example_satcen_parameters None PyNone 3%nat
           (Some example_supplied_parameters) "VMAX" "ZFORM").
  - left. split; reflexivity.
  - reflexivity.
  - simpl. repeat constructor; simpl; intuition discriminate.
  - simpl. repeat constructor; simpl; intuition discriminate.
Defined.

Lemma derived_models_reject_wrong_keys_witness :
  (same_keys [("quenching_abcissa"%string, Array [12; 15])]
     example_satcen_parameters = false ->
   (exists msg,
      Satcen_Correlation_Polynomial_HOD_Model_init example_satcen_parameters
        None (PyNumber (-19)) (Some [("quenching_abcissa"%string,
                                      Array [12; 15])])
      = Raise (TypeError msg)) /\
   (exists msg,
      Polynomial_Assembly_Biased_HOD_Model_init example_satcen_parameters
        example_satcen_parameters
        None (PyNumber (-19)) (Some [("quenching_abcissa"%string,
                                      Array [12; 15])])
        "VMAX" "ZFORM"
      = Raise (TypeError msg))) /\
  (same_keys [("quenching_abcissa"%string, Array [12; 15])]
     example_quenching_parameters = false ->
   exists msg,
     vdB03_Quenching_Model_init example_quenching_parameters
       None (PyNumber (-19)) (Some [("quenching_abcissa"%string,
                                     Array [12; 15])])
     = Raise (TypeError msg)) /\
  (forall q supplied,
     (forall t, In t published_thresholds -> ~ q == t) ->
     (exists msg,
        Satcen_Correlation_Polynomial_HOD_Model_init
          example_satcen_parameters
          None (PyNumber q) supplied
        = Raise (TypeError msg)) /\
     (exists msg,
        Polynomial_Assembly_Biased_HOD_Model_init example_satcen_parameters
          example_satcen_parameters
          None (PyNumber q) supplied
          "VMAX" "ZFORM"
        = Raise (TypeError msg)) /\
     (exists msg,
        vdB03_Quenching_Model_init example_quenching_parameters
          None (PyNumber q) supplied
        = Raise (TypeError msg))).
Proof.
  apply (derived_models_reject_wrong_keys example_satcen_parameters
           example_satcen_parameters example_quenching_parameters
           None (PyNumber (-19)) 2%nat
           [("quenching_abcissa"%string, Array [12; 15])] "VMAX" "ZFORM").
  right. exists (-19). split; [reflexivity|].
  split; [simpl; lia | reflexivity].
Defined.

Module PolynomialFitFacts.

Import mathcomp.boot.boot mathcomp.algebra.algebra.
Import GRing.Theory.
Import PolynomialFit.
Local Open Scope ring_scope.

Section Facts.

Variable F : fieldType.
Implicit Types (abcissa ordinates : seq F).

(** The loop appends one row of powers per turn. *)
Lemma columns_loop abcissa (acc : seq F) (a m : nat) :
  foldl (fun columns i => columns ++ [seq x ^+ (i + 1) | x <- abcissa])
    acc (iota a m)
  = acc ++ flatten [seq [seq x ^+ (i + 1) | x <- abcissa] | i <- iota a m].
Proof.
elim: m a acc => [|m IH] a acc /=; first by rewrite cats0.
by rewrite IH catA.
Qed.

Lemma nseq_ones abcissa :
  nseq (size abcissa) 1 = [seq x ^+ 0 | x <- abcissa].
Proof. by elim: abcissa => //= x s ->; rewrite expr0. Qed.

Lemma columns_rows abcissa :
  foldl (fun columns i => columns ++ [seq x ^+ (i + 1) | x <- abcissa])
    (nseq (size abcissa) 1) (iota 0 (size abcissa - 1))
  = flatten [seq [seq x ^+ i | x <- abcissa] | i <- iota 0 (size abcissa)].
Proof.
rewrite columns_loop nseq_ones.
have -> : [seq [seq x ^+ (i + 1) | x <- abcissa]
             | i <- iota 0 (size abcissa - 1)]
          = [seq [seq x ^+ i | x <- abcissa]
               | i <- iota 1 (size abcissa - 1)].
  rewrite -[iota 1 _]/(iota (1 + 0) _) iotaDl -map_comp.
  by apply: eq_map => i; rewrite /= addnC.
case E: (size abcissa) => [|n]; last by rewrite subn1.
by move/size0nil: E => ->.
Qed.

Lemma nth_flatten_rows (n : nat) (rows : seq (seq F)) (r c : nat) :
  all (fun row => size row == n) rows -> (c < n)%N ->
  nth 0 (flatten rows) (r * n + c) = nth 0 (nth [::] rows r) c.
Proof.
elim: rows r => [|row rows IH] r /=; first by rewrite !nth_nil.
case/andP => /eqP Hrow Hrows Hc.
case: r => [|r]; first by rewrite mul0n add0n nth_cat Hrow Hc.
rewrite nth_cat Hrow mulSn -addnA ltnNge leq_addr /=.
by rewrite addKn IH.
Qed.

Lemma reshape_columns abcissa :
  reshape (size abcissa)
    (foldl (fun columns i => columns ++ [seq x ^+ (i + 1) | x <- abcissa])
       (nseq (size abcissa) 1) (iota 0 (size abcissa - 1)))
  = Vandermonde (size abcissa) (\row_j nth 0 abcissa j).
Proof.
rewrite columns_rows; apply/matrixP => r c; rewrite !mxE.
have Hrows : all (fun row : seq F => size row == size abcissa)
               [seq [seq x ^+ i | x <- abcissa] | i <- iota 0 (size abcissa)].
  by apply/allP => row /mapP [i _ ->]; rewrite size_map.
rewrite (@nth_flatten_rows _ _ r c Hrows (ltn_ord c)).
rewrite (nth_map 0%N) ?size_iota // nth_iota // add0n.
by rewrite (nth_map 0).
Qed.

(** The determinant of the model matrix vanishes exactly when two abcissa
    coincide. *)
Lemma model_matrix_unit abcissa :
  ((Vandermonde (size abcissa) (\row_j nth 0 abcissa j))^T \in unitmx)
  = uniq abcissa.
Proof.
rewrite unitmxE unitfE det_tr det_Vandermonde.
apply/idP/idP.
  move=> Hprod; apply/negPn/negP => /(uniqPn 0) [i [j [Hij Hj Heq]]].
  have Hi : (i < size abcissa)%N by exact: ltn_trans Hij Hj.
  move/prodf_neq0: Hprod => /(_ (Ordinal Hi) isT).
  move/prodf_neq0 => /(_ (Ordinal Hj) Hij).
  by rewrite !mxE /= Heq subrr eqxx.
move=> Huniq.
apply/prodf_neq0 => i _; apply/prodf_neq0 => j Hij.
rewrite !mxE subr_eq0.
by rewrite nth_uniq // neq_ltn Hij orbT.
Qed.

Lemma nth_solution (n : nat) (x : 'cV[F]_n) (i : 'I_n) :
  nth 0 [seq x j 0 | j <- enum 'I_n] i = x i 0.
Proof.
by rewrite (nth_map i) ?size_enum_ord ?ltn_ord // nth_ord_enum.
Qed.

Lemma solver_unfold (abcissa ordinates : seq F) :
  size ordinates = size abcissa ->
  solve_for_polynomial_coefficients abcissa ordinates
  = if uniq abcissa then
      Ok [seq (invmx (Vandermonde (size abcissa)
                        (\row_j nth 0 abcissa j))^T
               *m (\col_j nth 0 ordinates j)) j 0
         | j <- enum 'I_(size abcissa)]
    else Raise LinAlgError.
Proof.
move=> Hsize; rewrite /solve_for_polynomial_coefficients reshape_columns.
by rewrite /linalg_solve Hsize eqxx /= model_matrix_unit.
Qed.

Lemma solver_repeated (abcissa ordinates : seq F) :
  size ordinates = size abcissa -> ~~ uniq abcissa ->
  solve_for_polynomial_coefficients abcissa ordinates = Raise LinAlgError.
Proof. by move=> Hsize /negbTE Hn; rewrite solver_unfold // Hn. Qed.

Lemma solver_distinct (abcissa ordinates : seq F) :
  size ordinates = size abcissa -> uniq abcissa ->
  exists c,
    solve_for_polynomial_coefficients abcissa ordinates = Ok c /\
    size c = size abcissa /\
    forall j, (j < size abcissa)%N ->
      \sum_(i < size abcissa) nth 0 c i * nth 0 abcissa j ^+ i
      = nth 0 ordinates j.
Proof.
move=> Hsize Huniq; rewrite solver_unfold // Huniq.
set A := (Vandermonde _ _)^T; set b := \col_j _.
exists [seq (invmx A *m b) j 0 | j <- enum 'I_(size abcissa)].
split=> //; split=> [|j Hj]; first by rewrite size_map size_enum_ord.
have HA : A \in unitmx by rewrite /A model_matrix_unit.
have /matrixP /(_ (Ordinal Hj) 0) := mulKVmx HA b.
rewrite [in X in _ = X -> _]mxE /= => <-; rewrite mxE.
apply: eq_bigr => i _; rewrite nth_solution mulrC.
by congr (_ * _); rewrite !mxE.
Qed.

(** C8. Polynomial solver contract: for abcissa and ordinates of the same
    length, when the abcissa are pairwise distinct the solver returns as many
    coefficients [c] as there are points, with
    [sum_i c_i * abcissa_j ^ i = ordinates_j] at every point [j]; when an
    abcissa is repeated it raises numpy's singular-matrix error
    ([LinAlgError]) and returns nothing. *)
Theorem polynomial_solver_contract (abcissa ordinates : seq F) :
  size ordinates = size abcissa ->
  (uniq abcissa ->
   exists c,
     solve_for_polynomial_coefficients abcissa ordinates = Ok c /\
     size c = size abcissa /\
     forall j, (j < size abcissa)%N ->
       \sum_(i < size abcissa) nth 0 c i * nth 0 abcissa j ^+ i
       = nth 0 ordinates j)
  /\ (~~ uniq abcissa ->
      solve_for_polynomial_coefficients abcissa ordinates
      = Raise LinAlgError).
Proof.
move=> Hsize; split; first exact: solver_distinct.
exact: solver_repeated.
Qed.

(** A repeated abcissa, over any field: the solver raises. *)
Example repeated_abcissa_raises (x y0 y1 : F) :
  solve_for_polynomial_coefficients [:: x; x] [:: y0; y1]
  = Raise LinAlgError.
Proof. by apply: solver_repeated; rewrite //= inE eqxx. Qed.

End Facts.

Lemma polynomial_solver_contract_witness :
  (uniq example_abcissa ->
   exists c,
     solve_for_polynomial_coefficients example_abcissa example_ordinates
       = Ok c /\
     size c = size example_abcissa /\
     forall j, (j < size example_abcissa)%N ->
       \sum_(i < size example_abcissa) nth 0 c i * nth 0 example_abcissa j ^+ i
       = nth 0 example_ordinates j)
  /\ (~~ uniq example_abcissa ->
      solve_for_polynomial_coefficients example_abcissa example_ordinates
      = Raise LinAlgError).
Proof.
apply (@polynomial_solver_contract _ example_abcissa example_ordinates).
reflexivity.
Defined.

End PolynomialFitFacts.

Module PolynomialModelsFacts.

Import mathcomp.boot.boot mathcomp.order.order mathcomp.algebra.algebra.
Import GRing.Theory Num.Theory Order.TTheory.
Import PolynomialFit PolynomialFitFacts PolynomialModels.
Local Open Scope ring_scope.

Section ModelFacts.

Variable F : fieldType.
Implicit Types (abcissa ordinates primary c : seq F).

(** Every array of the loop is a function of the primary property, halo by
    halo. *)
Lemma zip_map_self (g : F -> F) primary :
  zip [seq g x | x <- primary] primary = [seq (g x, x) | x <- primary].
Proof. by elim: primary => //= x s ->. Qed.

Lemma add_term_map (g : F -> F) primary (n : nat) (coeff : F) :
  add_term [seq g x | x <- primary] primary n coeff
  = [seq g x + coeff * x ^+ n | x <- primary].
Proof. by rewrite /add_term zip_map_self -map_comp. Qed.

Lemma add_terms_loop (g : F -> F) primary c (a : nat) :
  foldl (fun output n_coeff =>
           add_term output primary n_coeff.1 n_coeff.2)
    [seq g x | x <- primary] (zip (iota a (size c)) c)
  = [seq g x + \sum_(i < size c) nth 0 c i * x ^+ (a + i) | x <- primary].
Proof.
elim: c a g => [|c0 c IH] a g /=.
  by apply: eq_map => x; rewrite big_ord0 addr0.
rewrite add_term_map IH; apply: eq_map => x.
rewrite big_ord_recl /= addn0 addrA; congr (_ + _).
by apply: eq_bigr => i _; rewrite /bump /= add1n addSnnS.
Qed.

Lemma nseq_zeros primary : nseq (size primary) 0 = [seq 0 | x <- primary] :> seq F.
Proof. by elim: primary => //= x s ->. Qed.

Lemma polynomial_loop primary c :
  foldl (fun output n_coeff =>
           add_term output primary n_coeff.1 n_coeff.2)
    (nseq (size primary) 0) (zip (iota 0 (size c)) c)
  = [seq (Poly c).[x] | x <- primary].
Proof.
rewrite nseq_zeros add_terms_loop; apply: eq_map => x.
rewrite add0r (horner_coef_wide _ (size_Poly c)).
by apply: eq_bigr => i _; rewrite coef_Poly add0n.
Qed.

(** The coefficients that the solver returns are those of the one polynomial
    of degree below the number of points that passes through the points. *)
Lemma interpolant_unique abcissa (q r : {poly F}) :
  uniq abcissa ->
  (size q <= size abcissa)%N -> (size r <= size abcissa)%N ->
  (forall j, (j < size abcissa)%N ->
     q.[nth 0 abcissa j] = r.[nth 0 abcissa j]) ->
  q = r.
Proof.
move=> Huniq Hq Hr Heq; apply/eqP; rewrite -subr_eq0; apply/negPn/negP => Hd.
have Hroots : all (root (q - r)) abcissa.
  apply/(all_nthP 0) => j Hj.
  by rewrite rootE !hornerE Heq // subrr.
have := max_poly_roots Hd Hroots Huniq.
rewrite ltnNge => /negP; apply.
apply: leq_trans (size_polyD _ _) _.
by rewrite size_polyN geq_max Hq Hr.
Qed.

Lemma model_unfold abcissa ordinates primary :
  size ordinates = size abcissa -> uniq abcissa ->
  exists c,
    [/\ solve_for_polynomial_coefficients abcissa ordinates = Ok c,
        size c = size abcissa,
        (forall j, (j < size abcissa)%N ->
           (Poly c).[nth 0 abcissa j] = nth 0 ordinates j)
      & unconstrained_polynomial_model abcissa ordinates primary
        = Ok [seq (Poly c).[x] | x <- primary]].
Proof.
move=> Hsize Huniq.
have [c [Hc [Hsc Hev]]] := @solver_distinct F _ _ Hsize Huniq.
exists c; split=> //.
  move=> j Hj; rewrite -(Hev j Hj).
  have Hle : (size (Poly c) <= size abcissa)%N by rewrite -Hsc size_Poly.
  rewrite (horner_coef_wide _ Hle).
  by apply: eq_bigr => i _; rewrite coef_Poly.
by rewrite /unconstrained_polynomial_model Hc polynomial_loop.
Qed.

(** X9. [unconstrained_polynomial_model] evaluates the interpolating
    polynomial: for at least one point, as many ordinates as abcissa and
    pairwise distinct abcissa, and for any polynomial [q] of degree below the
    number of points that takes the ordinates at the abcissa, the model
    returns [q] evaluated at every halo of the catalog. *)
Theorem unconstrained_polynomial_model_unique abcissa ordinates primary
  (q : {poly F}) :
  (0 < size abcissa)%N -> size ordinates = size abcissa -> uniq abcissa ->
  (size q <= size abcissa)%N ->
  (forall j, (j < size abcissa)%N ->
     q.[nth 0 abcissa j] = nth 0 ordinates j) ->
  unconstrained_polynomial_model abcissa ordinates primary
  = Ok [seq q.[x] | x <- primary].
Proof.
move=> _ Hsize Huniq Hq Hev.
have [c [_ Hsc Hc ->]] := @model_unfold abcissa ordinates primary Hsize Huniq.
suff -> : Poly c = q by [].
apply: (@interpolant_unique abcissa _ _ Huniq) => //.
  by rewrite -Hsc size_Poly.
by move=> j Hj; rewrite Hc // Hev.
Qed.

Lemma model_at_abcissa abcissa ordinates :
  size ordinates = size abcissa -> uniq abcissa ->
  unconstrained_polynomial_model abcissa ordinates abcissa = Ok ordinates.
Proof.
move=> Hsize Huniq.
have [c [_ _ Hc ->]] := @model_unfold abcissa ordinates abcissa Hsize Huniq.
congr Ok; apply: (@eq_from_nth _ 0); first by rewrite size_map.
by move=> j; rewrite size_map => Hj; rewrite (nth_map 0) // Hc.
Qed.

(** X10. Interpolation round trip: evaluated at its own abcissa, the model
    returns the ordinates. *)
Theorem unconstrained_polynomial_model_interpolates abcissa ordinates :
  (0 < size abcissa)%N -> size ordinates = size abcissa -> uniq abcissa ->
  unconstrained_polynomial_model abcissa ordinates abcissa = Ok ordinates.
Proof. by move=> _; exact: model_at_abcissa. Qed.

Lemma model_repeated abcissa ordinates primary :
  size ordinates = size abcissa -> ~~ uniq abcissa ->
  unconstrained_polynomial_model abcissa ordinates primary
  = Raise LinAlgError.
Proof.
move=> Hsize Hn.
by rewrite /unconstrained_polynomial_model (@solver_repeated F _ _ Hsize Hn).
Qed.

End ModelFacts.

Section ClippedFacts.

Variable F : realFieldType.
Implicit Types (abcissa ordinates primary : seq F).

Lemma putmask_scalar_seq (T : Type) (m : T -> bool) (g : T -> F) (v : F)
  (s : seq T) :
  putmask_scalar [seq g x | x <- s] [seq m x | x <- s] v
  = [seq if m x then v else g x | x <- s].
Proof. by elim: s => //= x s ->. Qed.

Lemma clip_masks (T : Type) (g : T -> F) (s : seq T) :
  putmask_scalar
    (putmask_scalar [seq g x | x <- s]
       [seq y < 0 | y <- [seq g x | x <- s]] 0)
    [seq y > 1 | y <- putmask_scalar [seq g x | x <- s]
                        [seq y < 0 | y <- [seq g x | x <- s]] 0] 1
  = [seq clip (g x) | x <- s].
Proof.
rewrite -map_comp putmask_scalar_seq -map_comp putmask_scalar_seq.
by [].
Qed.

Lemma clip_bounds (y : F) : (0 <= clip y) && (clip y <= 1).
Proof.
rewrite /clip; case: (ltP y 0) => Hy.
  by rewrite ltr10 lexx ler01.
case: (ltP 1 y) => H1; first by rewrite ler01 lexx.
by rewrite Hy H1.
Qed.

Lemma clip_id (y : F) : 0 <= y <= 1 -> clip y = y.
Proof.
case/andP => H0 H1; rewrite /clip.
by rewrite (ltNge y 0) H0 /= (ltNge 1 y) H1.
Qed.

Lemma quenching_unfold abcissa ordinates primary :
  quenching_polynomial_model abcissa ordinates primary
  = match unconstrained_polynomial_model abcissa ordinates primary with
    | Ok r => Ok [seq clip y | y <- r]
    | Raise e => Raise e
    end.
Proof.
rewrite /quenching_polynomial_model /unconstrained_polynomial_model.
case: (solve_for_polynomial_coefficients abcissa ordinates) => [c|e] //.
rewrite polynomial_loop; congr Ok.
by rewrite clip_masks -map_comp.
Qed.

(** X12. [quenching_polynomial_model] returns fractions: for at least one
    point, as many ordinates as abcissa and pairwise distinct abcissa, it
    returns one value per halo and every value lies in [[0, 1]]; evaluated at
    its own abcissa it returns the ordinates clipped to [[0, 1]], hence the
    ordinates themselves when they are fractions. *)
Theorem quenching_polynomial_model_fractions abcissa ordinates primary :
  (0 < size abcissa)%N -> size ordinates = size abcissa -> uniq abcissa ->
  (exists r,
     [/\ quenching_polynomial_model abcissa ordinates primary = Ok r,
         size r = size primary
       & all (fun y => (0 <= y) && (y <= 1)) r])
  /\ quenching_polynomial_model abcissa ordinates abcissa
     = Ok [seq clip y | y <- ordinates]
  /\ (all (fun y => 0 <= y <= 1) ordinates ->
      quenching_polynomial_model abcissa ordinates abcissa = Ok ordinates).
Proof.
move=> Hpos Hsize Huniq.
have Hat : quenching_polynomial_model abcissa ordinates abcissa
           = Ok [seq clip y | y <- ordinates].
  by rewrite quenching_unfold (@model_at_abcissa _ _ _ Hsize Huniq).
split; last split=> //.
  have [c [_ _ _ Hm]] := @model_unfold _ abcissa ordinates primary Hsize Huniq.
  exists [seq clip y | y <- [seq (Poly c).[x] | x <- primary]].
  split; first by rewrite quenching_unfold Hm.
    by rewrite !size_map.
  by apply/allP => y /mapP [z _ ->]; exact: clip_bounds.
move=> Hall; rewrite Hat; congr Ok.
rewrite -[RHS]map_id; apply/eq_in_map => y Hy.
by apply: clip_id; move/allP: Hall; apply.
Qed.

(** X13. [Polynomial_Assembly_Biased_HOD_Model]: when the points of
    [defaults.default_halo_type_split] are at least one, as many ordinates as
    abcissa, with pairwise distinct abcissa, the type-1 fractions for
    centrals and for satellites are the same array, with one value per halo,
    every value in [[0, 1]]: the bounds that the destruction functions of
    [Assembly_Biased_HOD_Model] assume of them. *)
Theorem polynomial_model_type1_fractions abcissa ordinates primary :
  (0 < size abcissa)%N -> size ordinates = size abcissa -> uniq abcissa ->
  exists r,
    [/\ Polynomial_Assembly_Biased_HOD_Model.halo_type1_fraction_centrals
          abcissa ordinates primary = Ok r,
        Polynomial_Assembly_Biased_HOD_Model.halo_type1_fraction_satellites
          abcissa ordinates primary = Ok r,
        size r = size primary
      & all (fun y => (0 <= y) && (y <= 1)) r].
Proof.
move=> Hpos Hsize Huniq.
have [c [_ _ _ Hm]] := @model_unfold _ abcissa ordinates primary Hsize Huniq.
exists [seq clip y | y <- [seq (Poly c).[x] | x <- primary]].
rewrite /Polynomial_Assembly_Biased_HOD_Model.halo_type1_fraction_centrals.
rewrite /Polynomial_Assembly_Biased_HOD_Model.halo_type1_fraction_satellites.
rewrite Hm /= clip_masks -map_comp.
split=> //; first by rewrite !size_map.
by apply/allP => y /mapP [z _ ->]; exact: clip_bounds.
Qed.

(** X11. No caller catches the singular system: with as many ordinates as
    abcissa and a repeated abcissa, [unconstrained_polynomial_model],
    [quenching_polynomial_model] and the type-1 fractions of
    [Polynomial_Assembly_Biased_HOD_Model] all raise [LinAlgError], whatever
    the catalog is, the empty one included. *)
Theorem polynomial_models_repeated_abcissa abcissa ordinates primary :
  size ordinates = size abcissa -> ~~ uniq abcissa ->
  [/\ unconstrained_polynomial_model abcissa ordinates primary
      = Raise LinAlgError,
      quenching_polynomial_model abcissa ordinates primary
      = Raise LinAlgError,
      Polynomial_Assembly_Biased_HOD_Model.halo_type1_fraction_centrals
        abcissa ordinates primary = Raise LinAlgError
    & Polynomial_Assembly_Biased_HOD_Model.halo_type1_fraction_satellites
        abcissa ordinates primary = Raise LinAlgError].
Proof.
move=> Hsize Hn.
have Hm := @model_repeated _ abcissa ordinates primary Hsize Hn.
rewrite quenching_unfold.
rewrite /Polynomial_Assembly_Biased_HOD_Model.halo_type1_fraction_centrals.
rewrite /Polynomial_Assembly_Biased_HOD_Model.halo_type1_fraction_satellites.
by rewrite Hm.
Qed.

End ClippedFacts.

Lemma example_line_through_points (j : nat) :
  (j < size example_abcissa)%N ->
  example_line.[nth 0 example_abcissa j] = nth 0 example_ordinates j.
Proof.
case: j => [|[|j]] // _; rewrite /example_line horner_Poly /=.
all: by apply/eqP.
Defined.

Lemma unconstrained_polynomial_model_unique_witness :
  unconstrained_polynomial_model example_abcissa example_ordinates
    example_catalog
  = Ok [seq example_line.[x] | x <- example_catalog].
Proof.
apply: (@unconstrained_polynomial_model_unique _ example_abcissa
          example_ordinates example_catalog example_line) => //.
  exact: size_Poly.
exact: example_line_through_points.
Defined.

Lemma unconstrained_polynomial_model_interpolates_witness :
  unconstrained_polynomial_model example_abcissa example_ordinates
    example_abcissa
  = Ok example_ordinates.
Proof.
by apply: (@unconstrained_polynomial_model_interpolates _ example_abcissa
             example_ordinates).
Defined.

Lemma quenching_polynomial_model_fractions_witness :
  (exists r,
     [/\ quenching_polynomial_model example_abcissa example_ordinates
           example_catalog = Ok r,
         size r = size example_catalog
       & all (fun y => (0 <= y) && (y <= 1)) r])
  /\ quenching_polynomial_model example_abcissa example_ordinates
       example_abcissa
     = Ok [seq clip y | y <- example_ordinates]
  /\ (all (fun y => 0 <= y <= 1) example_ordinates ->
      quenching_polynomial_model example_abcissa example_ordinates
        example_abcissa
      = Ok example_ordinates).
Proof.
by apply: (@quenching_polynomial_model_fractions _ example_abcissa
             example_ordinates example_catalog).
Defined.

Lemma polynomial_model_type1_fractions_witness :
  exists r,
    [/\ Polynomial_Assembly_Biased_HOD_Model.halo_type1_fraction_centrals
          example_abcissa example_ordinates example_catalog = Ok r,
        Polynomial_Assembly_Biased_HOD_Model.halo_type1_fraction_satellites
          example_abcissa example_ordinates example_catalog = Ok r,
        size r = size example_catalog
      & all (fun y => (0 <= y) && (y <= 1)) r].
Proof.
by apply: (@polynomial_model_type1_fractions _ example_abcissa
             example_ordinates example_catalog).
Defined.

Lemma polynomial_models_repeated_abcissa_witness :
  [/\ unconstrained_polynomial_model repeated_abcissa example_ordinates [::]
      = Raise LinAlgError,
      quenching_polynomial_model repeated_abcissa example_ordinates [::]
      = Raise LinAlgError,
      Polynomial_Assembly_Biased_HOD_Model.halo_type1_fraction_centrals
        repeated_abcissa example_ordinates [::] = Raise LinAlgError
    & Polynomial_Assembly_Biased_HOD_Model.halo_type1_fraction_satellites
        repeated_abcissa example_ordinates [::] = Raise LinAlgError].
Proof.
by apply: (@polynomial_models_repeated_abcissa _ repeated_abcissa
             example_ordinates [::]).
Defined.

End PolynomialModelsFacts.

Module RealValuedFacts.

Import Reals Lra Qreals.
Import RealValued.
Local Open Scope R_scope.

Lemma repeat_map {A B : Type} (c : B) (p : list A) :
  repeat c (length p) = map (fun _ => c) p.
Proof. induction p; simpl; [reflexivity | f_equal; assumption]. Qed.

Lemma nth_map_R {A : Type} (f : A -> R) (l : list A) (i : nat) (d : A) :
  (i < length l)%nat -> nth i (map f l) 0 = f (nth i l d).
Proof.
  intros H. rewrite (nth_indep _ 0 (f d)) by (rewrite length_map; exact H).
  apply map_nth.
Qed.

(** *** anatoly_concentration *)

Lemma ten_pos : 0 < 10.
Proof. lra. Qed.

Lemma Mpiv_power : 1e12 = Rpower 10 12.
Proof.
  replace 12 with (INR 12) by (simpl; lra).
  rewrite (Rpower_pow 12 10 ten_pos). lra.
Qed.

Lemma concentration_one_halo (x : R) :
  9.6 * Rpower ((0 + Rpower 10 x) / 1e12) (-0.075)
  = 9.6 * Rpower 10 (-0.075 * (x - 12)).
Proof.
  f_equal. rewrite Rplus_0_l, Mpiv_power.
  unfold Rdiv. rewrite <- Rpower_Ropp, <- Rpower_plus, Rpower_mult.
  f_equal. lra.
Qed.

Lemma anatoly_concentration_map (logM : list R) :
  anatoly_concentration logM
  = map (fun x => 9.6 * Rpower 10 (-0.075 * (x - 12))) logM.
Proof.
  unfold anatoly_concentration.
  rewrite repeat_map, (map2_map Rplus), map_map.
  apply map_ext. intros x. apply concentration_one_halo.
Qed.

(** X17. [anatoly_concentration] is the power law in the mass: it returns
    one concentration per halo; the concentration of a halo of [log10 M = x]
    is [9.6 * 10 ^ (-0.075 * (x - 12))], which is positive, equal to 9.6 at
    the pivot mass [x = 12], and smaller for the more massive of two
    halos. *)
Theorem anatoly_concentration_power_law (logM : list R) (i j : nat) :
  (i < length logM)%nat -> (j < length logM)%nat ->
  length (anatoly_concentration logM) = length logM /\
  nth i (anatoly_concentration logM) 0
    = 9.6 * Rpower 10 (-0.075 * (nth i logM 0 - 12)) /\
  0 < nth i (anatoly_concentration logM) 0 /\
  (nth i logM 0 = 12 -> nth i (anatoly_concentration logM) 0 = 9.6) /\
  (nth i logM 0 < nth j logM 0 ->
   nth j (anatoly_concentration logM) 0
   < nth i (anatoly_concentration logM) 0).
Proof.
  intros Hi Hj. rewrite anatoly_concentration_map, length_map.
  rewrite !(nth_map_R _ logM _ 0) by assumption.
  split; [reflexivity|]. split; [reflexivity|].
  split; [|split].
  - apply Rmult_lt_0_compat; [lra|]. unfold Rpower. apply exp_pos.
  - intros ->. replace (-0.075 * (12 - 12)) with 0 by lra.
    rewrite (Rpower_O 10 ten_pos). lra.
  - intros H. apply Rmult_lt_compat_l; [lra|].
    apply Rpower_lt; lra.
Qed.

Lemma anatoly_concentration_power_law_witness :
  length (anatoly_concentration [11; 12; 13]) = length [11; 12; 13] /\
  nth 1 (anatoly_concentration [11; 12; 13]) 0
    = 9.6 * Rpower 10 (-0.075 * (nth 1 [11; 12; 13] 0 - 12)) /\
  0 < nth 1 (anatoly_concentration [11; 12; 13]) 0 /\
  (nth 1 [11; 12; 13] 0 = 12 ->
   nth 1 (anatoly_concentration [11; 12; 13]) 0 = 9.6) /\
  (nth 1 [11; 12; 13] 0 < nth 2 [11; 12; 13] 0 ->
   nth 2 (anatoly_concentration [11; 12; 13]) 0
   < nth 1 (anatoly_concentration [11; 12; 13]) 0).
Proof.
  apply (anatoly_concentration_power_law [11; 12; 13] 1%nat 2%nat);
    simpl; lia.
Defined.

(** *** cumulative_NFW_PDF *)

Lemma ln_lower_bound (r : R) : 0 < r -> 1 - / r <= ln r.
Proof.
  intros Hr. pose proof (exp_ineq1_le (- ln r)) as H.
  rewrite exp_Ropp, (exp_ln r Hr) in H. lra.
Qed.

Lemma ln_lower_bound_strict (r : R) : 0 < r -> r <> 1 -> 1 - / r < ln r.
Proof.
  intros Hr Hne.
  assert (Hl : - ln r <> 0).
  { intros H. apply Hne. apply ln_inv; [exact Hr | lra |].
    rewrite ln_1. lra. }
  pose proof (exp_ineq1 (- ln r) Hl) as H.
  rewrite exp_Ropp, (exp_ln r Hr) in H. lra.
Qed.

Lemma nfw_mass_0 : nfw_mass 0 = 0.
Proof.
  unfold nfw_mass. rewrite Rplus_0_r, ln_1. lra.
Qed.

Lemma nfw_mass_increasing (s t : R) :
  0 <= s -> s <= t -> nfw_mass s <= nfw_mass t.
Proof.
  intros Hs Hst. unfold nfw_mass.
  assert (Hu1 : 0 < 1 + s) by lra. assert (Hu2 : 0 < 1 + t) by lra.
  assert (Hr : 0 < (1 + t) / (1 + s)) by (apply Rdiv_lt_0_compat; lra).
  pose proof (ln_lower_bound _ Hr) as Hln.
  unfold Rdiv in Hln at 2.
  rewrite ln_mult, ln_Rinv in Hln by (try apply Rinv_0_lt_compat; lra).
  assert (E1 : / ((1 + t) / (1 + s)) = (1 + s) / (1 + t))
    by (field; lra).
  rewrite E1 in Hln.
  assert (E2 : t / (1 + t) - s / (1 + s)
               = (t - s) / ((1 + s) * (1 + t))) by (field; lra).
  assert (E3 : 1 - (1 + s) / (1 + t) = (t - s) / (1 + t)) by (field; lra).
  assert (H4 : (t - s) / ((1 + s) * (1 + t)) <= (t - s) / (1 + t)).
  { unfold Rdiv. apply Rmult_le_compat_l; [lra|].
    apply Rinv_le_contravar; [lra|].
    replace (1 + t) with (1 * (1 + t)) at 1 by lra.
    apply Rmult_le_compat_r; lra. }
  lra.
Qed.

Lemma nfw_mass_pos (t : R) : 0 < t -> 0 < nfw_mass t.
Proof.
  intros Ht. unfold nfw_mass.
  assert (Hu : 0 < 1 + t) by lra.
  pose proof (ln_lower_bound_strict (1 + t) Hu) as H.
  assert (E : t / (1 + t) = 1 - / (1 + t)) by (field; lra).
  rewrite E. assert (1 + t <> 1) by lra. specialize (H H0). lra.
Qed.

(** The value for one halo: the ratio of the profile integrals. *)
Lemma nfw_ratio_bounds (x c : R) :
  0 <= x <= 1 -> 0 < c ->
  0 <= nfw_mass (x * c) / nfw_mass c <= 1.
Proof.
  intros [Hx0 Hx1] Hc. pose proof (nfw_mass_pos c Hc) as Hn.
  assert (H0 : 0 <= x * c) by (apply Rmult_le_pos; lra).
  assert (H1 : x * c <= c).
  { replace c with (1 * c) at 2 by lra. apply Rmult_le_compat_r; lra. }
  pose proof (nfw_mass_increasing 0 (x * c) (Rle_refl 0) H0) as Hlo.
  rewrite nfw_mass_0 in Hlo.
  pose proof (nfw_mass_increasing (x * c) c H0 H1) as Hhi.
  split.
  - apply Rmult_le_pos; [exact Hlo|].
    apply Rlt_le, Rinv_0_lt_compat, Hn.
  - apply (Rmult_le_reg_r (nfw_mass c)); [exact Hn|].
    unfold Rdiv. rewrite Rmult_assoc, Rinv_l by lra. lra.
Qed.

Lemma nfw_ratio_increasing (x y c : R) :
  0 <= x -> x <= y -> 0 < c ->
  nfw_mass (x * c) / nfw_mass c <= nfw_mass (y * c) / nfw_mass c.
Proof.
  intros Hx Hxy Hc. pose proof (nfw_mass_pos c Hc) as Hn.
  unfold Rdiv. apply Rmult_le_compat_r.
  - apply Rlt_le, Rinv_0_lt_compat, Hn.
  - apply nfw_mass_increasing.
    + apply Rmult_le_pos; lra.
    + apply Rmult_le_compat_r; lra.
Qed.

Lemma map2_map_r {A B C : Type} (f : A -> B -> C) (a : A -> B)
  (p : list A) :
  map2 f p (map a p) = map (fun x => f x (a x)) p.
Proof. apply map2_map_l. Qed.

(** One concentration for all the radii. *)
Lemma cumulative_NFW_PDF_scalar (x : list R) (c : R) :
  cumulative_NFW_PDF x [c]
  = Ok (map (fun xi => nfw_mass (xi * c) / nfw_mass c) x).
Proof.
  unfold cumulative_NFW_PDF, broadcast. simpl length.
  destruct (length x =? 1)%nat eqn:E.
  - apply Nat.eqb_eq in E.
    destruct x as [|x0 [|x1 x]]; try discriminate. reflexivity.
  - simpl. rewrite !map_map, map2_map, map2_map.
    rewrite length_map, E. simpl.
    rewrite map_map. reflexivity.
Qed.

(** One concentration per radius. *)
Lemma cumulative_NFW_PDF_pairs (xc : list (R * R)) :
  cumulative_NFW_PDF (map fst xc) (map snd xc)
  = Ok (map (fun p => nfw_mass (fst p * snd p) / nfw_mass (snd p)) xc).
Proof.
  unfold cumulative_NFW_PDF, broadcast.
  rewrite !length_map, Nat.eqb_refl. simpl.
  rewrite map2_pairs, !map_map, !map2_map, !length_map, Nat.eqb_refl.
  reflexivity.
Qed.

Lemma cumulative_NFW_PDF_elements (x c : list R) :
  length c = length x \/ length c = 1%nat ->
  exists F,
    cumulative_NFW_PDF x c = Ok F /\
    length F = length x /\
    forall i, (i < length x)%nat ->
      nth i F 0
      = nfw_mass (nth i x 0 * concentration_of c i)
        / nfw_mass (concentration_of c i).
Proof.
  intros Hshape. unfold concentration_of.
  destruct (length c =? 1)%nat eqn:E.
  - apply Nat.eqb_eq in E.
    destruct c as [|c0 [|c1 c]]; try discriminate.
    rewrite cumulative_NFW_PDF_scalar. eexists.
    split; [reflexivity|]. split; [apply length_map|].
    intros i Hi. rewrite (nth_map_R _ x i 0 Hi). reflexivity.
  - destruct Hshape as [Hlen | Hone];
      [|rewrite Hone in E; discriminate].
    pose proof (cumulative_NFW_PDF_pairs (combine x c)) as H.
    rewrite (map_fst_combine_same x c Hlen),
      (map_snd_combine_same x c Hlen) in H.
    assert (Hc : length (combine x c) = length x)
      by (rewrite length_combine, Hlen; apply Nat.min_id).
    eexists. split; [exact H|]. split; [rewrite length_map; exact Hc|].
    intros i Hi. rewrite <- Hc in Hi.
    rewrite (nth_map_R _ (combine x c) i (0, 0) Hi).
    rewrite combine_nth by (symmetry; exact Hlen). reflexivity.
Qed.

Lemma concentration_of_In (c : list R) (i : nat) :
  (i < length c)%nat \/ length c = 1%nat -> In (concentration_of c i) c.
Proof.
  intros H. unfold concentration_of.
  destruct (length c =? 1)%nat eqn:E.
  - destruct c as [|c0 c]; [discriminate|]. left. reflexivity.
  - destruct H as [H | H]; [apply nth_In, H|].
    rewrite H in E. discriminate.
Qed.

(** X18. [cumulative_NFW_PDF] is a cumulative distribution on [[0, 1]]: for
    radii in [[0, 1]] and positive concentrations, either one per radius or
    one for all the radii, it returns one value per radius; each value lies
    in [[0, 1]], is 0 at radius 0 and 1 at radius 1; and of two radii with
    the same concentration the larger has the larger value. *)
Theorem cumulative_NFW_PDF_is_cdf (x c : list R) :
  length c = length x \/ length c = 1%nat ->
  (forall i, (i < length x)%nat -> 0 <= nth i x 0 <= 1) ->
  (forall ci, In ci c -> 0 < ci) ->
  exists F,
    cumulative_NFW_PDF x c = Ok F /\
    length F = length x /\
    forall i, (i < length x)%nat ->
      0 <= nth i F 0 <= 1 /\
      (nth i x 0 = 0 -> nth i F 0 = 0) /\
      (nth i x 0 = 1 -> nth i F 0 = 1) /\
      forall j, (j < length x)%nat ->
        concentration_of c i = concentration_of c j ->
        nth i x 0 <= nth j x 0 -> nth i F 0 <= nth j F 0.
Proof.
  intros Hshape Hx Hc.
  destruct (cumulative_NFW_PDF_elements x c Hshape) as [F [HF [HL HE]]].
  exists F. split; [exact HF|]. split; [exact HL|].
  assert (Hpos : forall i, (i < length x)%nat -> 0 < concentration_of c i).
  { intros i Hi. apply Hc, concentration_of_In.
    destruct Hshape as [H | H]; [left; rewrite H; exact Hi | right; exact H]. }
  intros i Hi. rewrite (HE i Hi).
  pose proof (Hpos i Hi) as Hci. pose proof (nfw_mass_pos _ Hci) as Hn.
  split; [apply nfw_ratio_bounds; [apply Hx, Hi | exact Hci]|].
  split; [|split].
  - intros ->. rewrite Rmult_0_l, nfw_mass_0. unfold Rdiv. lra.
  - intros ->. rewrite Rmult_1_l. unfold Rdiv. apply Rinv_r. lra.
  - intros j Hj Hsame Hij. rewrite (HE j Hj), <- Hsame.
    apply nfw_ratio_increasing; [apply Hx, Hi | exact Hij | exact Hci].
Qed.

Lemma cumulative_NFW_PDF_is_cdf_witness :
  exists F,
    cumulative_NFW_PDF example_radii [5] = Ok F /\
    length F = length example_radii /\
    forall i, (i < length example_radii)%nat ->
      0 <= nth i F 0 <= 1 /\
      (nth i example_radii 0 = 0 -> nth i F 0 = 0) /\
      (nth i example_radii 0 = 1 -> nth i F 0 = 1) /\
      forall j, (j < length example_radii)%nat ->
        concentration_of [5] i = concentration_of [5] j ->
        nth i example_radii 0 <= nth j example_radii 0 ->
        nth i F 0 <= nth j F 0.
Proof.
  apply (cumulative_NFW_PDF_is_cdf example_radii [5]).
  - right. reflexivity.
  - intros i Hi. unfold example_radii in *. simpl in Hi.
    destruct i as [|[|[|i]]]; simpl; try lra; lia.
  - simpl. intros ci [<- | []]. lra.
Defined.

(** Arrays whose lengths differ and are not 1 do not combine. *)
Example cumulative_NFW_PDF_shapes :
  cumulative_NFW_PDF [0.5; 1] [5; 6; 7] = Raise ValueError.
Proof. reflexivity. Qed.

(** *** The occupation functions of Zheng07_HOD_Model *)

Lemma Rlt_bool_true (x y : R) : x < y -> Rlt_bool x y = true.
Proof. intros H. unfold Rlt_bool. destruct (Rlt_dec x y); tauto. Qed.

Lemma Rlt_bool_false (x y : R) : y <= x -> Rlt_bool x y = false.
Proof.
  intros H. unfold Rlt_bool. destruct (Rlt_dec x y); [lra | reflexivity].
Qed.

Section OccupationFacts.

Variable erf : R -> R.
Variable k : nat.

Let logMmin := Q2R (nth k logMmin_cen_array 0%Q).
Let sigma := Q2R (nth k sigma_logM_array 0%Q).
Let logM0 := Q2R (nth k logM0_array 0%Q).
Let logM1 := Q2R (nth k logM1_array 0%Q).
Let alpha := Q2R (nth k alpha_sat_array 0%Q).

Let ncen1 (x : R) : R := 0.5 * (1.0 + erf ((x - logMmin) / sigma)).
Let nsat1 (x : R) : R :=
  if Rlt_bool 0 (Rpower 10 x - Rpower 10 logM0)
  then ncen1 x * Rpower ((Rpower 10 x - Rpower 10 logM0) / Rpower 10 logM1)
                   alpha
  else 0.

Lemma mean_ncen_published (logM halo_type : list R) :
  mean_ncen erf (published_instance k) logM halo_type
  = Return (map ncen1 logM).
Proof. reflexivity. Qed.

Lemma compress_filter {A : Type} (m : A -> bool) (p : list A) :
  compress (map m p) p = filter m p.
Proof.
  induction p as [|x p IH]; simpl; [reflexivity|].
  destruct (m x); rewrite IH; reflexivity.
Qed.

Lemma mean_nsat_published (logM halo_type : list R) :
  length halo_type = length logM ->
  mean_nsat erf (published_instance k) logM halo_type
  = Return (map nsat1 logM).
Proof.
  intros L. unfold mean_nsat.
  change (getitem (parameter_dict (published_instance k)) "logM0_sat")
    with (Return logM0).
  change (getitem (parameter_dict (published_instance k)) "logM1_sat")
    with (Return logM1).
  change (getitem (parameter_dict (published_instance k)) "alpha_sat")
    with (Return alpha).
  cbv beta iota zeta delta [and_then].
  unfold masked, compress_checked.
  rewrite !length_map, L, Nat.eqb_refl.
  rewrite mean_ncen_published.
  f_equal.
  rewrite repeat_map, !map_map, compress_filter, compress_map, !map_map.
  rewrite map2_map, putmask_map. reflexivity.
Qed.

Lemma ncen1_bounds (x : R) :
  (forall y, -1 <= erf y <= 1) -> 0 <= ncen1 x <= 1.
Proof.
  intros H. unfold ncen1. specialize (H ((x - logMmin) / sigma)). lra.
Qed.

Lemma nsat1_nonneg (x : R) :
  (forall y, -1 <= erf y <= 1) -> 0 <= nsat1 x.
Proof.
  intros H. unfold nsat1.
  destruct (Rlt_bool 0 (Rpower 10 x - Rpower 10 logM0)); [|lra].
  apply Rmult_le_pos; [apply ncen1_bounds, H|].
  unfold Rpower. apply Rlt_le, exp_pos.
Qed.

Lemma nsat1_below (x : R) : x <= logM0 -> nsat1 x = 0.
Proof.
  intros H. unfold nsat1. rewrite Rlt_bool_false; [reflexivity|].
  pose proof (Rle_Rpower 10 x logM0) as Hp.
  assert (1 <= 10) by lra. specialize (Hp H0 H). lra.
Qed.

Lemma nsat1_above (x : R) :
  logM0 < x ->
  nsat1 x
  = ncen1 x * Rpower ((Rpower 10 x - Rpower 10 logM0) / Rpower 10 logM1)
                alpha.
Proof.
  intros H. unfold nsat1. rewrite Rlt_bool_true; [reflexivity|].
  pose proof (Rpower_lt 10 logM0 x) as Hp.
  assert (1 < 10) by lra. specialize (Hp H0 H). lra.
Qed.

End OccupationFacts.

(** X19. The occupation functions of a constructed [Zheng07_HOD_Model]: for
    an instance built without a dictionary from a published threshold (or
    none), halo types as many as the halos, and an error function with values
    in [[-1, 1]], [mean_ncen] and [mean_nsat] find every parameter they
    subscript and return one value per halo; the central occupation lies in
    [[0, 1]]; the satellite occupation is never negative, is exactly 0 for a
    halo with [log10 M] at or below [logM0_sat] of the row, and above it is
    the central occupation times [((M - M0) / M1) ^ alpha_sat]. *)
Theorem zheng07_occupation_functions (erf : R -> R) (thr : threshold_arg)
  (k : nat) (logM halo_type : list R) (i : nat) :
  requested_row thr k ->
  (forall y, -1 <= erf y <= 1) ->
  length halo_type = length logM -> (i < length logM)%nat ->
  exists s ncen nsat,
    Zheng07_HOD_Model None thr = Ok s /\
    mean_ncen erf (instance s) logM halo_type = Return ncen /\
    mean_nsat erf (instance s) logM halo_type = Return nsat /\
    length ncen = length logM /\ length nsat = length logM /\
    0 <= nth i ncen 0 <= 1 /\
    0 <= nth i nsat 0 /\
    (nth i logM 0 <= Q2R (nth k logM0_array 0%Q) -> nth i nsat 0 = 0) /\
    (Q2R (nth k logM0_array 0%Q) < nth i logM 0 ->
     nth i nsat 0
     = nth i ncen 0
       * Rpower ((Rpower 10 (nth i logM 0)
                  - Rpower 10 (Q2R (nth k logM0_array 0%Q)))
                 / Rpower 10 (Q2R (nth k logM1_array 0%Q)))
           (Q2R (nth k alpha_sat_array 0%Q))).
Proof.
  intros Hrow Herf L Hi.
  rewrite (Zheng07_default_construction thr k Hrow).
  eexists. eexists. eexists. split; [reflexivity|].
  change (instance _) with (published_instance k).
  split; [apply mean_ncen_published|].
  split; [apply (mean_nsat_published erf k logM halo_type L)|].
  rewrite !length_map.
  split; [reflexivity|]. split; [reflexivity|].
  rewrite !(nth_map_R _ logM i 0 Hi).
  split; [apply ncen1_bounds, Herf|].
  split; [apply nsat1_nonneg, Herf|].
  split; [apply nsat1_below | apply nsat1_above].
Qed.

Lemma example_erf_bounds (y : R) : -1 <= example_erf y <= 1.
Proof.
  unfold example_erf.
  assert (Hd : 0 < 1 + Rabs y) by (pose proof (Rabs_pos y); lra).
  assert (Ha : - Rabs y <= y <= Rabs y).
  { split; [|apply Rle_abs].
    pose proof (Rle_abs (- y)) as H. rewrite Rabs_Ropp in H. lra. }
  split.
  - apply (Rmult_le_reg_r (1 + Rabs y)); [exact Hd|].
    unfold Rdiv. rewrite Rmult_assoc, Rinv_l by lra. lra.
  - apply (Rmult_le_reg_r (1 + Rabs y)); [exact Hd|].
    unfold Rdiv. rewrite Rmult_assoc, Rinv_l by lra. lra.
Defined.

Lemma zheng07_occupation_functions_witness :
  exists s ncen nsat,
    Zheng07_HOD_Model None (PyNumber (-21)) = Ok s /\
    mean_ncen example_erf (instance s) [11; 13; 15] [0; 1; 1] = Return ncen /\
    mean_nsat example_erf (instance s) [11; 13; 15] [0; 1; 1] = Return nsat /\
    length ncen = length [11; 13; 15] /\
    length nsat = length [11; 13; 15] /\
    0 <= nth 0 ncen 0 <= 1 /\
    0 <= nth 0 nsat 0 /\
    (nth 0 [11; 13; 15] 0 <= Q2R (nth 6 logM0_array 0%Q) ->
     nth 0 nsat 0 = 0) /\
    (Q2R (nth 6 logM0_array 0%Q) < nth 0 [11; 13; 15] 0 ->
     nth 0 nsat 0
     = nth 0 ncen 0
       * Rpower ((Rpower 10 (nth 0 [11; 13; 15] 0)
                  - Rpower 10 (Q2R (nth 6 logM0_array 0%Q)))
                 / Rpower 10 (Q2R (nth 6 logM1_array 0%Q)))
           (Q2R (nth 6 alpha_sat_array 0%Q))).
Proof.
  apply (zheng07_occupation_functions example_erf (PyNumber (-21)) 6%nat
           [11; 13; 15] [0; 1; 1] 0%nat).
  - right. exists (-21)%Q. split; [reflexivity|].
    split; [simpl; lia | reflexivity].
  - exact example_erf_bounds.
  - reflexivity.
  - simpl. lia.
Defined.

End RealValuedFacts.
